(** * Goodreads extraction scripts: a shallow embedding and its properties

    The development follows the Python sources of the repository:

    - [extract_files.py]          (module [ExtractFiles]): the two-pass review
      sampler, the identifier remapper and the book / genre passes;
    - [the_better_extract_files.py] (module [BetterExtract]): the capped
      extraction of authors, reviews and interactions;
    - [Extra_formattingcode.py]   (module [ExtraFormatting]): the cumulative
      budget selection of users;
    - [sample.py]                 (module [Sample]): the review-driven filter
      of already extracted tables.

    Python integers are [Z], Python strings are [string], sets of hashable
    values are [gset], dictionaries that are only looked up are [gmap], and
    dictionaries whose iteration order is observed are association lists in
    insertion order.  An uncaught Python exception is the [Raise] outcome of
    the [pyres] monad. *)

From Stdlib Require Import ZArith String Ascii List Permutation Sorted Lia.
From stdpp Require Import prelude gmap strings pretty.

Open Scope Z_scope.

(** ** Python values *)

(** The value of a JSON field after [json.loads], restricted to the scalar
    shapes that identifier, rating, count and text fields take: [null], an
    integer, or a string.  Distinct constructors are distinct dictionary
    keys, as in Python ([None], [1] and the string of one digit never compare
    equal). *)
Inductive jval : Type :=
  | JNull
  | JInt (z : Z)
  | JStr (s : string).

#[global] Instance jval_eq_dec : EqDecision jval.
Proof. solve_decision. Defined.

#[global] Instance jval_countable : Countable jval.
Proof.
  refine (inj_countable'
    (fun v => match v with
              | JNull => inl tt
              | JInt z => inr (inl z)
              | JStr s => inr (inr s)
              end)
    (fun x => match x with
              | inl _ => JNull
              | inr (inl z) => JInt z
              | inr (inr s) => JStr s
              end) _).
  intros []; reflexivity.
Defined.

(** Python truthiness: [if v:] *)
Definition truthy (v : jval) : bool :=
  match v with
  | JNull => false
  | JInt z => negb (z =? 0)
  | JStr s => negb (String.eqb s "")
  end.

(** [v == 0] for the integer literal [0]. *)
Definition py_eq0 (v : jval) : bool :=
  match v with
  | JInt z => z =? 0
  | _ => false
  end.

(** [str(v)] *)
Definition py_str (v : jval) : string :=
  match v with
  | JNull => "None"
  | JInt z => pretty z
  | JStr s => s
  end.

(** A parsed JSON object: [record.get(k, d)] is [py_get record k d]. *)
Abbreviation record := (gmap string jval).

Definition py_get (r : record) (k : string) (d : jval) : jval :=
  default d (r !! k).

(** One line of a [.json.gz] source, after [json.loads] was tried on it:
    [None] when [json.loads] raised, [Some record] otherwise. *)
Abbreviation line := (option record).

(** A row of [csv.DictReader]: a cell is [Some s], or [None] where the
    line had fewer cells than the header. *)
Abbreviation csv_row := (gmap string (option string)).

(** Exceptions that the modelled code can raise and does not catch. *)
Inductive exn : Type := TypeError | ValueError | AttributeError.

Inductive pyres (A : Type) : Type :=
  | Ok (a : A)
  | Raise (e : exn).
Arguments Ok {A} a.
Arguments Raise {A} e.

#[global] Instance pyres_ret : MRet pyres := fun A a => Ok a.
#[global] Instance pyres_bind : MBind pyres := fun A B f m =>
  match m with
  | Ok a => f a
  | Raise e => Raise e
  end.

(** [len(s)] and the slice [s[:n]] (a negative [n] counts from the end). *)
Definition py_len (s : string) : Z := Z.of_nat (String.length s).

Fixpoint take_chars (n : nat) (s : string) : string :=
  match n, s with
  | O, _ => EmptyString
  | S _, EmptyString => EmptyString
  | S n', String c s' => String c (take_chars n' s')
  end.

Definition slice_to (s : string) (n : Z) : string :=
  if 0 <=? n then take_chars (Z.to_nat n) s
  else take_chars (Z.to_nat (py_len s + n)) s.

(** [safe_truncate(text, max_length)], the same in [extract_files.py] and
    [the_better_extract_files.py]:
<<
    if not text: return ""
    return text if len(text) <= max_length else text[:max_length] + "..."
>>
    [len] of an integer raises [TypeError]. *)
Definition safe_truncate (text : jval) (max_length : Z) : pyres string :=
  if negb (truthy text) then Ok ""
  else match text with
       | JStr s =>
           Ok (if py_len s <=? max_length then s
               else slice_to s max_length +:+ "...")
       | _ => Raise TypeError
       end.

(** [join_field(field)]: on a value that is not a list it is [str(field)]. *)
Definition join_field (field : jval) : string := py_str field.

(** ** Insertion-ordered dictionaries

    A Python [dict] whose iteration order is observed ([items()],
    [values()]): keys in order of first insertion, an assignment to an
    existing key keeps its position. *)
Section odict.
Context {K V : Type} `{EqDecision K}.

(** [m[k]] when [k in m] *)
Fixpoint dict_lookup (k : K) (m : list (K * V)) : option V :=
  match m with
  | [] => None
  | (k', v) :: m' => if decide (k' = k) then Some v else dict_lookup k m'
  end.

(** [m.get(k, d)] *)
Definition dict_get (k : K) (d : V) (m : list (K * V)) : V :=
  default d (dict_lookup k m).

(** [m[k] = v] *)
Fixpoint dict_set (k : K) (v : V) (m : list (K * V)) : list (K * V) :=
  match m with
  | [] => [(k, v)]
  | (k', v') :: m' =>
      if decide (k' = k) then (k', v) :: m' else (k', v') :: dict_set k v m'
  end.
End odict.

(** [sorted(items, key=lambda x: x[1], reverse=True)]: a stable sort by
    descending count; items with equal counts keep their input order. *)
Section sorting.
Context {K : Type}.

Fixpoint insert_desc (x : K * Z) (l : list (K * Z)) : list (K * Z) :=
  match l with
  | [] => [x]
  | y :: l' => if x.2 <? y.2 then y :: insert_desc x l' else x :: y :: l'
  end.

Definition sorted_desc (l : list (K * Z)) : list (K * Z) :=
  foldr insert_desc [] l.
End sorting.

(** ** [extract_files.py] *)
Module ExtractFiles.

(** What the script prints, one constructor per [print] call. *)
Inductive msg : Type :=
  | MsgStart
  | MsgReviewsNotFound
  | MsgPass1 (n_users n_kept : Z)
  | MsgProcessedReviews (total_reviews : Z)
  | MsgGenresNotFound
  | MsgLoadedGenres (n : Z)
  | MsgBooksNotFound
  | MsgProcessedBooks (count : Z)
  | MsgProcessedGenres (count : Z)
  | MsgComplete.

(** *** Pass 1 of [process_reviews]: reviews per user *)

Definition count_line (user_counts : list (jval * Z)) (ln : line)
  : list (jval * Z) :=
  match ln with
  | None => user_counts
  | Some record =>
      let user_id := py_get record "user_id" (JStr "") in
      if truthy user_id
      then dict_set user_id (dict_get user_id 0 user_counts + 1) user_counts
      else user_counts
  end.

Definition count_reviews (lines : list line) : list (jval * Z) :=
  fold_left count_line lines [].

(** *** Selection of the top users

    [SAMPLE_USER_PERCENT = 0.05] is the double [(1/20) * (1 + 2^-54)]; for
    any number [n] of users a machine can hold, the double product
    [n * 0.05] truncates to [n / 20], which is what the model computes. *)
Definition all_users_sorted (user_counts : list (jval * Z))
  : list (jval * Z) :=
  sorted_desc user_counts.

Definition num_users_to_keep (user_counts : list (jval * Z)) : Z :=
  Z.of_nat (length (all_users_sorted user_counts)) / 20.

Definition top_users_list (user_counts : list (jval * Z)) : list jval :=
  map fst (take (Z.to_nat (num_users_to_keep user_counts))
                (all_users_sorted user_counts)).

Definition top_users_old (user_counts : list (jval * Z)) : gset jval :=
  list_to_set (top_users_list user_counts).

(** *** Pass 2 of [process_reviews]: filtered rows and identifier maps *)

(** A row of [reviews.csv]. *)
Record review_row : Type := ReviewRow {
  review_id : jval;
  user_id : Z;
  book_id : Z;
  rating : jval;
  review_text : string;
  date_added : jval;
  date_updated : jval;
  read_at : jval;
  started_at : jval;
  n_votes : jval;
  n_comments : jval
}.

(** The local variables of pass 2; [rows] are the rows written so far. *)
Record state : Type := State {
  user_id_map : gmap jval Z;
  book_id_map : gmap jval Z;
  next_user_id : Z;
  next_book_id : Z;
  kept_users_old : gset jval;
  kept_books_old : gset jval;
  total_reviews : Z;
  rows : list review_row
}.

Definition init_state : state :=
  {| user_id_map := ∅; book_id_map := ∅;
     next_user_id := 1; next_book_id := 1;
     kept_users_old := ∅; kept_books_old := ∅;
     total_reviews := 0; rows := [] |}.

(** The body shared by the two closures: look [old_id] up, allocate the
    counter's value when it is absent.  Returns the map, the counter and
    the mapped identifier. *)
Definition get_mapped (id_map : gmap jval Z) (next_id : Z) (old_id : jval)
  : gmap jval Z * Z * Z :=
  match id_map !! old_id with
  | None => (<[old_id := next_id]> id_map, next_id + 1, next_id)
  | Some new_id => (id_map, next_id, new_id)
  end.

Definition get_mapped_user_id (st : state) (old_id : jval) : state * Z :=
  let '(m, n, new_id) := get_mapped (user_id_map st) (next_user_id st) old_id in
  ({| user_id_map := m; book_id_map := book_id_map st;
      next_user_id := n; next_book_id := next_book_id st;
      kept_users_old := kept_users_old st;
      kept_books_old := kept_books_old st;
      total_reviews := total_reviews st; rows := rows st |}, new_id).

Definition get_mapped_book_id (st : state) (old_id : jval) : state * Z :=
  let '(m, n, new_id) := get_mapped (book_id_map st) (next_book_id st) old_id in
  ({| user_id_map := user_id_map st; book_id_map := m;
      next_user_id := next_user_id st; next_book_id := n;
      kept_users_old := kept_users_old st;
      kept_books_old := kept_books_old st;
      total_reviews := total_reviews st; rows := rows st |}, new_id).

(** One iteration of the pass-2 loop. *)
Definition review_step (top_users_old : gset jval) (st : state) (ln : line)
  : pyres state :=
  match ln with
  | None => Ok st
  | Some record =>
      let old_user_id := py_get record "user_id" (JStr "") in
      if decide (old_user_id ∈ top_users_old) then
        let '(st1, new_user_id) := get_mapped_user_id st old_user_id in
        let old_book_id := py_get record "book_id" (JStr "") in
        let '(st2, new_book_id) := get_mapped_book_id st1 old_book_id in
        text ← safe_truncate (py_get record "review_text" (JStr "")) 1500;
        Ok {| user_id_map := user_id_map st2;
              book_id_map := book_id_map st2;
              next_user_id := next_user_id st2;
              next_book_id := next_book_id st2;
              kept_users_old := kept_users_old st2 ∪ {[old_user_id]};
              kept_books_old := kept_books_old st2 ∪ {[old_book_id]};
              total_reviews := total_reviews st2 + 1;
              rows := rows st2 ++
                [ {| review_id := py_get record "review_id" (JStr "");
                     user_id := new_user_id;
                     book_id := new_book_id;
                     rating := py_get record "rating" (JStr "");
                     review_text := text;
                     date_added := py_get record "date_added" (JStr "");
                     date_updated := py_get record "date_updated" (JStr "");
                     read_at := py_get record "read_at" (JStr "");
                     started_at := py_get record "started_at" (JStr "");
                     n_votes := py_get record "n_votes" (JStr "");
                     n_comments := py_get record "n_comments" (JStr "") |} ]
           |}
      else Ok st
  end.

Fixpoint review_loop (top_users_old : gset jval) (st : state)
  (lines : list line) : pyres state :=
  match lines with
  | [] => Ok st
  | ln :: lines' =>
      st' ← review_step top_users_old st ln;
      review_loop top_users_old st' lines'
  end.

(** The outcome of [process_reviews]: the final pass-2 state, whose
    components [kept_users_old], [kept_books_old], [user_id_map] and
    [book_id_map] are the returned tuple; the data rows of [reviews.csv]
    ([None] when the file was never opened); what was printed. *)
Record reviews_run : Type := ReviewsRun {
  rr_state : state;
  rr_csv : option (list review_row);
  rr_log : list msg
}.

Definition process_reviews (reviews_file : option (list line))
  : pyres reviews_run :=
  match reviews_file with
  | None =>
      Ok {| rr_state := init_state; rr_csv := None;
            rr_log := [MsgReviewsNotFound] |}
  | Some lines =>
      let user_counts := count_reviews lines in
      let top := top_users_old user_counts in
      st ← review_loop top init_state lines;
      Ok {| rr_state := st; rr_csv := Some (rows st);
            rr_log := [ MsgPass1 (Z.of_nat (length user_counts))
                                 (Z.of_nat (size top));
                        MsgProcessedReviews (total_reviews st) ] |}
  end.

(** *** [load_genres] *)

Definition genre_raw (record : gmap string jval) : jval :=
  py_get record "genres" (py_get record "genre" (JStr "")).

Definition load_genres_line (genres_dict : gmap jval string) (ln : line)
  : gmap jval string :=
  match ln with
  | None => genres_dict
  | Some record =>
      let book_id := py_get record "book_id" (JStr "") in
      let genre_str := join_field (genre_raw record) in
      if truthy book_id then <[book_id := genre_str]> genres_dict
      else genres_dict
  end.

Definition load_genres (genres_file : option (list line))
  : gmap jval string * list msg :=
  match genres_file with
  | None => (∅, [MsgGenresNotFound])
  | Some lines =>
      let genres_dict := fold_left load_genres_line lines ∅ in
      (genres_dict, [MsgLoadedGenres (Z.of_nat (size genres_dict))])
  end.

(** *** [process_books] *)

(** A row of [books.csv]: the remapped identifier, the merged genre, and
    the source record whose remaining fields are serialised into the other
    columns. *)
Record book_row : Type := BookRow {
  b_book_id : Z;
  b_genre : string;
  b_source : gmap string jval
}.

Definition book_line (kept_books_old : gset jval) (book_id_map : gmap jval Z)
  (genres_dict : gmap jval string) (ln : line) : option book_row :=
  match ln with
  | None => None
  | Some record =>
      let old_book_id := py_get record "book_id" (JStr "") in
      if decide (old_book_id ∈ kept_books_old) then
        match book_id_map !! old_book_id with
        | None => None
        | Some new_book_id =>
            Some {| b_book_id := new_book_id;
                    b_genre := default "" (genres_dict !! old_book_id);
                    b_source := record |}
        end
      else None
  end.

(** Returns the data rows of [books.csv] ([None] when the source is
    missing), the returned count, and what was printed. *)
Definition process_books (books_file : option (list line))
  (kept_books_old : gset jval) (book_id_map : gmap jval Z)
  (genres_dict : gmap jval string)
  : option (list book_row) * Z * list msg :=
  match books_file with
  | None => (None, 0, [MsgBooksNotFound])
  | Some lines =>
      let out := omap (book_line kept_books_old book_id_map genres_dict) lines in
      let count := Z.of_nat (length out) in
      (Some out, count, [MsgProcessedBooks count])
  end.

(** *** [process_genres] *)

Record genre_row : Type := GenreRow {
  g_book_id : Z;
  g_genre : string
}.

Definition genre_line (kept_books_old : gset jval) (book_id_map : gmap jval Z)
  (ln : line) : option genre_row :=
  match ln with
  | None => None
  | Some record =>
      let old_book_id := py_get record "book_id" (JStr "") in
      if decide (old_book_id ∈ kept_books_old) then
        match book_id_map !! old_book_id with
        | None => None
        | Some new_book_id =>
            Some {| g_book_id := new_book_id;
                    g_genre := join_field (genre_raw record) |}
        end
      else None
  end.

Definition process_genres (genres_file : option (list line))
  (kept_books_old : gset jval) (book_id_map : gmap jval Z)
  : option (list genre_row) * list msg :=
  match genres_file with
  | None => (None, [MsgGenresNotFound])
  | Some lines =>
      let out := omap (genre_line kept_books_old book_id_map) lines in
      (Some out, [MsgProcessedGenres (Z.of_nat (length out))])
  end.

(** *** [main] *)

(** The three sources under [DATASET_DIR]; [None] is a missing file. *)
Record dataset : Type := Dataset {
  reviews_file : option (list line);
  genres_file : option (list line);
  books_file : option (list line)
}.

(** What a run leaves behind: the printed lines and the data rows of the
    three CSV files ([None]: the file was not written). *)
Record run : Type := Run {
  log : list msg;
  reviews_csv : option (list review_row);
  books_csv : option (list book_row);
  genres_csv : option (list genre_row)
}.

Definition main (fs : dataset) : pyres run :=
  rr ← process_reviews (reviews_file fs);
  let st := rr_state rr in
  let kept_books := kept_books_old st ∩ dom (book_id_map st) in
  let '(genres_dict, log_load) := load_genres (genres_file fs) in
  let '(books, _, log_books) :=
    process_books (books_file fs) kept_books (book_id_map st) genres_dict in
  let '(genres, log_genres) :=
    process_genres (genres_file fs) kept_books (book_id_map st) in
  Ok {| log := [MsgStart] ++ rr_log rr ++ log_load ++ log_books
               ++ log_genres ++ [MsgComplete];
        reviews_csv := rr_csv rr;
        books_csv := books;
        genres_csv := genres |}.

End ExtractFiles.


(** ** Loops that stop at a record limit

    The capped passes of [the_better_extract_files.py] share one shape:
<<
    for source in sources:
        for item in source:
            ... continue            # item rejected
            writer.writerow(row); total_count += 1
            if total_count >= CAP: break
        print(...)
        if total_count >= CAP: break
>>
    [emit item] is the loop body up to the row it writes ([None] for
    [continue]); the loops thread the rows written and [total_count]. *)
Section capped.
Context {I R : Type} (cap : Z) (emit : I → pyres (option R)).

Fixpoint capped_loop (rows : list R) (total_count : Z) (items : list I)
  : pyres (list R * Z) :=
  match items with
  | [] => Ok (rows, total_count)
  | item :: items' =>
      o ← emit item;
      match o with
      | None => capped_loop rows total_count items'
      | Some row =>
          let total_count' := total_count + 1 in
          if cap <=? total_count' then Ok (rows ++ [row], total_count')
          else capped_loop (rows ++ [row]) total_count' items'
      end
  end.

(** The third component counts the sources that were read to their end or
    to the [break], one message being printed for each. *)
Fixpoint capped_sources (rows : list R) (total_count : Z) (done : nat)
  (sources : list (list I)) : pyres (list R * Z * nat) :=
  match sources with
  | [] => Ok (rows, total_count, done)
  | items :: sources' =>
      '(rows', total_count') ← capped_loop rows total_count items;
      if cap <=? total_count' then Ok (rows', total_count', S done)
      else capped_sources rows' total_count' (S done) sources'
  end.
End capped.

(** ** [the_better_extract_files.py] *)
Module BetterExtract.

Definition MAX_BOOKS : Z := 400000.
Definition MAX_AUTHORS : Z := 200000.
Definition MAX_REVIEWS : Z := 2000000.
Definition MAX_INTERACTIONS : Z := 4000000.

Inductive msg : Type :=
  | MsgAuthorsNotFound
  | MsgProcessedAuthors (n : Z)
  | MsgNoReviewFiles
  | MsgFinishedReviews
  | MsgProcessedReviews (total_count : Z)
  | MsgProcessedInteractionsFrom
  | MsgProcessedInteractions (total_count : Z).

(** *** [process_authors] *)

(** [needle in haystack] on two strings: substring search. *)
Fixpoint is_substring (needle haystack : string) : bool :=
  String.prefix needle haystack
  || match haystack with
     | EmptyString => false
     | String _ rest => is_substring needle rest
     end.

(** [x in container]: defined when both are strings; a string container
    with another left operand, and a container that is no string, raise
    [TypeError]. *)
Definition py_in (x container : jval) : pyres bool :=
  match container, x with
  | JStr s, JStr b => Ok (is_substring b s)
  | _, _ => Raise TypeError
  end.

(** A value of [seen_authors], later a row of [authors.csv]. *)
Record author_row : Type := AuthorRow {
  author_id : jval;
  name : jval;
  role : jval;
  books : jval
}.

(** [existing["books"] += f";{book_id}"] *)
Definition append_book (existing : author_row) (book_id : jval)
  : pyres author_row :=
  match books existing with
  | JStr s =>
      Ok {| author_id := author_id existing; name := name existing;
            role := role existing;
            books := JStr (s +:+ (";" +:+ py_str book_id)) |}
  | _ => Raise TypeError
  end.

Fixpoint authors_loop (seen_authors : list (jval * author_row)) (count : Z)
  (lines : list line) : pyres (list (jval * author_row)) :=
  match lines with
  | [] => Ok seen_authors
  | None :: lines' => authors_loop seen_authors count lines'
  | Some record :: lines' =>
      let a_id := py_get record "author_id" (JStr "") in
      if negb (truthy a_id) then authors_loop seen_authors count lines'
      else match dict_lookup a_id seen_authors with
           | None =>
               let seen' :=
                 dict_set a_id
                   {| author_id := a_id;
                      name := py_get record "name" (JStr "");
                      role := py_get record "role" (JStr "");
                      books := py_get record "book_id" (JStr "") |}
                   seen_authors in
               let count' := count + 1 in
               if MAX_AUTHORS <=? count' then Ok seen'
               else authors_loop seen' count' lines'
           | Some existing =>
               let book_id := py_get record "book_id" (JStr "") in
               if truthy book_id then
                 present ← py_in book_id (books existing);
                 if (present : bool) then authors_loop seen_authors count lines'
                 else
                   existing' ← append_book existing book_id;
                   authors_loop (dict_set a_id existing' seen_authors)
                                count lines'
               else authors_loop seen_authors count lines'
           end
  end.

(** [authors_file] is the first [*book_authors*.json.gz] of the dataset
    directory, [None] when there is none.  Returns the data rows of
    [authors.csv] and what was printed. *)
Definition process_authors (authors_file : option (list line))
  : pyres (option (list author_row) * list msg) :=
  match authors_file with
  | None => Ok (None, [MsgAuthorsNotFound])
  | Some lines =>
      seen_authors ← authors_loop [] 0 lines;
      Ok (Some (map snd seen_authors),
          [MsgProcessedAuthors (Z.of_nat (length seen_authors))])
  end.

(** *** [process_reviews] *)

Record review_row : Type := ReviewRow {
  review_id : jval;
  user_id : jval;
  book_id : jval;
  rating : jval;
  review_text : string;
  date_added : jval;
  date_updated : jval;
  read_at : jval;
  started_at : jval;
  n_votes : jval;
  n_comments : jval
}.

Definition review_emit (ln : line) : pyres (option review_row) :=
  match ln with
  | None => Ok None
  | Some record =>
      let rating_v := py_get record "rating" (JInt 0) in
      if py_eq0 rating_v then Ok None
      else
        text ← safe_truncate (py_get record "review_text" (JStr "")) 1500;
        Ok (Some {| review_id := py_get record "review_id" (JStr "");
                    user_id := py_get record "user_id" (JStr "");
                    book_id := py_get record "book_id" (JStr "");
                    rating := rating_v;
                    review_text := text;
                    date_added := py_get record "date_added" (JStr "");
                    date_updated := py_get record "date_updated" (JStr "");
                    read_at := py_get record "read_at" (JStr "");
                    started_at := py_get record "started_at" (JStr "");
                    n_votes := py_get record "n_votes" (JStr "");
                    n_comments := py_get record "n_comments" (JStr "") |})
  end.

(** [review_files] are the [*review*.json.gz] files of the dataset
    directory, in [os.listdir] order. *)
Definition process_reviews (review_files : list (list line))
  : pyres (option (list review_row) * list msg) :=
  match review_files with
  | [] => Ok (None, [MsgNoReviewFiles])
  | _ =>
      '(rows, total_count, done) ←
        capped_sources MAX_REVIEWS review_emit [] 0 0%nat review_files;
      Ok (Some rows,
          replicate done MsgFinishedReviews ++ [MsgProcessedReviews total_count])
  end.

(** *** [process_interactions] *)

Record interaction_row : Type := InteractionRow {
  i_user_id : jval;
  i_book_id : jval;
  i_rating : jval;
  i_is_read : jval;
  i_is_reviewed : jval;
  i_date_added : jval;
  i_date_updated : jval;
  i_read_at : jval;
  i_started_at : jval
}.

(** What [writer.writerow] received: a CSV row passed through, or a row
    built from a JSON record. *)
Inductive written_row : Type :=
  | FromCsv (row : csv_row)
  | FromJson (row : interaction_row).

Definition interaction_fieldnames : gset string :=
  list_to_set [ "user_id"; "book_id"; "rating"; "is_read"; "is_reviewed";
                "date_added"; "date_updated"; "read_at"; "started_at" ].

Section interactions.
(** The builtin [float] on a string ([None]: it raises [ValueError]) and
    the comparison of its result with [0]. *)
Context {F : Type} (py_float : string → option F) (float_eq0 : F → bool).

(** [rating = float(row.get("rating", 0))] with [ValueError] caught and
    replaced by [0], then [rating == 0]. *)
Definition csv_rating_is_zero (row : csv_row) : pyres bool :=
  match row !! "rating" with
  | None => Ok true
  | Some None => Raise TypeError
  | Some (Some s) =>
      match py_float s with
      | None => Ok true
      | Some f => Ok (float_eq0 f)
      end
  end.

(** [DictWriter.writerow] refuses a row with a key outside its field names. *)
Definition csv_emit (row : csv_row) : pyres (option written_row) :=
  zero ← csv_rating_is_zero row;
  if (zero : bool) then Ok None
  else if decide (dom row ⊆ interaction_fieldnames) then Ok (Some (FromCsv row))
  else Raise ValueError.

Definition json_emit (ln : line) : pyres (option written_row) :=
  match ln with
  | None => Ok None
  | Some record =>
      if py_eq0 (py_get record "rating" (JInt 0)) then Ok None
      else Ok (Some (FromJson
        {| i_user_id := py_get record "user_id" (JStr "");
           i_book_id := py_get record "book_id" (JStr "");
           i_rating := py_get record "rating" (JStr "");
           i_is_read := py_get record "is_read" (JStr "");
           i_is_reviewed := py_get record "is_reviewed" (JStr "");
           i_date_added := py_get record "date_added" (JStr "");
           i_date_updated := py_get record "date_updated" (JStr "");
           i_read_at := py_get record "read_at" (JStr "");
           i_started_at := py_get record "started_at" (JStr "") |}))
  end.

(** [csv_files] and [json_files] are the [*interaction*.csv] and
    [*interaction*.json.gz] files of the dataset directory. *)
Definition process_interactions (csv_files : list (list csv_row))
  (json_files : list (list line)) : pyres (list written_row * list msg) :=
  '(rows1, total1, done1) ←
    capped_sources MAX_INTERACTIONS csv_emit [] 0 0%nat csv_files;
  '(rows2, total2, done2) ←
    (if total1 <? MAX_INTERACTIONS
     then capped_sources MAX_INTERACTIONS json_emit rows1 total1 0%nat json_files
     else Ok (rows1, total1, 0%nat));
  Ok (rows2,
      replicate (done1 + done2) MsgProcessedInteractionsFrom
      ++ [MsgProcessedInteractions total2]).
End interactions.

End BetterExtract.


(** ** [Extra_formattingcode.py] *)
Module ExtraFormatting.

(** The literal [3_000_000] of steps 2 and 4. *)
Definition BUDGET : Z := 3000000.

(** [Series.cumsum()] *)
Fixpoint cumsum_from (acc : Z) (l : list Z) : list Z :=
  match l with
  | [] => []
  | x :: l' => (acc + x) :: cumsum_from (acc + x) l'
  end.

Definition cumsum (l : list Z) : list Z := cumsum_from 0 l.

(** [Series.value_counts()]: one entry per distinct value with the number
    of its occurrences, by descending count. *)
Definition count_value (counts : list (Z * Z)) (u : Z) : list (Z * Z) :=
  dict_set u (dict_get u 0 counts + 1) counts.

Definition value_counts (column : list Z) : list (Z * Z) :=
  sorted_desc (fold_left count_value column []).

(** [cumulative_sum[cumulative_sum <= budget].index]: the index labels of
    the entries whose running total passes the mask. *)
Definition top_user_ids (budget : Z) (user_counts : list (Z * Z)) : list Z :=
  let cumulative_sum :=
    zip (map fst user_counts) (cumsum (map snd user_counts)) in
  map fst (filter (λ p, p.2 ≤ budget) cumulative_sum).

Section script.
(** The rows of [filtered_df] (step 1 is done), their [user_id] column,
    and [DataFrame.sample(n, random_state=42)]. *)
Context {Row : Type} (user_id : Row → Z) (sample : Z → list Row → list Row).

(** Steps 2 to 4, for a budget. *)
Definition sampled_interactions_df (budget : Z) (filtered_df : list Row)
  : list Row :=
  let user_counts := value_counts (map user_id filtered_df) in
  let top := top_user_ids budget user_counts in
  let sampled := filter (λ r, user_id r ∈ top) filtered_df in
  if budget <? Z.of_nat (length sampled) then sample budget sampled
  else sampled.

(** The script: the rows exported to [sampled_interactions_df.csv]. *)
Definition script (filtered_df : list Row) : list Row :=
  sampled_interactions_df BUDGET filtered_df.
End script.

End ExtraFormatting.

(** ** [sample.py] *)
Module Sample.

Inductive table : Type := Interactions | Books | Authors | Users | Reviews.

Inductive msg : Type :=
  | MsgReviewsMissing
  | MsgFound (n_users n_books : Z)
  | MsgSkipping (t : table)
  | MsgFiltered (t : table) (count_in count_out : Z)
  | MsgDone.

(** [s.split(sep)] for a one-character separator. *)
Fixpoint split_on (sep : ascii) (s : string) : list string :=
  match s with
  | EmptyString => [EmptyString]
  | String c s' =>
      if Ascii.eqb c sep then EmptyString :: split_on sep s'
      else match split_on sep s' with
           | [] => [String c EmptyString]
           | w :: ws => String c w :: ws
           end
  end.

Section sample.
(** [str.strip()] *)
Context (strip : string → string).

(** [row.get(k, '').strip()]; a missing cell is [None], which has no
    [strip]. *)
Definition cell (row : csv_row) (k : string) : pyres string :=
  match row !! k with
  | None => Ok (strip "")
  | Some (Some s) => Ok (strip s)
  | Some None => Raise AttributeError
  end.

(** The first loop of [main]: the identifiers that occur in [reviews.csv]. *)
Fixpoint collect_kept (kept_users kept_books : gset string)
  (rows : list csv_row) : pyres (gset string * gset string) :=
  match rows with
  | [] => Ok (kept_users, kept_books)
  | row :: rows' =>
      u ← cell row "user_id";
      b ← cell row "book_id";
      collect_kept
        (if String.eqb u "" then kept_users else kept_users ∪ {[u]})
        (if String.eqb b "" then kept_books else kept_books ∪ {[b]})
        rows'
  end.

(** The body shared by the filters: read every row, write those that
    [keep] returns. *)
Fixpoint filter_rows (keep : csv_row → pyres (option csv_row))
  (rows : list csv_row) : pyres (list csv_row) :=
  match rows with
  | [] => Ok []
  | row :: rows' =>
      o ← keep row;
      out ← filter_rows keep rows';
      Ok (match o with Some r => r :: out | None => out end)
  end.

(** A filter on a table that may be missing.  The rows are those that
    [csv.DictReader] yields for a file with a header and no row longer
    than the header; on other files [csv.DictWriter] raises ([writeheader]
    without field names, [writerow] with a cell outside them), which the
    rows of this model do not express. *)
Definition filter_table (t : table) (keep : csv_row → pyres (option csv_row))
  (input_csv : option (list csv_row))
  : pyres (option (list csv_row) * list msg) :=
  match input_csv with
  | None => Ok (None, [MsgSkipping t])
  | Some rows =>
      out ← filter_rows keep rows;
      Ok (Some out,
          [MsgFiltered t (Z.of_nat (length rows)) (Z.of_nat (length out))])
  end.

Definition keep_user_and_book (kept_users kept_books : gset string)
  (row : csv_row) : pyres (option csv_row) :=
  u ← cell row "user_id";
  b ← cell row "book_id";
  Ok (if decide (u ∈ kept_users ∧ b ∈ kept_books) then Some row else None).

Definition filter_interactions (input_csv : option (list csv_row))
  (kept_users kept_books : gset string) :=
  filter_table Interactions (keep_user_and_book kept_users kept_books) input_csv.

Definition filter_books (input_csv : option (list csv_row))
  (kept_books : gset string) :=
  filter_table Books
    (λ row, b ← cell row "book_id";
            Ok (if decide (b ∈ kept_books) then Some row else None))
    input_csv.

Definition filter_authors (input_csv : option (list csv_row))
  (kept_books : gset string) :=
  filter_table Authors
    (λ row,
       old_books_str ← cell row "books";
       if String.eqb old_books_str "" then Ok None
       else
         let old_books_list := split_on ";" old_books_str in
         let filtered_list :=
           filter (λ b, strip b ∈ kept_books) old_books_list in
         match filtered_list with
         | [] => Ok None
         | _ => Ok (Some (<["books" := Some (String.concat ";" filtered_list)]> row))
         end)
    input_csv.

Definition filter_users (input_csv : option (list csv_row))
  (kept_users : gset string) :=
  filter_table Users
    (λ row, u ← cell row "user_id";
            Ok (if decide (u ∈ kept_users) then Some row else None))
    input_csv.

Definition filter_reviews (input_csv : option (list csv_row))
  (kept_users kept_books : gset string) :=
  filter_table Reviews (keep_user_and_book kept_users kept_books) input_csv.

(** The five tables under [DATASET_DIR]; [None] is a missing file. *)
Record tables : Type := Tables {
  interactions_csv : option (list csv_row);
  books_csv : option (list csv_row);
  authors_csv : option (list csv_row);
  users_csv : option (list csv_row);
  reviews_csv : option (list csv_row)
}.

(** What a run prints and the tables it writes under [OUTPUT_DIR]. *)
Record run : Type := Run {
  log : list msg;
  output : tables
}.

Definition main (fs : tables) : pyres run :=
  match reviews_csv fs with
  | None =>
      Ok {| log := [MsgReviewsMissing];
            output := {| interactions_csv := None; books_csv := None;
                         authors_csv := None; users_csv := None;
                         reviews_csv := None |} |}
  | Some rows =>
      '(kept_users, kept_books) ← collect_kept ∅ ∅ rows;
      '(out_i, log_i) ←
        filter_interactions (interactions_csv fs) kept_users kept_books;
      '(out_b, log_b) ← filter_books (books_csv fs) kept_books;
      '(out_a, log_a) ← filter_authors (authors_csv fs) kept_books;
      '(out_u, log_u) ← filter_users (users_csv fs) kept_users;
      '(out_r, log_r) ←
        filter_reviews (reviews_csv fs) kept_users kept_books;
      Ok {| log := [MsgFound (Z.of_nat (size kept_users))
                             (Z.of_nat (size kept_books))]
                   ++ log_i ++ log_b ++ log_a ++ log_u ++ log_r ++ [MsgDone];
            output := {| interactions_csv := out_i; books_csv := out_b;
                         authors_csv := out_a; users_csv := out_u;
                         reviews_csv := out_r |} |}
  end.
End sample.

End Sample.

(** * Vocabulary of the statements *)

(** ** Runs of the identifier remapper

    The calls [get_mapped(old_id)] for the identifiers [ids], in order,
    from a map and its counter: the map and counter they leave and the
    integer each call returned. *)
Fixpoint remap_calls (id_map : gmap jval Z) (next_id : Z) (ids : list jval)
  : gmap jval Z * Z * list Z :=
  match ids with
  | [] => (id_map, next_id, [])
  | old_id :: ids' =>
      let '(m1, n1, new_id) := ExtractFiles.get_mapped id_map next_id old_id in
      let '(m2, n2, outs) := remap_calls m1 n1 ids' in
      (m2, n2, new_id :: outs)
  end.

(** The same from the state in which pass 2 starts: empty map, counter 1. *)
Definition remap_map (ids : list jval) : gmap jval Z :=
  (remap_calls ∅ 1 ids).1.1.
Definition remap_next (ids : list jval) : Z :=
  (remap_calls ∅ 1 ids).1.2.
Definition remap_results (ids : list jval) : list Z :=
  (remap_calls ∅ 1 ids).2.

(** A map and its counter as the remapper keeps them: the values are
    exactly the integers from 1 up to the counter, each used once. *)
Definition remap_inv (m : gmap jval Z) (n : Z) : Prop :=
  n = Z.of_nat (size m) + 1 ∧
  (∀ k v, m !! k = Some v → 1 ≤ v < n) ∧
  (∀ k1 k2 v, m !! k1 = Some v → m !! k2 = Some v → k1 = k2) ∧
  (∀ v, 1 ≤ v < n → ∃ k, m !! k = Some v).

(** The two entity classes that pass 2 remaps, the map and the counter
    that the state of the pass holds for a class, and the closure that
    serves it. *)
Inductive id_class : Type := UserIds | BookIds.

#[global] Instance id_class_eq_dec : EqDecision id_class.
Proof. solve_decision. Defined.

Definition class_map (c : id_class) (st : ExtractFiles.state) : gmap jval Z :=
  match c with
  | UserIds => ExtractFiles.user_id_map st
  | BookIds => ExtractFiles.book_id_map st
  end.

Definition class_next (c : id_class) (st : ExtractFiles.state) : Z :=
  match c with
  | UserIds => ExtractFiles.next_user_id st
  | BookIds => ExtractFiles.next_book_id st
  end.

Definition closure (c : id_class)
  : ExtractFiles.state → jval → ExtractFiles.state * Z :=
  match c with
  | UserIds => ExtractFiles.get_mapped_user_id
  | BookIds => ExtractFiles.get_mapped_book_id
  end.

(** A run of calls of the two closures, in any order, from the state
    [st]: the state they leave and the integer each call returned. *)
Fixpoint closure_calls (st : ExtractFiles.state)
  (reqs : list (id_class * jval)) : ExtractFiles.state * list Z :=
  match reqs with
  | [] => (st, [])
  | (c, old_id) :: reqs' =>
      let '(st1, new_id) := closure c st old_id in
      let '(st2, outs) := closure_calls st1 reqs' in
      (st2, new_id :: outs)
  end.

(** The same from the state in which pass 2 starts. *)
Definition calls_state (reqs : list (id_class * jval)) : ExtractFiles.state :=
  (closure_calls ExtractFiles.init_state reqs).1.
Definition calls_results (reqs : list (id_class * jval)) : list Z :=
  (closure_calls ExtractFiles.init_state reqs).2.

(** The original identifiers of class [c] among the calls, in order. *)
Definition requested (c : id_class) (reqs : list (id_class * jval))
  : list jval :=
  omap (λ q : id_class * jval, if decide (q.1 = c) then Some q.2 else None)
       reqs.

(** ** Counting and ranking

    [tally keys] is the dictionary a counting pass builds from the stream
    of its grouping keys: [d[k] = d.get(k, 0) + 1] for each key in turn. *)
Definition tally {K : Type} `{EqDecision K} (keys : list K) : list (K * Z) :=
  fold_left (λ d k, dict_set k (dict_get k 0 d + 1) d) keys [].

(** The number of occurrences of [k] in a stream of keys. *)
Definition occurrences {K : Type} `{EqDecision K} (k : K) (keys : list K) : Z :=
  Z.of_nat (length (filter (λ x, x = k) keys)).

(** [u] is seen for the first time before [v] is seen at all. *)
Definition seen_before {K : Type} (keys : list K) (u v : K) : Prop :=
  ∃ l1 l2, keys = l1 ++ u :: l2 ∧ u ∉ l1 ∧ v ∉ l1 ∧ u ≠ v.

(** Descending order of counts. *)
Definition desc {K : Type} (a b : K * Z) : Prop := b.2 ≤ a.2.

(** The grouping keys that pass 1 of [ExtractFiles.process_reviews] counts,
    in stream order: the truthy [user_id] of every line that parses. *)
Definition stream_users (lines : list line) : list jval :=
  omap (λ ln : line,
          match ln with
          | None => None
          | Some r =>
              let u := py_get r "user_id" (JStr "") in
              if truthy u then Some u else None
          end) lines.

(** The cumulative count of the first [j] entries of a ranking. *)
Definition prefix_total {K : Type} (ranked : list (K * Z)) (j : nat) : Z :=
  foldr Z.add 0 (map snd (take j ranked)).

(** ** Pass 2 of [ExtractFiles.process_reviews] *)

(** The [review_text] of a record is something [safe_truncate] accepts:
    absent, [null], a string, or the integer 0. *)
Definition text_field_ok (r : record) : bool :=
  match r !! "review_text" with
  | Some (JInt z) => z =? 0
  | _ => true
  end.

Definition texts_ok (lines : list line) : Prop :=
  ∀ r, Some r ∈ lines → text_field_ok r = true.

(** What pass 2 maintains, for the set [top] of selected users. *)
Definition pass2_inv (top : gset jval) (st : ExtractFiles.state) : Prop :=
  remap_inv (ExtractFiles.user_id_map st) (ExtractFiles.next_user_id st) ∧
  remap_inv (ExtractFiles.book_id_map st) (ExtractFiles.next_book_id st) ∧
  dom (ExtractFiles.user_id_map st) = ExtractFiles.kept_users_old st ∧
  dom (ExtractFiles.book_id_map st) = ExtractFiles.kept_books_old st ∧
  ExtractFiles.kept_users_old st ⊆ top ∧
  ExtractFiles.total_reviews st = Z.of_nat (length (ExtractFiles.rows st)) ∧
  (∀ row, row ∈ ExtractFiles.rows st →
     ∃ u b, ExtractFiles.user_id_map st !! u = Some (ExtractFiles.user_id row) ∧
            ExtractFiles.book_id_map st !! b = Some (ExtractFiles.book_id row)) ∧
  (∀ b v, ExtractFiles.book_id_map st !! b = Some v →
     ∃ row, row ∈ ExtractFiles.rows st ∧ ExtractFiles.book_id row = v).

(** A later state of pass 2 extends an earlier one. *)
Definition state_le (st st' : ExtractFiles.state) : Prop :=
  ExtractFiles.user_id_map st ⊆ ExtractFiles.user_id_map st' ∧
  ExtractFiles.book_id_map st ⊆ ExtractFiles.book_id_map st' ∧
  ExtractFiles.kept_users_old st ⊆ ExtractFiles.kept_users_old st' ∧
  ExtractFiles.kept_books_old st ⊆ ExtractFiles.kept_books_old st' ∧
  ExtractFiles.rows st `prefix_of` ExtractFiles.rows st'.

(** ** Sample inputs *)

(** Twenty users with one review each, all of the same book ["b"]; one
    twentieth of them, the user seen first, is selected. *)
Definition twenty_reviews : list line :=
  map (λ i : Z, Some ({[ "user_id" := JStr (pretty i);
                           "book_id" := JStr "b" ]} : record))
      (seqZ 1 20).

(** The reviews above with a books source that has no record at all. *)
Definition dataset_without_books : ExtractFiles.dataset :=
  {| ExtractFiles.reviews_file := Some twenty_reviews;
     ExtractFiles.genres_file := None;
     ExtractFiles.books_file := Some [] |}.

(** The same reviews with a books source that describes the book. *)
Definition dataset_with_book : ExtractFiles.dataset :=
  {| ExtractFiles.reviews_file := Some twenty_reviews;
     ExtractFiles.genres_file := None;
     ExtractFiles.books_file :=
       Some [Some ({[ "book_id" := JStr "b"; "title" := JStr "T" ]} : record)] |}.

(** The reviews above after one more review of the user ["1"], a record
    that has no [book_id] field. *)
Definition review_without_book : record :=
  {[ "user_id" := JStr "1"; "review_id" := JStr "r0" ]}.

Definition reviews_missing_book : list line :=
  Some review_without_book :: twenty_reviews.

(** ** Streams without their unparseable lines *)
Definition parsed_only (lines : list line) : list line :=
  filter (λ ln : line, is_Some ln) lines.

(** The number of lines of a stream on which [json.loads] raised. *)
Definition parse_failures (lines : list line) : Z :=
  Z.of_nat (length (filter (λ ln : line, ln = None) lines)).

(** A dataset directory without the reviews file; the two other sources
    are present and empty. *)
Definition dataset_without_reviews : ExtractFiles.dataset :=
  {| ExtractFiles.reviews_file := None;
     ExtractFiles.genres_file := Some [];
     ExtractFiles.books_file := Some [] |}.

(** Two raw records of the author ["a"], for the books ["123"] and ["12"]. *)
Definition author_book_123 : record :=
  {[ "author_id" := JStr "a"; "name" := JStr "N"; "book_id" := JStr "123" ]}.
Definition author_book_12 : record :=
  {[ "author_id" := JStr "a"; "name" := JStr "N"; "book_id" := JStr "12" ]}.

(** ** Vocabulary of the further properties *)

(** The records that pass 2 of [ExtractFiles.process_reviews] accepts for
    the selected users [top], in stream order. *)
Definition accepted (top : gset jval) (lines : list line) : list record :=
  omap (λ ln : line,
          match ln with
          | None => None
          | Some r =>
              if decide (py_get r "user_id" (JStr "") ∈ top) then Some r
              else None
          end) lines.

(** A row of [reviews.csv] carries the fields of the record [r] (the text
    truncated), whatever its two remapped identifiers are. *)
Definition row_matches (r : record) (row : ExtractFiles.review_row) : Prop :=
  ExtractFiles.review_id row = py_get r "review_id" (JStr "") ∧
  ExtractFiles.rating row = py_get r "rating" (JStr "") ∧
  safe_truncate (py_get r "review_text" (JStr "")) 1500
  = Ok (ExtractFiles.review_text row) ∧
  ExtractFiles.date_added row = py_get r "date_added" (JStr "") ∧
  ExtractFiles.date_updated row = py_get r "date_updated" (JStr "") ∧
  ExtractFiles.read_at row = py_get r "read_at" (JStr "") ∧
  ExtractFiles.started_at row = py_get r "started_at" (JStr "") ∧
  ExtractFiles.n_votes row = py_get r "n_votes" (JStr "") ∧
  ExtractFiles.n_comments row = py_get r "n_comments" (JStr "").

Definition user_of (r : record) : jval := py_get r "user_id" (JStr "").
Definition book_of (r : record) : jval := py_get r "book_id" (JStr "").

(** The records of the genres source that [load_genres] stores: those
    that parse and have a truthy [book_id]. *)
Definition genre_records (lines : list line) : list record :=
  omap (λ ln : line,
          match ln with
          | None => None
          | Some r => if truthy (book_of r) then Some r else None
          end) lines.

(** The records of a source whose [book_id] is in the set [kept]. *)
Definition kept_records (kept : gset jval) (lines : list line) : list record :=
  omap (λ ln : line,
          match ln with
          | None => None
          | Some r => if decide (book_of r ∈ kept) then Some r else None
          end) lines.

(** A row of [books.csv] is the row of the record [r] under the book map
    and the genre dictionary. *)
Definition book_row_of (bmap : gmap jval Z) (gd : gmap jval string)
  (r : record) (row : ExtractFiles.book_row) : Prop :=
  ExtractFiles.b_source row = r ∧
  bmap !! book_of r = Some (ExtractFiles.b_book_id row) ∧
  ExtractFiles.b_genre row = default "" (gd !! book_of r).

(** The twenty reviews with a books source and a genres source that both
    describe the reviewed book, the genres source twice. *)
Definition dataset_with_genres : ExtractFiles.dataset :=
  {| ExtractFiles.reviews_file := Some twenty_reviews;
     ExtractFiles.genres_file :=
       Some [Some ({[ "book_id" := JStr "b"; "genres" := JStr "poetry" ]} : record);
             Some ({[ "book_id" := JStr "b"; "genres" := JStr "fantasy" ]} : record)];
     ExtractFiles.books_file :=
       Some [Some ({[ "book_id" := JStr "b"; "title" := JStr "T" ]} : record)] |}.

(** What a capped pass writes for an item when its body does not raise. *)
Definition emitted {I R : Type} (emit : I → pyres (option R)) (item : I)
  : option R :=
  match emit item with
  | Ok o => o
  | Raise _ => None
  end.

(** A CSV row that [process_interactions] can pass through: all its
    columns are output columns and its rating cell is not missing. *)
Definition csv_row_ok (row : csv_row) : Prop :=
  dom row ⊆ BetterExtract.interaction_fieldnames ∧
  row !! "rating" ≠ Some None.

(** A review source of three lines: a rated review, an unrated one and a
    line that does not parse. *)
Definition three_review_lines : list line :=
  [ Some ({[ "review_id" := JStr "r1"; "rating" := JInt 5 ]} : record);
    Some ({[ "review_id" := JStr "r2"; "rating" := JInt 0 ]} : record);
    None ].

(** A toy [float]: it reads the integers ["0"] and ["5"] only. *)
Definition toy_float (s : string) : option Z :=
  if String.eqb s "5" then Some 5
  else if String.eqb s "0" then Some 0
  else None.

Definition one_interaction_row : csv_row :=
  {[ "user_id" := Some "u"; "book_id" := Some "b"; "rating" := Some "5" ]}.

(** The records of a source that carry a rating: those that parse and
    whose [rating] (0 when absent) is not [== 0]. *)
Definition rated_records (lines : list line) : list record :=
  omap (λ ln : line,
          match ln with
          | None => None
          | Some r =>
              if py_eq0 (py_get r "rating" (JInt 0)) then None else Some r
          end) lines.

(** A row of [reviews.csv] of [the_better_extract_files.py] carries the
    fields of the record [r], the text truncated. *)
Definition better_row_matches (r : record) (row : BetterExtract.review_row)
  : Prop :=
  BetterExtract.review_id row = py_get r "review_id" (JStr "") ∧
  BetterExtract.user_id row = py_get r "user_id" (JStr "") ∧
  BetterExtract.book_id row = py_get r "book_id" (JStr "") ∧
  BetterExtract.rating row = py_get r "rating" (JInt 0) ∧
  safe_truncate (py_get r "review_text" (JStr "")) 1500
  = Ok (BetterExtract.review_text row) ∧
  BetterExtract.date_added row = py_get r "date_added" (JStr "") ∧
  BetterExtract.date_updated row = py_get r "date_updated" (JStr "") ∧
  BetterExtract.read_at row = py_get r "read_at" (JStr "") ∧
  BetterExtract.started_at row = py_get r "started_at" (JStr "") ∧
  BetterExtract.n_votes row = py_get r "n_votes" (JStr "") ∧
  BetterExtract.n_comments row = py_get r "n_comments" (JStr "").

(** A CSV interaction row whose rating cell reads as a number that is
    not zero. *)
Definition csv_rated {F : Type} (py_float : string → option F)
  (float_eq0 : F → bool) (row : csv_row) : bool :=
  match row !! "rating" with
  | Some (Some s) =>
      match py_float s with
      | Some f => negb (float_eq0 f)
      | None => false
      end
  | _ => false
  end.

(** A row of [interactions.csv] stems from the source item [src]: a CSV
    row is passed through unchanged, a JSON record gives a row with its
    fields. *)
Definition written_matches (src : csv_row + record)
  (w : BetterExtract.written_row) : Prop :=
  match src, w with
  | inl row, BetterExtract.FromCsv row' => row' = row
  | inr r, BetterExtract.FromJson row =>
      BetterExtract.i_user_id row = py_get r "user_id" (JStr "") ∧
      BetterExtract.i_book_id row = py_get r "book_id" (JStr "") ∧
      BetterExtract.i_rating row = py_get r "rating" (JStr "") ∧
      BetterExtract.i_is_read row = py_get r "is_read" (JStr "") ∧
      BetterExtract.i_is_reviewed row = py_get r "is_reviewed" (JStr "") ∧
      BetterExtract.i_date_added row = py_get r "date_added" (JStr "") ∧
      BetterExtract.i_date_updated row = py_get r "date_updated" (JStr "") ∧
      BetterExtract.i_read_at row = py_get r "read_at" (JStr "") ∧
      BetterExtract.i_started_at row = py_get r "started_at" (JStr "")
  | _, _ => False
  end.

(** The source items that [process_interactions] writes when no limit
    applies: the rated rows of the CSV sources, then the rated records of
    the JSON sources. *)
Definition rated_interactions {F : Type} (py_float : string → option F)
  (float_eq0 : F → bool) (csv_files : list (list csv_row))
  (json_files : list (list line)) : list (csv_row + record) :=
  map inl (filter (λ row, csv_rated py_float float_eq0 row = true)
                  (concat csv_files))
  ++ map inr (rated_records (concat json_files)).

(** ** Authors *)

Definition author_of (r : record) : jval := py_get r "author_id" (JStr "").

(** The author identifiers that [process_authors] looks at, in stream
    order: the truthy [author_id] of every line that parses. *)
Definition author_stream (lines : list line) : list jval :=
  omap (λ ln : line,
          match ln with
          | None => None
          | Some r => if truthy (author_of r) then Some (author_of r) else None
          end) lines.

(** The [books] field [final] began as the value [first]: it is [first]
    itself, or [first] is a string and [final] a string that starts
    with it. *)
Definition books_extend (first final : jval) : Prop :=
  final = first ∨ ∃ s rest, first = JStr s ∧ final = JStr (s +:+ rest).

(** The row of the author [k] stems from the first record of [k] among
    the lines [pl]: its scalar fields are those of that record. *)
Definition first_record_wins (pl : list line) (k : jval)
  (row : BetterExtract.author_row) : Prop :=
  BetterExtract.author_id row = k ∧
  ∃ l1 r l2,
    pl = l1 ++ Some r :: l2 ∧ author_of r = k ∧
    (∀ r', Some r' ∈ l1 → author_of r' ≠ k) ∧
    BetterExtract.name row = py_get r "name" (JStr "") ∧
    BetterExtract.role row = py_get r "role" (JStr "") ∧
    books_extend (py_get r "book_id" (JStr "")) (BetterExtract.books row).

(** What the loop of [process_authors] maintains, [pl] being the lines
    read so far. *)
Definition authors_inv (pl : list line)
  (seen : list (jval * BetterExtract.author_row)) : Prop :=
  NoDup (map fst seen) ∧
  (∀ k, k ∈ map fst seen ↔ k ∈ author_stream pl) ∧
  (∀ u v, [u; v] `sublist_of` map fst seen →
          seen_before (author_stream pl) u v) ∧
  (∀ k row, (k, row) ∈ seen → first_record_wins pl k row).

(** ** [sample.py] *)

(** A table of [sample.py] whose rows have the cell [k]: reading it
    raises nothing. *)
Definition has_cell (k : string) (row : csv_row) : Prop :=
  row !! k ≠ Some None.

(** A small [reviews.csv] and [interactions.csv]. *)
Definition sample_reviews : list csv_row :=
  [ {[ "user_id" := Some "u1"; "book_id" := Some "b1" ]};
    {[ "user_id" := Some ""; "book_id" := Some "b2" ]} ].

Definition sample_interactions : list csv_row :=
  [ {[ "user_id" := Some "u1"; "book_id" := Some "b2" ]};
    {[ "user_id" := Some "u2"; "book_id" := Some "b1" ]} ].

Definition sample_tables : Sample.tables :=
  {| Sample.interactions_csv := Some sample_interactions;
     Sample.books_csv := None;
     Sample.authors_csv := None;
     Sample.users_csv := None;
     Sample.reviews_csv := Some sample_reviews |}.

(** A non-empty identifier [v] that some row of [rows] carries (stripped)
    in column [k]. *)
Definition mentions (strip : string → string) (rows : list csv_row)
  (k v : string) : Prop :=
  v ≠ "" ∧ ∃ r, r ∈ rows ∧ Sample.cell strip r k = Ok v.

(** A review row both of whose identifiers are non-empty. *)
Definition nonempty_ids (strip : string → string) (row : csv_row) : bool :=
  match Sample.cell strip row "user_id", Sample.cell strip row "book_id" with
  | Ok u, Ok b => negb (String.eqb u "") && negb (String.eqb b "")
  | _, _ => false
  end.

(** Every row of a table that is there has the cells [ks]. *)
Definition cells_ok (ks : list string) (t : option (list csv_row)) : Prop :=
  ∀ rows row, t = Some rows → row ∈ rows → Forall (λ k, has_cell k row) ks.

(** Every row of every table that is there has the cells that [sample.py]
    reads from it. *)
Definition tables_ok (ts : Sample.tables) : Prop :=
  cells_ok ["user_id"; "book_id"] (Sample.reviews_csv ts) ∧
  cells_ok ["user_id"; "book_id"] (Sample.interactions_csv ts) ∧
  cells_ok ["book_id"] (Sample.books_csv ts) ∧
  cells_ok ["books"] (Sample.authors_csv ts) ∧
  cells_ok ["user_id"] (Sample.users_csv ts).

(** A string without the separator. *)
Definition no_sep (sep : ascii) (s : string) : Prop :=
  sep ∉ list_ascii_of_string s.

(** The books of an author row that [filter_authors] keeps. *)
Definition kept_parts (strip : string → string) (kept : gset string)
  (s : string) : list string :=
  filter (λ b, strip b ∈ kept) (Sample.split_on ";" s).

(** The line that a filter of [sample.py] prints for table [t]. *)
Definition table_msg (t : Sample.table) (input output : option (list csv_row))
  : Sample.msg :=
  match input, output with
  | Some rows, Some out =>
      Sample.MsgFiltered t (Z.of_nat (length rows)) (Z.of_nat (length out))
  | _, _ => Sample.MsgSkipping t
  end.

(** An [authors.csv] with one author of two books. *)
Definition sample_authors : list csv_row :=
  [ {[ "author_id" := Some "a"; "books" := Some "b1;b9" ]} ].

(** The book identifier [b] of a record is accounted for in the [books]
    field [final] of its author: [b] is falsy (and was ignored), or
    [final] is [b] itself, or both are strings and [b] occurs in [final]
    as a piece of text. *)
Definition book_covered (b final : jval) : Prop :=
  truthy b = false ∨ final = b ∨
  ∃ s t, b = JStr s ∧ final = JStr t ∧ BetterExtract.is_substring s t = true.

(** What the loop of [process_authors] maintains about the books of the
    lines [pl] read so far. *)
Definition covered (pl : list line)
  (seen : list (jval * BetterExtract.author_row)) : Prop :=
  (∀ k row, dict_lookup k seen = Some row → BetterExtract.author_id row = k) ∧
  ∀ r, Some r ∈ pl → truthy (author_of r) = true →
    ∃ row, dict_lookup (author_of r) seen = Some row ∧
           book_covered (py_get r "book_id" (JStr "")) (BetterExtract.books row).

(** * Properties *)

(** ** Text truncation *)

Lemma length_append (s1 s2 : string) :
  String.length (s1 +:+ s2) = (String.length s1 + String.length s2)%nat.
Proof. induction s1 as [|c s1 IH]; simpl; [reflexivity | now rewrite IH]. Qed.

Lemma take_chars_length (n : nat) (s : string) :
  (n ≤ String.length s)%nat → String.length (take_chars n s) = n.
Proof.
  revert s; induction n as [|n IH]; intros [|c s] Hn; simpl in *;
    try reflexivity; try lia.
  rewrite IH; [reflexivity | lia].
Qed.

Lemma take_chars_prefix (n : nat) (s : string) :
  ∃ rest, s = take_chars n s +:+ rest.
Proof.
  revert s; induction n as [|n IH]; intros s.
  - exists s; reflexivity.
  - destruct s as [|c s]; [exists EmptyString; reflexivity|].
    destruct (IH s) as [rest Hrest]. exists rest.
    change (String c s = String c (take_chars n s +:+ rest)). now f_equal.
Qed.

Lemma truthy_str (s : string) : truthy (JStr s) = false ↔ s = "".
Proof.
  simpl. destruct (String.eqb_spec s ""); simpl; split; congruence.
Qed.

(** C8.  For a non-negative [max_length], [safe_truncate] returns a string
    of length at most [max_length] unchanged, and turns a longer one into
    its first [max_length] characters followed by the three-character
    marker, so that the result has length [max_length + 3] whatever the
    length of the input. *)
Theorem safe_truncate_spec (s : string) (max_length : Z) :
  0 ≤ max_length →
  (py_len s ≤ max_length → safe_truncate (JStr s) max_length = Ok s) ∧
  (max_length < py_len s →
   ∃ pre rest,
     s = pre +:+ rest ∧ py_len pre = max_length ∧
     safe_truncate (JStr s) max_length = Ok (pre +:+ "...") ∧
     py_len (pre +:+ "...") = max_length + 3).
Proof.
  intros Hmax. unfold safe_truncate. split.
  - intros Hle. destruct (truthy (JStr s)) eqn:Ht; simpl.
    + apply Z.leb_le in Hle. now rewrite Hle.
    + apply truthy_str in Ht. now subst.
  - intros Hlt.
    assert (Ht : truthy (JStr s) = true).
    { destruct (truthy (JStr s)) eqn:Ht; [reflexivity|].
      apply truthy_str in Ht. subst. unfold py_len in Hlt. simpl in Hlt. lia. }
    rewrite Ht; simpl.
    assert (Hleb : (py_len s <=? max_length) = false) by (apply Z.leb_gt; lia).
    rewrite Hleb. unfold slice_to.
    assert (Hge : (0 <=? max_length) = true) by (apply Z.leb_le; lia).
    rewrite Hge.
    destruct (take_chars_prefix (Z.to_nat max_length) s) as [rest Hrest].
    assert (Hlen : py_len (take_chars (Z.to_nat max_length) s) = max_length).
    { unfold py_len in *. rewrite take_chars_length; lia. }
    exists (take_chars (Z.to_nat max_length) s), rest.
    repeat split; try assumption.
    unfold py_len in *. rewrite length_append. simpl. lia.
Qed.

Lemma safe_truncate_spec_witness :
  safe_truncate (JStr "abc") 5 = Ok "abc" ∧
  ∃ pre rest,
    "abcdefgh" = pre +:+ rest ∧ py_len pre = 5 ∧
    safe_truncate (JStr "abcdefgh") 5 = Ok (pre +:+ "...") ∧
    py_len (pre +:+ "...") = 5 + 3.
Proof.
  split.
  - apply (safe_truncate_spec "abc" 5); [lia | vm_compute; discriminate].
  - apply (safe_truncate_spec "abcdefgh" 5); [lia | reflexivity].
Defined.

(** ** The identifier remapper *)

Lemma remap_inv_init : remap_inv ∅ 1.
Proof.
  repeat split; try (intros; simplify_map_eq; fail); lia.
Qed.

Lemma get_mapped_hit (m : gmap jval Z) (n : Z) (k : jval) (v : Z) :
  m !! k = Some v → ExtractFiles.get_mapped m n k = (m, n, v).
Proof. intros H. unfold ExtractFiles.get_mapped. now rewrite H. Qed.

Lemma get_mapped_miss (m : gmap jval Z) (n : Z) (k : jval) :
  m !! k = None → ExtractFiles.get_mapped m n k = (<[k := n]> m, n + 1, n).
Proof. intros H. unfold ExtractFiles.get_mapped. now rewrite H. Qed.

Lemma get_mapped_step (m m' : gmap jval Z) (n n' v : Z) (k : jval) :
  remap_inv m n →
  ExtractFiles.get_mapped m n k = (m', n', v) →
  remap_inv m' n' ∧ m ⊆ m' ∧ m' !! k = Some v ∧
  dom m' = dom m ∪ {[k]} ∧ (m !! k = None → v = n).
Proof.
  intros Hinv Hget.
  destruct (m !! k) as [w|] eqn:Hk.
  - rewrite (get_mapped_hit _ _ _ _ Hk) in Hget.
    injection Hget as <- <- <-.
    split_and!; try done.
    apply elem_of_dom_2 in Hk. set_solver.
  - rewrite (get_mapped_miss _ _ _ Hk) in Hget.
    injection Hget as <- <- <-.
    destruct Hinv as (Hn & Hrange & Hinj & Hsurj).
    split_and!; try done.
    + unfold remap_inv. split_and!.
      * rewrite map_size_insert_None by assumption. lia.
      * intros k0 v H.
        destruct (decide (k = k0)) as [<-|Hne]; simplify_map_eq; [lia|].
        apply Hrange in H. lia.
      * intros k1 k2 v H1 H2.
        destruct (decide (k = k1)) as [<-|Hne1];
          destruct (decide (k = k2)) as [<-|Hne2]; simplify_map_eq;
          try reflexivity.
        -- apply Hrange in H2. lia.
        -- apply Hrange in H1. lia.
        -- now apply (Hinj k1 k2 v).
      * intros v Hv. destruct (decide (v = n)) as [->|Hne].
        -- exists k. now simplify_map_eq.
        -- destruct (Hsurj v) as [k' Hk']; [lia|].
           exists k'. destruct (decide (k = k')) as [<-|]; simplify_map_eq.
           reflexivity.
    + now apply insert_subseteq.
    + now simplify_map_eq.
    + rewrite dom_insert_L. set_solver.
Qed.

Lemma remap_calls_app (m : gmap jval Z) (n : Z) (l1 l2 : list jval) :
  remap_calls m n (l1 ++ l2) =
  (let '(m1, n1, o1) := remap_calls m n l1 in
   let '(m2, n2, o2) := remap_calls m1 n1 l2 in
   (m2, n2, o1 ++ o2)).
Proof.
  revert m n; induction l1 as [|k l1 IH]; intros m n; simpl.
  - now destruct (remap_calls m n l2) as [[m2 n2] o2].
  - destruct (ExtractFiles.get_mapped m n k) as [[m1 n1] v].
    rewrite IH.
    destruct (remap_calls m1 n1 l1) as [[m1' n1'] o1].
    now destruct (remap_calls m1' n1' l2) as [[m2 n2] o2].
Qed.

Lemma remap_calls_spec (m : gmap jval Z) (n : Z) (ids : list jval) :
  remap_inv m n →
  ∀ m' n' outs, remap_calls m n ids = (m', n', outs) →
  remap_inv m' n' ∧ m ⊆ m' ∧
  dom m' = dom m ∪ list_to_set ids ∧
  length outs = length ids ∧
  (∀ i k, ids !! i = Some k → outs !! i = m' !! k).
Proof.
  revert m n; induction ids as [|k ids IH]; intros m n Hinv m' n' outs; simpl.
  - intros [= <- <- <-]. split_and!; try done. set_solver.
  - destruct (ExtractFiles.get_mapped m n k) as [[m1 n1] v] eqn:Hget.
    destruct (remap_calls m1 n1 ids) as [[m2 n2] o2] eqn:Hrest.
    intros [= <- <- <-].
    destruct (get_mapped_step _ _ _ _ _ _ Hinv Hget)
      as (Hinv1 & Hsub1 & Hk1 & Hdom1 & _).
    destruct (IH _ _ Hinv1 _ _ _ Hrest) as (Hinv2 & Hsub2 & Hdom2 & Hlen & Hout).
    split_and!; try done.
    + now transitivity m1.
    + rewrite Hdom2, Hdom1. set_solver.
    + simpl. now rewrite Hlen.
    + intros [|i] k' Hi; simpl in *.
      * injection Hi as <-. symmetry.
        now apply (lookup_weaken m1 m2).
      * now apply Hout.
Qed.

Lemma remap_map_spec (ids : list jval) :
  remap_inv (remap_map ids) (remap_next ids) ∧
  dom (remap_map ids) = list_to_set ids ∧
  length (remap_results ids) = length ids ∧
  (∀ i k, ids !! i = Some k → remap_results ids !! i = remap_map ids !! k).
Proof.
  unfold remap_map, remap_next, remap_results.
  destruct (remap_calls ∅ 1 ids) as [[m n] outs] eqn:Hrun.
  destruct (remap_calls_spec _ _ _ remap_inv_init _ _ _ Hrun)
    as (Hinv & _ & Hdom & Hlen & Hout).
  simpl. split_and!; try done. rewrite Hdom. set_solver.
Qed.

Lemma remap_map_app (ids ids' : list jval) :
  remap_map ids ⊆ remap_map (ids ++ ids').
Proof.
  unfold remap_map. rewrite remap_calls_app.
  destruct (remap_calls ∅ 1 ids) as [[m n] outs] eqn:Hrun.
  destruct (remap_calls m n ids') as [[m2 n2] o2] eqn:Hrun2.
  destruct (remap_calls_spec _ _ _ remap_inv_init _ _ _ Hrun) as (Hinv & _).
  destruct (remap_calls_spec _ _ _ Hinv _ _ _ Hrun2) as (_ & Hsub & _).
  exact Hsub.
Qed.

Lemma size_list_to_set_remove_dups (ids : list jval) :
  size (list_to_set ids : gset jval) = length (remove_dups ids).
Proof.
  assert (Heq : (list_to_set ids : gset jval) = list_to_set (remove_dups ids)).
  { apply set_eq. intros x.
    rewrite !elem_of_list_to_set, elem_of_remove_dups. reflexivity. }
  rewrite Heq. apply size_list_to_set, NoDup_remove_dups.
Qed.

Section remapper_closures.
Import ExtractFiles.

Lemma requested_cons (c c' : id_class) (k : jval) reqs :
  requested c ((c', k) :: reqs)
  = if decide (c' = c) then k :: requested c reqs else requested c reqs.
Proof.
  unfold requested.
  change (omap ?f ((c', k) :: reqs))
    with (match f (c', k) with
          | Some y => y :: omap f reqs
          | None => omap f reqs
          end).
  cbn [fst snd]. now destruct (decide (c' = c)).
Qed.

Lemma requested_app (c : id_class) (l1 l2 : list (id_class * jval)) :
  requested c (l1 ++ l2) = requested c l1 ++ requested c l2.
Proof. apply omap_app. Qed.

(** A closure is [get_mapped] on the map and the counter of its class. *)
Lemma closure_same (c : id_class) (st : state) (k : jval) :
  get_mapped (class_map c st) (class_next c st) k
  = (class_map c (closure c st k).1, class_next c (closure c st k).1,
     (closure c st k).2).
Proof.
  destruct c; cbn [closure class_map class_next];
    unfold get_mapped_user_id, get_mapped_book_id;
    destruct (get_mapped _ _ k) as [[m n] v]; reflexivity.
Qed.

(** It leaves the other class alone. *)
Lemma closure_other (c c' : id_class) (st : state) (k : jval) :
  c ≠ c' →
  class_map c' (closure c st k).1 = class_map c' st ∧
  class_next c' (closure c st k).1 = class_next c' st.
Proof.
  intros Hne. destruct c, c'; try congruence;
    cbn [closure class_map class_next];
    unfold get_mapped_user_id, get_mapped_book_id;
    destruct (get_mapped _ _ k) as [[m n] v]; now split.
Qed.

(** It touches nothing but its map and counter. *)
Lemma closure_frame (c : id_class) (st : state) (k : jval) :
  kept_users_old (closure c st k).1 = kept_users_old st ∧
  kept_books_old (closure c st k).1 = kept_books_old st ∧
  total_reviews (closure c st k).1 = total_reviews st ∧
  rows (closure c st k).1 = rows st.
Proof.
  destruct c; cbn [closure];
    unfold get_mapped_user_id, get_mapped_book_id;
    destruct (get_mapped _ _ k) as [[m n] v]; now split_and!.
Qed.

Lemma closure_hit (c : id_class) (st : state) (k : jval) (v : Z) :
  class_map c st !! k = Some v → closure c st k = (st, v).
Proof.
  destruct c, st; cbn [closure class_map user_id_map book_id_map];
    intros Hk; unfold get_mapped_user_id, get_mapped_book_id, get_mapped;
    cbn [user_id_map book_id_map next_user_id next_book_id kept_users_old
         kept_books_old total_reviews rows];
    now rewrite Hk.
Qed.

Lemma closure_calls_app (st : state) (l1 l2 : list (id_class * jval)) :
  closure_calls st (l1 ++ l2)
  = (let '(st1, o1) := closure_calls st l1 in
     let '(st2, o2) := closure_calls st1 l2 in
     (st2, o1 ++ o2)).
Proof.
  revert st. induction l1 as [|[c k] l1 IH]; intros st; cbn [closure_calls app].
  - now destruct (closure_calls st l2).
  - destruct (closure c st k) as [st1 v]. rewrite IH.
    destruct (closure_calls st1 l1) as [st1' o1].
    now destruct (closure_calls st1' l2).
Qed.

Lemma closure_calls_length (st : state) (reqs : list (id_class * jval)) :
  length (closure_calls st reqs).2 = length reqs.
Proof.
  revert st. induction reqs as [|[c k] reqs IH]; intros st;
    cbn [closure_calls]; [reflexivity|].
  destruct (closure c st k) as [st1 v]. specialize (IH st1).
  destruct (closure_calls st1 reqs) as [st2 vs]. cbn [snd length] in *.
  now rewrite IH.
Qed.

(** What a run does to the map and the counter of a class is what
    [get_mapped] does for the identifiers of that class. *)
Lemma closure_calls_class (c : id_class) (st : state)
  (reqs : list (id_class * jval)) :
  class_map c (closure_calls st reqs).1
  = (remap_calls (class_map c st) (class_next c st) (requested c reqs)).1.1 ∧
  class_next c (closure_calls st reqs).1
  = (remap_calls (class_map c st) (class_next c st) (requested c reqs)).1.2.
Proof.
  revert st. induction reqs as [|[c' k] reqs IH]; intros st.
  - now split.
  - cbn [closure_calls]. rewrite requested_cons.
    destruct (closure c' st k) as [st1 v] eqn:Hcl.
    specialize (IH st1).
    destruct (closure_calls st1 reqs) as [st2 vs]. cbn [fst] in *.
    destruct (decide (c' = c)) as [->|Hne].
    + cbn [remap_calls]. rewrite closure_same, Hcl. cbn [fst snd].
      destruct (remap_calls _ _ (requested c reqs)) as [[m2 n2] o2].
      exact IH.
    + destruct (closure_other c' c st k Hne) as [Hm Hn].
      rewrite Hcl in Hm, Hn. cbn [fst] in Hm, Hn. now rewrite <- Hm, <- Hn.
Qed.

Lemma closure_calls_frame (st : state) (reqs : list (id_class * jval)) :
  kept_users_old (closure_calls st reqs).1 = kept_users_old st ∧
  kept_books_old (closure_calls st reqs).1 = kept_books_old st ∧
  total_reviews (closure_calls st reqs).1 = total_reviews st ∧
  rows (closure_calls st reqs).1 = rows st.
Proof.
  revert st. induction reqs as [|[c k] reqs IH]; intros st;
    [now split_and!|].
  cbn [closure_calls]. pose proof (closure_frame c st k) as Hf.
  destruct (closure c st k) as [st1 v]. specialize (IH st1).
  destruct (closure_calls st1 reqs) as [st2 vs]. cbn [fst] in *.
  destruct Hf as (F1 & F2 & F3 & F4), IH as (E1 & E2 & E3 & E4).
  split_and!; congruence.
Qed.

Lemma calls_state_class (c : id_class) (reqs : list (id_class * jval)) :
  class_map c (calls_state reqs) = remap_map (requested c reqs) ∧
  class_next c (calls_state reqs) = remap_next (requested c reqs).
Proof.
  unfold calls_state, remap_map, remap_next.
  destruct (closure_calls_class c init_state reqs) as [-> ->].
  now destruct c.
Qed.

Lemma calls_state_inv (c : id_class) (reqs : list (id_class * jval)) :
  remap_inv (class_map c (calls_state reqs)) (class_next c (calls_state reqs)) ∧
  dom (class_map c (calls_state reqs)) = list_to_set (requested c reqs).
Proof.
  destruct (calls_state_class c reqs) as [-> ->].
  destruct (remap_map_spec (requested c reqs)) as (Hinv & Hdom & _).
  now split.
Qed.

(** A run only adds to the map of a class. *)
Lemma closure_calls_grow (c : id_class) (st : state)
  (reqs : list (id_class * jval)) :
  remap_inv (class_map c st) (class_next c st) →
  class_map c st ⊆ class_map c (closure_calls st reqs).1.
Proof.
  intros Hinv. destruct (closure_calls_class c st reqs) as [-> _].
  destruct (remap_calls _ _ (requested c reqs)) as [[m n] o] eqn:Hrun.
  now destruct (remap_calls_spec _ _ _ Hinv _ _ _ Hrun) as (_ & Hsub & _).
Qed.

(** The call at position [i]: it is made in the state that the calls
    before it leave, and what it records stays. *)
Lemma call_at (reqs : list (id_class * jval)) (i : nat) (c : id_class)
  (k : jval) :
  reqs !! i = Some (c, k) →
  calls_results reqs !! i = Some (closure c (calls_state (take i reqs)) k).2 ∧
  class_map c (closure c (calls_state (take i reqs)) k).1
  ⊆ class_map c (calls_state reqs).
Proof.
  intros Hi. unfold calls_results, calls_state.
  pose proof (take_drop_middle _ _ _ Hi) as Hsplit.
  pose proof (closure_calls_length init_state (take i reqs)) as Hlen.
  pose proof (calls_state_inv c (take i reqs)) as [Hinv _].
  unfold calls_state in Hinv.
  assert (length (take i reqs) = i) as Hpre.
  { rewrite length_take. apply lookup_lt_Some in Hi. lia. }
  revert Hlen Hinv Hpre Hsplit.
  generalize (take i reqs) (drop (S i) reqs). intros pre post Hlen Hinv Hpre <-.
  rewrite closure_calls_app.
  destruct (closure_calls init_state pre) as [st1 o1].
  cbn [fst snd] in *. cbn [closure_calls].
  pose proof (closure_same c st1 k) as Hsame.
  destruct (closure c st1 k) as [st2 v]. cbn [fst snd] in *.
  destruct (get_mapped_step _ _ _ _ _ _ Hinv Hsame) as (Hinv2 & _).
  pose proof (closure_calls_grow c st2 post Hinv2) as Hgrow.
  destruct (closure_calls st2 post) as [st3 o3].
  cbn [fst snd] in *. split; [|exact Hgrow].
  assert (length o1 = i) as <- by congruence.
  now rewrite lookup_app_r, Nat.sub_diag by lia.
Qed.

(** C2.  The identifier remapper: any run [reqs] of calls of the two
    closures [get_mapped_user_id] and [get_mapped_book_id], in any order,
    from the state in which pass 2 starts (empty maps, counters 1).
    - The first call for an identifier of a class returns the number of
      distinct identifiers of that class asked for before, plus one: the
      next unused positive integer of the class, 1 for its first call.
    - Every call returns what the final map of its class records for its
      identifier, so that repeated calls agree.
    - A further call for a recorded identifier returns the recorded
      integer and changes nothing.
    - Distinct identifiers of a class get distinct integers.
    - The maps only grow.
    - The keys of the map of a class are the identifiers of that class
      asked for; after [n] distinct ones it has [n] entries whose values
      are exactly [1..n], and the counter is [n + 1].
    - The closures touch nothing but the maps and the counters. *)
Theorem remapper_spec (reqs : list (id_class * jval)) :
  (∀ i c k, reqs !! i = Some (c, k) → k ∉ requested c (take i reqs) →
     calls_results reqs !! i
     = Some (Z.of_nat (length (remove_dups (requested c (take i reqs)))) + 1)) ∧
  (∀ i c k, reqs !! i = Some (c, k) →
     calls_results reqs !! i = class_map c (calls_state reqs) !! k ∧
     is_Some (class_map c (calls_state reqs) !! k)) ∧
  (∀ c k v, class_map c (calls_state reqs) !! k = Some v →
     closure c (calls_state reqs) k = (calls_state reqs, v)) ∧
  (∀ c k1 k2 v,
     class_map c (calls_state reqs) !! k1 = Some v →
     class_map c (calls_state reqs) !! k2 = Some v → k1 = k2) ∧
  (∀ reqs' c,
     class_map c (calls_state reqs) ⊆ class_map c (calls_state (reqs ++ reqs'))) ∧
  (∀ c,
     dom (class_map c (calls_state reqs)) = list_to_set (requested c reqs) ∧
     size (class_map c (calls_state reqs))
     = length (remove_dups (requested c reqs)) ∧
     class_next c (calls_state reqs)
     = Z.of_nat (size (class_map c (calls_state reqs))) + 1 ∧
     ∀ v, (∃ k, class_map c (calls_state reqs) !! k = Some v)
          ↔ 1 ≤ v ≤ Z.of_nat (size (class_map c (calls_state reqs)))) ∧
  kept_users_old (calls_state reqs) = ∅ ∧
  kept_books_old (calls_state reqs) = ∅ ∧
  total_reviews (calls_state reqs) = 0 ∧
  rows (calls_state reqs) = [].
Proof.
  assert (Hsize : ∀ l c,
            size (class_map c (calls_state l))
            = length (remove_dups (requested c l))).
  { intros l c. destruct (calls_state_inv c l) as [_ Hdom].
    rewrite <- size_dom, Hdom. apply size_list_to_set_remove_dups. }
  split_and!.
  - intros i c k Hi Hfresh.
    destruct (call_at reqs i c k Hi) as [-> _]. f_equal.
    destruct (calls_state_inv c (take i reqs)) as [(Hn & _) Hdom].
    pose proof (closure_same c (calls_state (take i reqs)) k) as Hsame.
    rewrite get_mapped_miss in Hsame.
    + injection Hsame as _ _ <-. now rewrite Hn, Hsize.
    + apply not_elem_of_dom. rewrite Hdom.
      now rewrite elem_of_list_to_set.
  - intros i c k Hi.
    destruct (call_at reqs i c k Hi) as [-> Hsub].
    destruct (calls_state_inv c (take i reqs)) as [Hinv _].
    pose proof (closure_same c (calls_state (take i reqs)) k) as Hsame.
    destruct (get_mapped_step _ _ _ _ _ _ Hinv Hsame) as (_ & _ & Hk & _).
    rewrite (lookup_weaken _ _ _ _ Hk Hsub). split; [reflexivity | eauto].
  - intros c k v. apply closure_hit.
  - intros c. now destruct (calls_state_inv c reqs) as [(_ & _ & Hinj & _) _].
  - intros reqs' c. unfold calls_state at 2. rewrite closure_calls_app.
    destruct (calls_state_inv c reqs) as [Hinv _].
    pose proof (closure_calls_grow c (calls_state reqs) reqs' Hinv) as Hgrow.
    unfold calls_state in *.
    destruct (closure_calls init_state reqs) as [st1 o1]. cbn [fst] in *.
    now destruct (closure_calls st1 reqs') as [st2 o2].
  - intros c. destruct (calls_state_inv c reqs)
      as [(Hn & Hrange & _ & Hsurj) Hdom].
    split_and!; [exact Hdom | apply Hsize | exact Hn |].
    intros v. split.
    + intros [k Hk]. apply Hrange in Hk. lia.
    + intros Hv. apply Hsurj. lia.
  - apply (closure_calls_frame init_state reqs).
  - apply (closure_calls_frame init_state reqs).
  - apply (closure_calls_frame init_state reqs).
  - apply (closure_calls_frame init_state reqs).
Qed.

End remapper_closures.

(** ** Ordered dictionaries, counting and stable sorting *)

Section tally_facts.
Context {K : Type} `{EqDecision K}.
Implicit Types (d : list (K * Z)) (k u v : K) (keys : list K).

Lemma dict_lookup_set d k u (c : Z) :
  dict_lookup u (dict_set k c d) = if decide (k = u) then Some c else dict_lookup u d.
Proof.
  induction d as [|[k' c'] d IH]; simpl.
  - destruct (decide (k = u)); reflexivity.
  - destruct (decide (k' = k)) as [->|Hne]; simpl.
    + destruct (decide (k = u)); reflexivity.
    + destruct (decide (k' = u)) as [->|Hne'].
      * destruct (decide (k = u)); [congruence | reflexivity].
      * apply IH.
Qed.

Lemma dict_lookup_None d k : dict_lookup k d = None ↔ k ∉ map fst d.
Proof.
  induction d as [|[k' c'] d IH]; simpl.
  - split; [intros _; apply not_elem_of_nil | reflexivity].
  - rewrite not_elem_of_cons. destruct (decide (k' = k)) as [->|Hne].
    + split; [discriminate | intros [? _]; congruence].
    + rewrite IH. split; [intros ?; split; [congruence | assumption] | tauto].
Qed.

Lemma dict_lookup_Some d k (c : Z) :
  NoDup (map fst d) → (dict_lookup k d = Some c ↔ (k, c) ∈ d).
Proof.
  induction d as [|[k' c'] d IH]; simpl; intros Hnd.
  - split; [discriminate | intros Hin; inversion Hin].
  - apply NoDup_cons in Hnd as [Hk' Hnd]. rewrite elem_of_cons.
    destruct (decide (k' = k)) as [->|Hne].
    + split; [intros [= ->]; now left|].
      intros [[= ->]|Hin]; [reflexivity|].
      exfalso. apply Hk'. apply (list_elem_of_fmap_2 fst) in Hin. exact Hin.
    + rewrite (IH Hnd). split; [now right|].
      intros [[= -> ->]|Hin]; [congruence | assumption].
Qed.

Lemma dict_set_keys d k (c : Z) :
  map fst (dict_set k c d)
  = match dict_lookup k d with
    | Some _ => map fst d
    | None => map fst d ++ [k]
    end.
Proof.
  induction d as [|[k' c'] d IH]; simpl; [reflexivity|].
  destruct (decide (k' = k)) as [->|Hne]; simpl; [reflexivity|].
  rewrite IH. now destruct (dict_lookup k d).
Qed.

Lemma tally_snoc keys k :
  tally (keys ++ [k])
  = dict_set k (dict_get k 0 (tally keys) + 1) (tally keys).
Proof. unfold tally. now rewrite fold_left_app. Qed.

Lemma occurrences_snoc keys k u :
  occurrences u (keys ++ [k])
  = occurrences u keys + (if decide (k = u) then 1 else 0).
Proof.
  unfold occurrences. rewrite filter_app, length_app.
  rewrite filter_cons, filter_nil.
  destruct (decide (k = u)); simpl; lia.
Qed.

Lemma occurrences_pos keys u : u ∈ keys → 1 ≤ occurrences u keys.
Proof.
  intros Hin. unfold occurrences.
  assert (Hf : u ∈ filter (λ x, x = u) keys) by now apply list_elem_of_filter.
  destruct (filter (λ x, x = u) keys); [inversion Hf | simpl; lia].
Qed.

Lemma occurrences_zero keys u : u ∉ keys → occurrences u keys = 0.
Proof.
  intros Hnin. unfold occurrences.
  destruct (filter (λ x, x = u) keys) as [|y l] eqn:Hf; [reflexivity|].
  exfalso. assert (Hy : y ∈ filter (λ x, x = u) keys) by (rewrite Hf; left).
  apply list_elem_of_filter in Hy as [-> Hy]. contradiction.
Qed.

Lemma tally_get keys u : dict_get u 0 (tally keys) = occurrences u keys.
Proof.
  induction keys as [|k keys IH] using rev_ind; [reflexivity|].
  rewrite tally_snoc, occurrences_snoc. unfold dict_get at 1.
  rewrite dict_lookup_set. destruct (decide (k = u)) as [->|Hne]; simpl.
  - now rewrite IH.
  - fold (dict_get u 0 (tally keys)). rewrite IH. lia.
Qed.

Lemma tally_keys_elem keys u : u ∈ map fst (tally keys) ↔ u ∈ keys.
Proof.
  induction keys as [|k keys IH] using rev_ind.
  - simpl. split; intros Hin; inversion Hin.
  - rewrite tally_snoc, dict_set_keys, elem_of_app, list_elem_of_singleton.
    destruct (dict_lookup k (tally keys)) eqn:Hk.
    + rewrite IH. split; [tauto|]. intros [?| ->]; [assumption|].
      apply IH. destruct (decide (k ∈ map fst (tally keys))) as [|Hn]; [assumption|].
      apply dict_lookup_None in Hn. congruence.
    + rewrite elem_of_app, list_elem_of_singleton, IH. reflexivity.
Qed.

Lemma tally_keys_NoDup keys : NoDup (map fst (tally keys)).
Proof.
  induction keys as [|k keys IH] using rev_ind; [constructor|].
  rewrite tally_snoc, dict_set_keys.
  destruct (dict_lookup k (tally keys)) eqn:Hk; [assumption|].
  apply NoDup_app. split_and!; [assumption | | apply NoDup_singleton].
  intros x Hx ->%list_elem_of_singleton.
  apply dict_lookup_None in Hk. contradiction.
Qed.

Lemma tally_elem keys u (c : Z) :
  (u, c) ∈ tally keys ↔ u ∈ keys ∧ c = occurrences u keys.
Proof.
  rewrite <- (dict_lookup_Some _ _ _ (tally_keys_NoDup keys)).
  pose proof (tally_get keys u) as Hget. unfold dict_get in Hget.
  split.
  - intros Hl. rewrite Hl in Hget. simpl in Hget. split; [|congruence].
    apply tally_keys_elem.
    destruct (decide (u ∈ map fst (tally keys))) as [|Hn]; [assumption|].
    apply dict_lookup_None in Hn. congruence.
  - intros [Hin ->].
    destruct (dict_lookup u (tally keys)) as [c|] eqn:Hl.
    + simpl in Hget. congruence.
    + apply dict_lookup_None in Hl. apply tally_keys_elem in Hin. contradiction.
Qed.

Lemma tally_counts_pos keys : Forall (λ p, 1 ≤ p.2) (tally keys).
Proof.
  apply Forall_forall. intros [u c] [Hin ->]%tally_elem. simpl.
  now apply occurrences_pos.
Qed.

Lemma seen_before_app keys l u v :
  seen_before keys u v → seen_before (keys ++ l) u v.
Proof.
  intros (l1 & l2 & -> & H1 & H2 & H3). exists l1, (l2 ++ l).
  split_and!; try assumption. now rewrite <- app_assoc.
Qed.

(** The keys of the tally stand in order of first occurrence. *)
Lemma tally_keys_order keys u v :
  [u; v] `sublist_of` map fst (tally keys) → seen_before keys u v.
Proof.
  revert u v. induction keys as [|k keys IH] using rev_ind; intros u v.
  - simpl. intros Hs. apply sublist_length in Hs. simpl in Hs. lia.
  - rewrite tally_snoc, dict_set_keys.
    destruct (dict_lookup k (tally keys)) eqn:Hk.
    + intros Hs. now apply seen_before_app, IH.
    + intros Hs. apply sublist_app_r in Hs as (l1 & l2 & Heq & Hs1 & Hs2).
      apply dict_lookup_None in Hk. rewrite tally_keys_elem in Hk.
      apply sublist_cons_r in Hs2 as [Hs2|(l' & -> & Hs2)].
      * apply sublist_nil_r in Hs2 as ->. rewrite app_nil_r in Heq. subst l1.
        now apply seen_before_app, IH.
      * apply sublist_nil_r in Hs2 as ->.
        destruct l1 as [|a [|b l1]]; simpl in Heq; try discriminate;
          [|apply (f_equal length) in Heq; simpl in Heq;
            rewrite length_app in Heq; simpl in Heq; lia].
        injection Heq as -> ->.
        apply singleton_sublist_l in Hs1. rewrite tally_keys_elem in Hs1.
        destruct (list_elem_of_split_l _ _ Hs1) as (l1 & l2 & -> & Hnin).
        exists l1, (l2 ++ [k]). split_and!.
        -- now rewrite <- app_assoc.
        -- assumption.
        -- intros Hin. apply Hk. apply elem_of_app. now left.
        -- intros ->. contradiction.
Qed.

(** *** The stable descending sort *)

Lemma insert_desc_perm (x : K * Z) d : insert_desc x d ≡ₚ x :: d.
Proof.
  induction d as [|y d IH]; simpl; [reflexivity|].
  destruct (x.2 <? y.2); [|reflexivity].
  rewrite IH. apply Permutation_swap.
Qed.

Lemma sorted_desc_perm d : sorted_desc d ≡ₚ d.
Proof.
  induction d as [|x d IH]; simpl; [reflexivity|].
  unfold sorted_desc in *. simpl. rewrite insert_desc_perm. now rewrite IH.
Qed.

Lemma insert_desc_sorted (x : K * Z) d :
  StronglySorted desc d → StronglySorted desc (insert_desc x d).
Proof.
  induction 1 as [|y d Hs IH Hy]; simpl.
  - repeat constructor.
  - destruct (x.2 <? y.2) eqn:Hlt.
    + constructor; [assumption|].
      rewrite insert_desc_perm. constructor; [|assumption].
      unfold desc. apply Z.ltb_lt in Hlt. lia.
    + apply Z.ltb_ge in Hlt. constructor; [now constructor|].
      constructor; [exact Hlt|].
      eapply Forall_impl; [exact Hy|]. unfold desc. intros z Hz. simpl in *. lia.
Qed.

Lemma sorted_desc_sorted d : StronglySorted desc (sorted_desc d).
Proof.
  induction d as [|x d IH]; [constructor|].
  unfold sorted_desc in *. simpl. now apply insert_desc_sorted.
Qed.

Lemma insert_desc_pair (x a b : K * Z) d :
  StronglySorted desc d →
  [a; b] `sublist_of` insert_desc x d →
  [a; b] `sublist_of` d ∨ (a = x ∧ b ∈ d ∧ b.2 ≤ x.2) ∨ (b = x ∧ x.2 < a.2).
Proof.
  induction 1 as [|y d Hs IH Hy]; simpl; intros Hsub.
  - apply sublist_length in Hsub. simpl in Hsub. lia.
  - destruct (x.2 <? y.2) eqn:Hlt.
    + apply Z.ltb_lt in Hlt.
      apply sublist_cons_r in Hsub as [Hsub|(l' & [= -> <-] & Hsub)].
      * destruct (IH Hsub) as [H1|[(-> & Hb & Hle)|(-> & Hlt')]].
        -- left. now apply sublist_cons.
        -- right; left. split_and!; [reflexivity | now right | assumption].
        -- right; right. now split.
      * apply singleton_sublist_l in Hsub.
        rewrite insert_desc_perm in Hsub. apply elem_of_cons in Hsub as [->|Hb].
        -- right; right. now split.
        -- left. apply sublist_skip. now apply singleton_sublist_l.
    + apply Z.ltb_ge in Hlt.
      apply sublist_cons_r in Hsub as [Hsub|(l' & [= -> <-] & Hsub)].
      * now left.
      * apply singleton_sublist_l in Hsub. right; left.
        split_and!; [reflexivity | assumption |].
        apply elem_of_cons in Hsub as [->|Hb]; [assumption|].
        rewrite Forall_forall in Hy. specialize (Hy _ Hb). unfold desc in Hy. lia.
Qed.

(** Stability: of two items in the sorted list, the earlier has the larger
    count, or the same count and the earlier place in the input. *)
Lemma sorted_desc_stable d (a b : K * Z) :
  [a; b] `sublist_of` sorted_desc d →
  b.2 < a.2 ∨ (a.2 = b.2 ∧ [a; b] `sublist_of` d).
Proof.
  revert a b. induction d as [|x d IH]; intros a b Hsub.
  - apply sublist_length in Hsub. simpl in Hsub. lia.
  - change (sorted_desc (x :: d)) with (insert_desc x (sorted_desc d)) in Hsub.
    apply insert_desc_pair in Hsub; [|apply sorted_desc_sorted].
    destruct Hsub as [Hsub|[(-> & Hb & Hle)|(-> & Hlt)]].
    + destruct (IH _ _ Hsub) as [?|[? ?]]; [now left|].
      right. split; [assumption | now apply sublist_cons].
    + destruct (decide (b.2 < x.2)) as [|Hn]; [now left|].
      right. split; [lia|]. apply sublist_skip, singleton_sublist_l.
      now rewrite <- sorted_desc_perm.
    + now left.
Qed.

End tally_facts.

(** ** Anchor selection under the fractional policy *)

Lemma count_reviews_tally (lines : list line) :
  ExtractFiles.count_reviews lines = tally (stream_users lines).
Proof.
  unfold ExtractFiles.count_reviews, tally.
  generalize (@nil (jval * Z)) as d.
  induction lines as [|[r|] lines IH]; intros d; simpl; [reflexivity| |apply IH].
  unfold stream_users in *. simpl.
  destruct (truthy (py_get r "user_id" (JStr ""))); simpl; apply IH.
Qed.

Lemma top_users_old_elem (user_counts : list (jval * Z)) (u : jval) :
  u ∈ ExtractFiles.top_users_old user_counts ↔
  ∃ i c, ExtractFiles.all_users_sorted user_counts !! i = Some (u, c) ∧
         Z.of_nat i < ExtractFiles.num_users_to_keep user_counts.
Proof.
  unfold ExtractFiles.top_users_old, ExtractFiles.top_users_list.
  rewrite elem_of_list_to_set, list_elem_of_fmap.
  assert (Hk : 0 ≤ ExtractFiles.num_users_to_keep user_counts).
  { unfold ExtractFiles.num_users_to_keep. apply Z.div_pos; lia. }
  split.
  - intros ([u' c] & -> & Hin). apply elem_of_take in Hin as (i & Hi & Hlt).
    exists i, c. split; [assumption | lia].
  - intros (i & c & Hi & Hlt). exists (u, c). split; [reflexivity|].
    apply elem_of_take. exists i. split; [assumption | lia].
Qed.

Lemma size_list_to_set_NoDup (l : list jval) :
  NoDup l → size (list_to_set l : gset jval) = length l.
Proof. apply size_list_to_set. Qed.

(** C3.  The fractional policy of [process_reviews].  With [users] the
    stream of user identifiers that pass 1 counts:
    - the count map holds each user with the number of its records;
    - the ranking is a rearrangement of the count map in which a user
      stands before another only if its count is larger, or equal with the
      user seen first earlier in the stream;
    - the number of users to keep is the floor of one twentieth (0.05) of
      the number of distinct users;
    - the kept set consists of the users at the first that many places of
      the ranking.
    All of it is a function of the stream alone. *)
Theorem anchor_selection_fraction (lines : list line) :
  let users := stream_users lines in
  let user_counts := ExtractFiles.count_reviews lines in
  let ranked := ExtractFiles.all_users_sorted user_counts in
  let k := ExtractFiles.num_users_to_keep user_counts in
  (∀ u c, (u, c) ∈ user_counts ↔ u ∈ users ∧ c = occurrences u users) ∧
  ranked ≡ₚ user_counts ∧
  NoDup (map fst ranked) ∧
  k = Z.of_nat (size (list_to_set users : gset jval)) / 20 ∧
  (∀ a b, [a; b] `sublist_of` ranked →
     b.2 < a.2 ∨ (a.2 = b.2 ∧ seen_before users a.1 b.1)) ∧
  (∀ u, u ∈ ExtractFiles.top_users_old user_counts ↔
     ∃ i c, ranked !! i = Some (u, c) ∧ Z.of_nat i < k).
Proof.
  intros users user_counts ranked k.
  assert (Huc : user_counts = tally users) by apply count_reviews_tally.
  assert (Hperm : ranked ≡ₚ user_counts) by apply sorted_desc_perm.
  assert (Hnd : NoDup (map fst user_counts)).
  { rewrite Huc. apply tally_keys_NoDup. }
  split_and!.
  - intros u c. rewrite Huc. apply tally_elem.
  - exact Hperm.
  - now rewrite Hperm.
  - unfold k, ExtractFiles.num_users_to_keep. fold ranked. f_equal. f_equal.
    rewrite (Permutation_length Hperm), <- (length_map fst user_counts).
    rewrite <- (size_list_to_set_NoDup _ Hnd). f_equal.
    apply set_eq. intros u. rewrite !elem_of_list_to_set, Huc.
    apply tally_keys_elem.
  - intros a b Hsub. apply sorted_desc_stable in Hsub as [Hlt|[Heq Hsub]].
    + now left.
    + right. split; [assumption|].
      apply tally_keys_order. rewrite <- Huc.
      apply (fmap_sublist fst) in Hsub. exact Hsub.
  - apply top_users_old_elem.
Qed.

(** ** Anchor selection under the budget policy *)

Lemma prefix_total_cons {K : Type} (p : K * Z) (l : list (K * Z)) (j : nat) :
  prefix_total (p :: l) (S j) = p.2 + prefix_total l j.
Proof. reflexivity. Qed.

Lemma prefix_total_nonneg {K : Type} (l : list (K * Z)) (j : nat) :
  Forall (λ p, 1 ≤ p.2) l → 0 ≤ prefix_total l j.
Proof.
  intros Hpos. revert j. induction Hpos as [|p l Hp _ IH]; intros [|j];
    try (unfold prefix_total; simpl; lia).
  rewrite prefix_total_cons. specialize (IH j). lia.
Qed.

(** The mask [cumulative_sum <= budget] selects a prefix of the ranking,
    the longest one whose running total stays within the budget. *)
Lemma mask_is_prefix (budget acc : Z) (vc : list (Z * Z)) :
  Forall (λ p, 1 ≤ p.2) vc →
  ∃ k : nat,
    (k ≤ length vc)%nat ∧
    map fst (filter (λ p : Z * Z, p.2 ≤ budget)
               (zip (map fst vc) (ExtraFormatting.cumsum_from acc (map snd vc))))
    = map fst (take k vc) ∧
    (∀ j : nat, (1 ≤ j ≤ k)%nat → acc + prefix_total vc j ≤ budget) ∧
    (∀ j : nat, (k < j ≤ length vc)%nat → budget < acc + prefix_total vc j).
Proof.
  intros Hpos. revert acc.
  induction Hpos as [|[u c] vc Hc Hpos IH]; intros acc.
  - exists 0%nat. simpl. split_and!; [lia | reflexivity | lia | lia].
  - simpl in Hc. destruct (IH (acc + c)) as (k & Hk & Hfil & Hin & Hout).
    simpl. destruct (decide (acc + c ≤ budget)) as [Hle|Hgt].
    + exists (S k). rewrite filter_cons_True by exact Hle. simpl.
      split_and!.
      * lia.
      * now rewrite Hfil.
      * intros [|j] Hj; [lia|]. rewrite prefix_total_cons. simpl.
        destruct j as [|j].
        -- unfold prefix_total. simpl. lia.
        -- specialize (Hin (S j)). lia.
      * intros [|j] Hj; [lia|]. rewrite prefix_total_cons. simpl.
        specialize (Hout j). lia.
    + exists 0%nat. rewrite filter_cons_False by exact Hgt.
      assert (Hk0 : k = 0%nat).
      { destruct k as [|k]; [reflexivity|]. exfalso.
        specialize (Hin 1%nat ltac:(lia)).
        pose proof (prefix_total_nonneg vc 1 Hpos). lia. }
      subst k. rewrite Hfil. simpl. split_and!; [lia | reflexivity | lia |].
      intros [|j] Hj; [lia|]. rewrite prefix_total_cons. simpl.
      pose proof (prefix_total_nonneg vc j Hpos). lia.
Qed.

Lemma value_counts_sorted (column : list Z) :
  StronglySorted desc (ExtraFormatting.value_counts column).
Proof. apply sorted_desc_sorted. Qed.

Lemma value_counts_perm (column : list Z) :
  ExtraFormatting.value_counts column ≡ₚ tally column.
Proof. apply sorted_desc_perm. Qed.

Lemma value_counts_pos (column : list Z) :
  Forall (λ p, 1 ≤ p.2) (ExtraFormatting.value_counts column).
Proof. rewrite value_counts_perm. apply tally_counts_pos. Qed.

Lemma value_counts_NoDup (column : list Z) :
  NoDup (map fst (ExtraFormatting.value_counts column)).
Proof. rewrite value_counts_perm. apply tally_keys_NoDup. Qed.

Lemma value_counts_elem (column : list Z) (u c : Z) :
  (u, c) ∈ ExtraFormatting.value_counts column
  ↔ u ∈ column ∧ c = occurrences u column.
Proof. rewrite value_counts_perm. apply tally_elem. Qed.

Lemma filter_length_eq_key {Row : Type} (f : Row → Z) (u : Z) (df : list Row) :
  Z.of_nat (length (filter (λ r, f r = u) df)) = occurrences u (map f df).
Proof.
  unfold occurrences. f_equal.
  induction df as [|r df IH]; [reflexivity|]. simpl.
  rewrite !filter_cons. destruct (decide (f r = u)); simpl; now rewrite IH.
Qed.

Lemma filter_length_cons_key {Row : Type} (f : Row → Z) (u : Z)
  (keys : list Z) (df : list Row) :
  u ∉ keys →
  length (filter (λ r, f r ∈ u :: keys) df)
  = (length (filter (λ r, f r = u) df)
     + length (filter (λ r, f r ∈ keys) df))%nat.
Proof.
  intros Hu. induction df as [|r df IH]; [reflexivity|].
  rewrite !filter_cons.
  destruct (decide (f r = u)) as [Heq|Hne].
  - rewrite decide_True by (rewrite Heq; left).
    rewrite decide_False by (rewrite Heq; exact Hu).
    simpl. now rewrite IH.
  - destruct (decide (f r ∈ keys)) as [Hin|Hnin].
    + rewrite decide_True by now right.
      simpl. rewrite IH. lia.
    + rewrite decide_False; [exact IH|].
      intros [?|?]%elem_of_cons; contradiction.
Qed.

Lemma filter_no_keys {Row : Type} (f : Row → Z) (df : list Row) :
  filter (λ r, f r ∈ @nil Z) df = [].
Proof.
  induction df as [|r df IH]; [reflexivity|].
  now rewrite filter_cons_False by apply not_elem_of_nil.
Qed.

Lemma filter_length_keys {Row : Type} (f : Row → Z) (df : list Row)
  (l : list (Z * Z)) :
  NoDup (map fst l) →
  (∀ u c, (u, c) ∈ l → c = occurrences u (map f df)) →
  Z.of_nat (length (filter (λ r, f r ∈ map fst l) df))
  = foldr Z.add 0 (map snd l).
Proof.
  induction l as [|[u c] l IH]; simpl; intros Hnd Hocc.
  - now rewrite filter_no_keys.
  - apply NoDup_cons in Hnd as [Hu Hnd].
    rewrite filter_length_cons_key by exact Hu.
    rewrite Nat2Z.inj_add, filter_length_eq_key, IH; [|exact Hnd|].
    + rewrite <- (Hocc u c) by left. reflexivity.
    + intros u' c' Hin. apply Hocc. now right.
Qed.

(** C4.  The budget policy of [Extra_formattingcode.py], for any budget:
    - [value_counts] ranks the users by descending count, each user once
      with the number of its rows;
    - the kept users are a prefix of that ranking: every prefix up to it
      has a cumulative count within the budget, every longer prefix
      exceeds the budget, and no user past the prefix is kept;
    - if the largest count already exceeds a non-negative budget, no user
      is kept and the script exports no row;
    - for a non-negative budget, the rows of the kept users never exceed
      the budget, so step 4 leaves them as they are.
    The script is the instance [BUDGET = 3_000_000]. *)
Theorem anchor_selection_budget {Row : Type} (user_id : Row → Z)
  (sample : Z → list Row → list Row) (budget : Z) (filtered_df : list Row) :
  let column := map user_id filtered_df in
  let user_counts := ExtraFormatting.value_counts column in
  let top := ExtraFormatting.top_user_ids budget user_counts in
  let out :=
    ExtraFormatting.sampled_interactions_df user_id sample budget filtered_df in
  StronglySorted desc user_counts ∧
  NoDup (map fst user_counts) ∧
  (∀ u c, (u, c) ∈ user_counts ↔ u ∈ column ∧ c = occurrences u column) ∧
  (∃ k : nat,
     (k ≤ length user_counts)%nat ∧
     top = map fst (take k user_counts) ∧
     (∀ j : nat, (1 ≤ j ≤ k)%nat → prefix_total user_counts j ≤ budget) ∧
     (∀ j : nat, (k < j ≤ length user_counts)%nat →
        budget < prefix_total user_counts j) ∧
     (∀ i p, user_counts !! i = Some p → (k ≤ i)%nat → p.1 ∉ top)) ∧
  (0 ≤ budget →
   (∀ u c, head user_counts = Some (u, c) → budget < c →
      top = [] ∧ out = []) ∧
   out = filter (λ r, user_id r ∈ top) filtered_df ∧
   Z.of_nat (length out) ≤ budget) ∧
  ExtraFormatting.script user_id sample filtered_df
  = filter (λ r, user_id r ∈
                 ExtraFormatting.top_user_ids ExtraFormatting.BUDGET user_counts)
      filtered_df.
Proof.
  intros column user_counts top out.
  pose proof (value_counts_NoDup column) as Hnd. fold user_counts in Hnd.
  pose proof (value_counts_pos column) as Hpos. fold user_counts in Hpos.
  assert (Hsel : ∀ b,
    ∃ k : nat,
     (k ≤ length user_counts)%nat ∧
     ExtraFormatting.top_user_ids b user_counts = map fst (take k user_counts) ∧
     (∀ j : nat, (1 ≤ j ≤ k)%nat → prefix_total user_counts j ≤ b) ∧
     (∀ j : nat, (k < j ≤ length user_counts)%nat →
        b < prefix_total user_counts j)).
  { intros b. destruct (mask_is_prefix b 0 user_counts Hpos)
      as (k & Hk & Hfil & Hin & Hout).
    exists k. split_and!; [exact Hk | exact Hfil | |].
    - intros j Hj. specialize (Hin j Hj). lia.
    - intros j Hj. specialize (Hout j Hj). lia. }
  assert (Hlen : ∀ b, 0 ≤ b →
    Z.of_nat (length (filter
      (λ r, user_id r ∈ ExtraFormatting.top_user_ids b user_counts)
      filtered_df)) ≤ b).
  { intros b Hb. destruct (Hsel b) as (k & Hk & -> & Hin & _).
    rewrite filter_length_keys.
    - destruct k as [|k]; [simpl; lia|]. apply (Hin (S k)). lia.
    - eapply sublist_NoDup; [exact Hnd|].
      apply fmap_sublist, sublist_take.
    - intros u c Hin'. apply (value_counts_elem column).
      fold user_counts. apply elem_of_take in Hin' as (i & Hi & _).
      apply list_elem_of_lookup. eauto. }
  assert (Hstep4 : ∀ b, 0 ≤ b →
    ExtraFormatting.sampled_interactions_df user_id sample b filtered_df
    = filter (λ r, user_id r ∈ ExtraFormatting.top_user_ids b user_counts)
        filtered_df).
  { intros b Hb. unfold ExtraFormatting.sampled_interactions_df.
    fold column. fold user_counts.
    specialize (Hlen b Hb). apply Z.ltb_ge in Hlen. now rewrite Hlen. }
  split_and!.
  - apply value_counts_sorted.
  - exact Hnd.
  - apply value_counts_elem.
  - destruct (Hsel budget) as (k & Hk & Htop & Hin & Hout).
    exists k. split_and!; try assumption.
    intros i p Hi Hki Hp. unfold top in Hp. rewrite Htop in Hp.
    apply list_elem_of_fmap in Hp as (q & Hq1 & Hq2).
    apply elem_of_take in Hq2 as (i' & Hi' & Hlt).
    assert (Hii : i = i').
    { apply (NoDup_lookup (map fst user_counts) i i' p.1); [exact Hnd | |].
      - now rewrite list_lookup_fmap, Hi.
      - rewrite list_lookup_fmap, Hi'. simpl. now rewrite Hq1. }
    lia.
  - intros Hb. split_and!.
    + intros u c Hhead Hlt.
      assert (Htop : top = []).
      { destruct (Hsel budget) as (k & Hk & Htop & Hin & Hout).
        destruct k as [|k]; [exact Htop|]. exfalso.
        specialize (Hin 1%nat ltac:(lia)).
        destruct user_counts as [|p l]; [discriminate|].
        injection Hhead as ->. unfold prefix_total in Hin. simpl in Hin. lia. }
      split; [exact Htop|].
      unfold out. rewrite (Hstep4 budget Hb). fold top. rewrite Htop.
      apply filter_no_keys.
    + apply (Hstep4 budget Hb).
    + unfold out. rewrite (Hstep4 budget Hb). apply (Hlen budget Hb).
  - unfold ExtraFormatting.script. apply Hstep4. unfold ExtraFormatting.BUDGET. lia.
Qed.

(** ** Pass 2 of [process_reviews] and the cascade of [extract_files.py] *)

Section extract_files_facts.
Import ExtractFiles.
Implicit Types (st : state) (top : gset jval) (r : record).

Lemma safe_truncate_ok (v : jval) (n : Z) :
  (match v with JInt z => z = 0 | _ => True end) →
  ∃ s, safe_truncate v n = Ok s.
Proof.
  unfold safe_truncate. destruct v as [|z|s]; simpl; intros Hv; eauto.
  - subst z. simpl. eauto.
  - destruct (negb (negb (String.eqb s ""))); eauto.
Qed.

Lemma text_field_ok_truncate r :
  text_field_ok r = true →
  ∃ s, safe_truncate (py_get r "review_text" (JStr "")) 1500 = Ok s.
Proof.
  unfold text_field_ok, py_get. intros Hok. apply safe_truncate_ok.
  destruct (r !! "review_text") as [[|z|s]|]; simpl; try exact I.
  now apply Z.eqb_eq.
Qed.

Lemma review_step_reject top st r :
  py_get r "user_id" (JStr "") ∉ top → review_step top st (Some r) = Ok st.
Proof. intros Hu. unfold review_step. now rewrite decide_False. Qed.

Lemma review_step_raise top st r e :
  py_get r "user_id" (JStr "") ∈ top →
  safe_truncate (py_get r "review_text" (JStr "")) 1500 = Raise e →
  review_step top st (Some r) = Raise e.
Proof.
  intros Hu Ht. unfold review_step. rewrite decide_True by exact Hu.
  unfold get_mapped_user_id, get_mapped_book_id.
  destruct (get_mapped (user_id_map st) _ _) as [[mu nu] vu]. simpl.
  destruct (get_mapped (book_id_map st) _ _) as [[mb nb] vb]. simpl.
  now rewrite Ht.
Qed.

(** An accepted record: both identifiers are remapped, both kept sets grow,
    one row is appended. *)
Lemma review_step_accept top st r text :
  let u := py_get r "user_id" (JStr "") in
  let b := py_get r "book_id" (JStr "") in
  u ∈ top →
  safe_truncate (py_get r "review_text" (JStr "")) 1500 = Ok text →
  ∃ mu nu vu mb nb vb,
    get_mapped (user_id_map st) (next_user_id st) u = (mu, nu, vu) ∧
    get_mapped (book_id_map st) (next_book_id st) b = (mb, nb, vb) ∧
    review_step top st (Some r)
    = Ok {| user_id_map := mu; book_id_map := mb;
            next_user_id := nu; next_book_id := nb;
            kept_users_old := kept_users_old st ∪ {[u]};
            kept_books_old := kept_books_old st ∪ {[b]};
            total_reviews := total_reviews st + 1;
            rows := rows st ++
              [ {| review_id := py_get r "review_id" (JStr "");
                   user_id := vu; book_id := vb;
                   rating := py_get r "rating" (JStr "");
                   review_text := text;
                   date_added := py_get r "date_added" (JStr "");
                   date_updated := py_get r "date_updated" (JStr "");
                   read_at := py_get r "read_at" (JStr "");
                   started_at := py_get r "started_at" (JStr "");
                   n_votes := py_get r "n_votes" (JStr "");
                   n_comments := py_get r "n_comments" (JStr "") |} ] |}.
Proof.
  intros u b Hu Ht. unfold review_step. rewrite decide_True by exact Hu.
  unfold get_mapped_user_id, get_mapped_book_id. fold u. fold b.
  destruct (get_mapped (user_id_map st) (next_user_id st) u) as [[mu nu] vu].
  simpl.
  destruct (get_mapped (book_id_map st) (next_book_id st) b) as [[mb nb] vb].
  simpl. rewrite Ht. simpl.
  exists mu, nu, vu, mb, nb, vb. split_and!; reflexivity.
Qed.

(** The three ways an iteration can go. *)
Lemma review_step_cases top st ln :
  review_step top st ln = Ok st ∨
  (∃ e, review_step top st ln = Raise e) ∨
  (∃ r text mu nu vu mb nb vb,
     ln = Some r ∧
     py_get r "user_id" (JStr "") ∈ top ∧
     get_mapped (user_id_map st) (next_user_id st)
       (py_get r "user_id" (JStr "")) = (mu, nu, vu) ∧
     get_mapped (book_id_map st) (next_book_id st)
       (py_get r "book_id" (JStr "")) = (mb, nb, vb) ∧
     review_step top st ln
     = Ok {| user_id_map := mu; book_id_map := mb;
             next_user_id := nu; next_book_id := nb;
             kept_users_old := kept_users_old st ∪ {[py_get r "user_id" (JStr "")]};
             kept_books_old := kept_books_old st ∪ {[py_get r "book_id" (JStr "")]};
             total_reviews := total_reviews st + 1;
             rows := rows st ++
               [ {| review_id := py_get r "review_id" (JStr "");
                    user_id := vu; book_id := vb;
                    rating := py_get r "rating" (JStr "");
                    review_text := text;
                    date_added := py_get r "date_added" (JStr "");
                    date_updated := py_get r "date_updated" (JStr "");
                    read_at := py_get r "read_at" (JStr "");
                    started_at := py_get r "started_at" (JStr "");
                    n_votes := py_get r "n_votes" (JStr "");
                    n_comments := py_get r "n_comments" (JStr "") |} ] |}).
Proof.
  destruct ln as [r|]; [|now left].
  destruct (decide (py_get r "user_id" (JStr "") ∈ top)) as [Hu|Hu].
  - destruct (safe_truncate (py_get r "review_text" (JStr "")) 1500)
      as [text|e] eqn:Ht.
    + right; right.
      destruct (review_step_accept top st r text Hu Ht)
        as (mu & nu & vu & mb & nb & vb & H1 & H2 & H3).
      exists r, text, mu, nu, vu, mb, nb, vb. split_and!; auto.
    + right; left. exists e. now apply review_step_raise.
  - left. now apply review_step_reject.
Qed.

Lemma pass2_inv_init top : pass2_inv top init_state.
Proof.
  unfold pass2_inv, init_state; simpl.
  split_and!; try apply remap_inv_init; set_solver.
Qed.

Lemma review_step_inv top st st' ln :
  pass2_inv top st → review_step top st ln = Ok st' →
  pass2_inv top st' ∧ state_le st st'.
Proof.
  intros Hinv Hstep.
  destruct (review_step_cases top st ln)
    as [Hsame|[[e He]|(r & text & mu & nu & vu & mb & nb & vb
                       & -> & Hu & Hgu & Hgb & Hacc)]].
  - rewrite Hsame in Hstep. injection Hstep as <-.
    split; [exact Hinv|]. unfold state_le. split_and!; done.
  - rewrite He in Hstep. discriminate.
  - rewrite Hacc in Hstep. injection Hstep as <-.
    destruct Hinv as (Hiu & Hib & Hdu & Hdb & Hsub & Htot & Hrows & Hbooks).
    destruct (get_mapped_step _ _ _ _ _ _ Hiu Hgu)
      as (Hiu' & Hsu & Hku & Hdu' & _).
    destruct (get_mapped_step _ _ _ _ _ _ Hib Hgb)
      as (Hib' & Hsb & Hkb & Hdb' & _).
    split.
    + unfold pass2_inv; simpl. split_and!.
      * exact Hiu'.
      * exact Hib'.
      * now rewrite Hdu', Hdu.
      * now rewrite Hdb', Hdb.
      * apply union_subseteq. split; [exact Hsub|].
        now apply singleton_subseteq_l.
      * rewrite length_app. simpl. lia.
      * intros row [Hrow| ->%list_elem_of_singleton]%elem_of_app.
        -- destruct (Hrows _ Hrow) as (u & b & Hu' & Hb').
           exists u, b. split; eapply lookup_weaken; eassumption.
        -- simpl. eauto.
      * intros b v Hb.
        destruct (decide (b = py_get r "book_id" (JStr ""))) as [->|Hne].
        -- eexists. split; [apply elem_of_app; right; left|].
           simpl. congruence.
        -- assert (Hb0 : book_id_map st !! b = Some v).
           { assert (Hbd : b ∈ dom (book_id_map st)).
             { apply elem_of_dom_2 in Hb. rewrite Hdb' in Hb.
               apply elem_of_union in Hb as [Hb|Hb]; [exact Hb|].
               apply elem_of_singleton in Hb. contradiction. }
             apply elem_of_dom in Hbd as [w Hw].
             rewrite (lookup_weaken _ _ _ _ Hw Hsb) in Hb. congruence. }
           destruct (Hbooks _ _ Hb0) as (row & Hrow & Hv).
           exists row. split; [apply elem_of_app; now left | exact Hv].
    + unfold state_le; simpl. split_and!.
      * exact Hsu.
      * exact Hsb.
      * apply union_subseteq_l.
      * apply union_subseteq_l.
      * now apply prefix_app_r.
Qed.

Lemma state_le_refl st : state_le st st.
Proof. unfold state_le. split_and!; done. Qed.

Lemma state_le_trans st1 st2 st3 :
  state_le st1 st2 → state_le st2 st3 → state_le st1 st3.
Proof.
  intros (A1 & A2 & A3 & A4 & A5) (B1 & B2 & B3 & B4 & B5).
  unfold state_le. split_and!; etransitivity; eassumption.
Qed.

Lemma review_loop_inv top st st' lines :
  pass2_inv top st → review_loop top st lines = Ok st' →
  pass2_inv top st' ∧ state_le st st'.
Proof.
  revert st. induction lines as [|ln lines IH]; intros st Hinv; simpl.
  - intros [= <-]. split; [exact Hinv | apply state_le_refl].
  - destruct (review_step top st ln) as [st1|e] eqn:Hstep; simpl; [|discriminate].
    intros Hloop.
    destruct (review_step_inv _ _ _ _ Hinv Hstep) as [Hinv1 Hle1].
    destruct (IH _ Hinv1 Hloop) as [Hinv' Hle'].
    split; [exact Hinv' | eapply state_le_trans; eassumption].
Qed.

Lemma review_loop_total top st lines :
  texts_ok lines → ∃ st', review_loop top st lines = Ok st'.
Proof.
  revert st. induction lines as [|ln lines IH]; intros st Hok; simpl; [eauto|].
  assert (Hok' : texts_ok lines).
  { intros r Hr. apply Hok. now right. }
  destruct (review_step_cases top st ln)
    as [Hsame|[[e He]|(r & text & mu & nu & vu & mb & nb & vb
                       & -> & Hu & Hgu & Hgb & Hacc)]].
  - rewrite Hsame. simpl. now apply IH.
  - exfalso. destruct ln as [r|]; [|discriminate].
    destruct (text_field_ok_truncate r) as [s Hs]; [apply Hok; left|].
    destruct (decide (py_get r "user_id" (JStr "") ∈ top)) as [Hu|Hu].
    + destruct (review_step_accept top st r s Hu Hs)
        as (mu & nu & vu & mb & nb & vb & _ & _ & H3). congruence.
    + rewrite (review_step_reject _ _ _ Hu) in He. discriminate.
  - rewrite Hacc. simpl. now apply IH.
Qed.


Lemma process_reviews_inv (rf : option (list line)) (rr : reviews_run) :
  process_reviews rf = Ok rr →
  pass2_inv (match rf with
             | Some lines => top_users_old (count_reviews lines)
             | None => ∅
             end) (rr_state rr) ∧
  (∀ rws, rr_csv rr = Some rws → rws = rows (rr_state rr)).
Proof.
  destruct rf as [lines|]; simpl.
  - destruct (review_loop _ init_state lines) as [st|e] eqn:Hloop; simpl;
      [|discriminate].
    intros [= <-]. simpl. split.
    + eapply review_loop_inv; [apply pass2_inv_init | exact Hloop].
    + now intros rws [= <-].
  - intros [= <-]. simpl. split; [apply pass2_inv_init | discriminate].
Qed.

Lemma process_reviews_total (rf : option (list line)) :
  (∀ lines, rf = Some lines → texts_ok lines) →
  ∃ rr, process_reviews rf = Ok rr.
Proof.
  destruct rf as [lines|]; simpl; intros Hok; [|eauto].
  destruct (review_loop_total (top_users_old (count_reviews lines))
              init_state lines (Hok _ eq_refl)) as [st ->].
  simpl. eauto.
Qed.

Lemma main_ok (fs : dataset) (rr : reviews_run) :
  process_reviews (reviews_file fs) = Ok rr →
  let kept_books :=
    kept_books_old (rr_state rr) ∩ dom (book_id_map (rr_state rr)) in
  let genres_dict := (load_genres (genres_file fs)).1 in
  let pb := process_books (books_file fs) kept_books
              (book_id_map (rr_state rr)) genres_dict in
  let pg := process_genres (genres_file fs) kept_books
              (book_id_map (rr_state rr)) in
  main fs
  = Ok {| log := [MsgStart] ++ rr_log rr ++ (load_genres (genres_file fs)).2
                 ++ pb.2 ++ pg.2 ++ [MsgComplete];
          reviews_csv := rr_csv rr;
          books_csv := pb.1.1;
          genres_csv := pg.1 |}.
Proof.
  intros Hrr. unfold main. rewrite Hrr. simpl.
  destruct (load_genres (genres_file fs)) as [gd lg]. simpl.
  destruct (process_books _ _ _ gd) as [[books n] lb]. simpl.
  destruct (process_genres _ _ _) as [genres lgg]. reflexivity.
Qed.

Lemma main_inv (fs : dataset) (out : run) :
  main fs = Ok out → ∃ rr, process_reviews (reviews_file fs) = Ok rr.
Proof.
  unfold main. destruct (process_reviews (reviews_file fs)) as [rr|e];
    simpl; [eauto | discriminate].
Qed.

Lemma book_line_Some (kept : gset jval) (bmap : gmap jval Z)
  (gd : gmap jval string) (ln : line) (brow : book_row) :
  book_line kept bmap gd ln = Some brow ↔
  ∃ record, ln = Some record ∧
    py_get record "book_id" (JStr "") ∈ kept ∧
    bmap !! py_get record "book_id" (JStr "") = Some (b_book_id brow) ∧
    b_genre brow = default "" (gd !! py_get record "book_id" (JStr "")) ∧
    b_source brow = record.
Proof.
  unfold book_line. destruct ln as [record|].
  - destruct (decide (py_get record "book_id" (JStr "") ∈ kept)) as [Hk|Hk].
    + destruct (bmap !! py_get record "book_id" (JStr "")) as [v|] eqn:Hv.
      * split.
        -- intros [= <-]. exists record. simpl. split_and!; auto.
        -- intros (rec' & [= <-] & _ & [= Hb] & Hg & Hs).
           destruct brow; simpl in *. congruence.
      * split; [discriminate|]. intros (rec' & [= <-] & _ & Hb & _).
        congruence.
    + split; [discriminate|]. intros (rec' & [= <-] & Hk' & _). contradiction.
  - split; [discriminate|]. intros (rec' & Hn & _). discriminate.
Qed.

Lemma genre_line_Some (kept : gset jval) (bmap : gmap jval Z)
  (ln : line) (grow : genre_row) :
  genre_line kept bmap ln = Some grow →
  ∃ record, ln = Some record ∧
    py_get record "book_id" (JStr "") ∈ kept ∧
    bmap !! py_get record "book_id" (JStr "") = Some (g_book_id grow).
Proof.
  unfold genre_line. destruct ln as [record|]; [|discriminate].
  destruct (decide (py_get record "book_id" (JStr "") ∈ kept)) as [Hk|Hk];
    [|discriminate].
  destruct (bmap !! py_get record "book_id" (JStr "")) as [v|] eqn:Hv;
    [|discriminate].
  intros [= <-]. exists record. simpl. auto.
Qed.


(** C1, as stated, fails: [main] writes a review row whose [book_id]
    resolves to no row of the books output, here because the books source
    holds no record for the book the kept review refers to. *)
Lemma referential_closure_counterexample :
  ¬ (∀ fs out rws books row,
       main fs = Ok out →
       reviews_csv out = Some rws → books_csv out = Some books →
       row ∈ rws → ∃ brow, brow ∈ books ∧ b_book_id brow = book_id row).
Proof.
  intros H.
  assert (Hmain : ∃ out row, main dataset_without_books = Ok out ∧
                    reviews_csv out = Some [row] ∧ books_csv out = Some []).
  { vm_compute. eexists _, _. split_and!; reflexivity. }
  destruct Hmain as (out & row & Hmain & Hrws & Hbooks).
  destruct (H _ _ _ _ row Hmain Hrws Hbooks) as (brow & Hin & _).
  - left.
  - inversion Hin.
Qed.

(** C1, amended.  When [main] returns:
    - every user of an output review row was in the selected root set
      before the row was accepted, and the identifier maps have exactly
      the kept sets as their keys;
    - the [user_id] and [book_id] of every review row are the remapped
      identifiers that the final maps record for a kept user and a kept
      book;
    - every row of the books and of the genres output carries the
      remapped identifier of a kept book that an output review row refers
      to;
    - the [book_id] of a review row resolves to a row of the books output
      whenever the books source holds a parseable record of that book.
    And [main] returns whenever every [review_text] is a text. *)
Theorem referential_closure (fs : dataset) :
  (∀ out, main fs = Ok out →
     ∃ rr, process_reviews (reviews_file fs) = Ok rr ∧
       reviews_csv out = rr_csv rr ∧
       (∀ rws, rr_csv rr = Some rws → rws = rows (rr_state rr)) ∧
       (∀ lines, reviews_file fs = Some lines →
          kept_users_old (rr_state rr) ⊆ top_users_old (count_reviews lines)) ∧
       dom (user_id_map (rr_state rr)) = kept_users_old (rr_state rr) ∧
       dom (book_id_map (rr_state rr)) = kept_books_old (rr_state rr) ∧
       (∀ row, row ∈ rows (rr_state rr) →
          ∃ u b, u ∈ kept_users_old (rr_state rr) ∧
                 b ∈ kept_books_old (rr_state rr) ∧
                 user_id_map (rr_state rr) !! u = Some (user_id row) ∧
                 book_id_map (rr_state rr) !! b = Some (book_id row)) ∧
       (∀ books brow, books_csv out = Some books → brow ∈ books →
          ∃ b row, b ∈ kept_books_old (rr_state rr) ∧
                   book_id_map (rr_state rr) !! b = Some (b_book_id brow) ∧
                   row ∈ rows (rr_state rr) ∧ book_id row = b_book_id brow) ∧
       (∀ genres grow, genres_csv out = Some genres → grow ∈ genres →
          ∃ b row, b ∈ kept_books_old (rr_state rr) ∧
                   book_id_map (rr_state rr) !! b = Some (g_book_id grow) ∧
                   row ∈ rows (rr_state rr) ∧ book_id row = g_book_id grow) ∧
       (∀ lines row b record,
          books_file fs = Some lines → row ∈ rows (rr_state rr) →
          book_id_map (rr_state rr) !! b = Some (book_id row) →
          Some record ∈ lines → py_get record "book_id" (JStr "") = b →
          ∃ books brow, books_csv out = Some books ∧ brow ∈ books ∧
                        b_book_id brow = book_id row)) ∧
  ((∀ lines, reviews_file fs = Some lines → texts_ok lines) →
   ∃ out, main fs = Ok out).
Proof.
  split.
  - intros out Hmain. destruct (main_inv _ _ Hmain) as [rr Hrr].
    exists rr. split; [exact Hrr|].
    rewrite (main_ok _ _ Hrr) in Hmain. injection Hmain as <-. simpl.
    destruct (process_reviews_inv _ _ Hrr)
      as ((Hiu & Hib & Hdu & Hdb & Hsub & Htot & Hrows & Hbooks) & Hcsv).
    set (st := rr_state rr) in *.
    split_and!; try done.
    + intros lines Hl. now rewrite Hl in Hsub.
    + intros row Hrow. destruct (Hrows _ Hrow) as (u & b & Hu & Hb).
      exists u, b. split_and!; try assumption.
      * rewrite <- Hdu. now apply elem_of_dom_2 in Hu.
      * rewrite <- Hdb. now apply elem_of_dom_2 in Hb.
    + intros books brow Hbk Hin. unfold process_books in Hbk.
      destruct (books_file fs) as [lines|]; simpl in Hbk; [|discriminate].
      injection Hbk as <-.
      apply list_elem_of_omap in Hin as (ln & _ & Hln).
      apply book_line_Some in Hln as (record & _ & Hk & Hb & _).
      destruct (Hbooks _ _ Hb) as (row & Hrow & Hv).
      exists (py_get record "book_id" (JStr "")), row.
      split_and!; try assumption. set_solver.
    + intros genres grow Hg Hin. unfold process_genres in Hg.
      destruct (genres_file fs) as [lines|]; simpl in Hg; [|discriminate].
      injection Hg as <-.
      apply list_elem_of_omap in Hin as (ln & _ & Hln).
      apply genre_line_Some in Hln as (record & _ & Hk & Hb).
      destruct (Hbooks _ _ Hb) as (row & Hrow & Hv).
      exists (py_get record "book_id" (JStr "")), row.
      split_and!; try assumption. set_solver.
    + intros lines row b record Hl Hrow Hb Hrec Hget.
      rewrite Hl. simpl.
      eexists _, {| b_book_id := book_id row;
                    b_genre := default "" ((load_genres (genres_file fs)).1 !! b);
                    b_source := record |}.
      split_and!; [reflexivity | | reflexivity].
      apply list_elem_of_omap. exists (Some record). split; [exact Hrec|].
      apply book_line_Some. exists record. simpl. rewrite Hget.
      split_and!; try done.
      apply elem_of_intersection. rewrite <- Hdb.
      apply elem_of_dom_2 in Hb. now split.
  - intros Hok. destruct (process_reviews_total _ Hok) as [rr Hrr].
    rewrite (main_ok _ _ Hrr). eauto.
Qed.

Lemma twenty_reviews_texts_ok : texts_ok twenty_reviews.
Proof.
  intros r Hr. unfold twenty_reviews in Hr.
  apply list_elem_of_fmap in Hr as (i & [= ->] & _). reflexivity.
Qed.

(** On a dataset whose books source describes the reviewed book, the kept
    review resolves to a book row. *)
Example referential_closure_example :
  ∃ out row brow,
    main dataset_with_book = Ok out ∧
    reviews_csv out = Some [row] ∧ books_csv out = Some [brow] ∧
    b_book_id brow = book_id row.
Proof. vm_compute. eexists _, _, _. split_and!; reflexivity. Qed.

Lemma referential_closure_witness : ∃ out, main dataset_with_book = Ok out.
Proof.
  apply (referential_closure dataset_with_book).
  intros lines [= <-]. apply twenty_reviews_texts_ok.
Defined.


(** *** Records without a [book_id] *)

Lemma get_mapped_lookup (m m' : gmap jval Z) (n n' v : Z) (k : jval) :
  get_mapped m n k = (m', n', v) → m' !! k = Some v.
Proof.
  unfold get_mapped. destruct (m !! k) as [w|] eqn:Hk; intros [= <- <- <-].
  - exact Hk.
  - apply lookup_insert_eq.
Qed.

(** A record of a selected user leaves its book in the kept set and in the
    map, and a row in the output, whatever its [book_id] is. *)
Lemma review_loop_accepts top st st' lines r :
  pass2_inv top st →
  review_loop top st lines = Ok st' →
  Some r ∈ lines →
  py_get r "user_id" (JStr "") ∈ top →
  py_get r "book_id" (JStr "") ∈ kept_books_old st' ∧
  ∃ row, row ∈ rows st' ∧
    book_id_map st' !! py_get r "book_id" (JStr "") = Some (book_id row) ∧
    review_id row = py_get r "review_id" (JStr "").
Proof.
  revert st. induction lines as [|ln lines IH]; intros st Hinv Hloop Hin Hu.
  - inversion Hin.
  - simpl in Hloop.
    destruct (review_step top st ln) as [st1|e] eqn:Hstep; simpl in Hloop;
      [|discriminate].
    destruct (review_step_inv _ _ _ _ Hinv Hstep) as [Hinv1 Hle1].
    apply elem_of_cons in Hin as [<-|Hin]; [|now apply (IH st1)].
    destruct (review_loop_inv _ _ _ _ Hinv1 Hloop)
      as [_ (_ & Hmb & _ & Hkb & Hpre)].
    destruct (safe_truncate (py_get r "review_text" (JStr "")) 1500)
      as [text|e] eqn:Ht;
      [|rewrite (review_step_raise _ _ _ _ Hu Ht) in Hstep; discriminate].
    destruct (review_step_accept top st r text Hu Ht)
      as (mu & nu & vu & mb & nb & vb & _ & Hgb & Hacc).
    rewrite Hacc in Hstep. injection Hstep as <-. simpl in *.
    split.
    + apply Hkb. apply elem_of_union. right. now apply elem_of_singleton.
    + eexists. split_and!.
      * destruct Hpre as [k ->]. apply elem_of_app. left.
        apply elem_of_app. right. left.
      * simpl. eapply lookup_weaken; [|exact Hmb].
        eapply get_mapped_lookup. exact Hgb.
      * reflexivity.
Qed.

(** C10.  In pass 2 of [process_reviews], a record of a selected user that
    has no [book_id] field is accepted all the same: the empty string is
    remapped like any book identifier, enters [kept_books_old] and the
    book identifier map, and a row with that remapped identifier is
    written; the entry also passes the consistency filter of [main].  The
    pass returns because every [review_text] is a text. *)
Theorem empty_book_id_admitted (lines : list line) (r : record) :
  texts_ok lines →
  Some r ∈ lines →
  py_get r "user_id" (JStr "") ∈ top_users_old (count_reviews lines) →
  r !! "book_id" = None →
  ∃ rr, process_reviews (Some lines) = Ok rr ∧
    JStr "" ∈ kept_books_old (rr_state rr) ∧
    (∃ row, row ∈ rows (rr_state rr) ∧
       rr_csv rr = Some (rows (rr_state rr)) ∧
       book_id_map (rr_state rr) !! JStr "" = Some (book_id row) ∧
       review_id row = py_get r "review_id" (JStr "")) ∧
    JStr "" ∈ kept_books_old (rr_state rr) ∩ dom (book_id_map (rr_state rr)).
Proof.
  intros Hok Hin Hu Hnone.
  assert (Hb : py_get r "book_id" (JStr "") = JStr "").
  { unfold py_get. now rewrite Hnone. }
  set (top := top_users_old (count_reviews lines)) in *.
  destruct (review_loop_total top init_state lines Hok) as [st Hloop].
  destruct (review_loop_accepts top init_state st lines r
              (pass2_inv_init top) Hloop Hin Hu) as (Hkept & row & Hrow & Hmap & Hrid).
  rewrite Hb in Hkept, Hmap.
  exists {| rr_state := st; rr_csv := Some (rows st);
            rr_log := [ MsgPass1 (Z.of_nat (length (count_reviews lines)))
                                 (Z.of_nat (size top));
                        MsgProcessedReviews (total_reviews st) ] |}.
  simpl. split_and!.
  - fold top. now rewrite Hloop.
  - exact Hkept.
  - exists row. split_and!; auto.
  - apply elem_of_intersection. split; [exact Hkept|].
    now apply elem_of_dom_2 in Hmap.
Qed.

Lemma empty_book_id_admitted_witness :
  ∃ rr, process_reviews (Some reviews_missing_book) = Ok rr ∧
    JStr "" ∈ kept_books_old (rr_state rr) ∧
    (∃ row, row ∈ rows (rr_state rr) ∧
       rr_csv rr = Some (rows (rr_state rr)) ∧
       book_id_map (rr_state rr) !! JStr "" = Some (book_id row) ∧
       review_id row = py_get review_without_book "review_id" (JStr "")) ∧
    JStr "" ∈ kept_books_old (rr_state rr) ∩ dom (book_id_map (rr_state rr)).
Proof.
  apply (empty_book_id_admitted reviews_missing_book review_without_book).
  - intros r [[= ->]|Hr]%elem_of_cons; [reflexivity|].
    now apply twenty_reviews_texts_ok.
  - left.
  - refine (bool_decide_unpack _ _). vm_compute. exact I.
  - reflexivity.
Defined.

End extract_files_facts.

(** ** Items that a pass drops *)

Section dropped_items.
Context {I : Type} (P : I → Prop) `{∀ i, Decision (P i)}.

Lemma omap_filter {B : Type} (f : I → option B) (items : list I) :
  (∀ i, ¬ P i → f i = None) → omap f items = omap f (filter P items).
Proof.
  intros Hdrop. induction items as [|i items IH]; [reflexivity|].
  rewrite filter_cons. destruct (decide (P i)) as [Hi|Hi].
  - change (omap f (i :: items)) with
      (match f i with Some y => y :: omap f items | None => omap f items end).
    change (omap f (i :: filter P items)) with
      (match f i with
       | Some y => y :: omap f (filter P items)
       | None => omap f (filter P items)
       end).
    now rewrite IH.
  - change (omap f (i :: items)) with
      (match f i with Some y => y :: omap f items | None => omap f items end).
    now rewrite (Hdrop i Hi).
Qed.

Lemma fold_left_filter {S : Type} (f : S → I → S) (items : list I) (s : S) :
  (∀ s i, ¬ P i → f s i = s) →
  fold_left f items s = fold_left f (filter P items) s.
Proof.
  intros Hdrop. revert s. induction items as [|i items IH]; intros s;
    [reflexivity|].
  rewrite filter_cons. destruct (decide (P i)) as [Hi|Hi]; simpl.
  - apply IH.
  - rewrite (Hdrop s i Hi). apply IH.
Qed.

Context {R : Type} (cap : Z) (emit : I → pyres (option R)).
Context (Hdrop : ∀ i, ¬ P i → emit i = Ok None).

Lemma capped_loop_filter (rows : list R) (total : Z) (items : list I) :
  capped_loop cap emit rows total items
  = capped_loop cap emit rows total (filter P items).
Proof.
  revert rows total. induction items as [|i items IH]; intros rows total;
    [reflexivity|].
  rewrite filter_cons. destruct (decide (P i)) as [Hi|Hi]; simpl.
  - destruct (emit i) as [[row|]|e]; simpl; [|apply IH|reflexivity].
    destruct (cap <=? total + 1); [reflexivity | apply IH].
  - rewrite (Hdrop i Hi). simpl. apply IH.
Qed.

Lemma capped_sources_filter (rows : list R) (total : Z) (done : nat)
  (sources : list (list I)) :
  capped_sources cap emit rows total done sources
  = capped_sources cap emit rows total done (map (filter P) sources).
Proof.
  revert rows total done.
  induction sources as [|items sources IH]; intros rows total done;
    [reflexivity|].
  simpl. rewrite <- capped_loop_filter.
  destruct (capped_loop cap emit rows total items) as [[rows' total']|e];
    simpl; [|reflexivity].
  destruct (cap <=? total'); [reflexivity | apply IH].
Qed.

End dropped_items.

Section capped_rows.
Context {I R : Type} (cap : Z) (emit : I → pyres (option R)).



End capped_rows.

(** ** Unparseable lines *)

Lemma review_loop_cons (top : gset jval) (st : ExtractFiles.state)
  (ln : line) (lines : list line) :
  ExtractFiles.review_loop top st (ln :: lines)
  = match ExtractFiles.review_step top st ln with
    | Ok st' => ExtractFiles.review_loop top st' lines
    | Raise e => Raise e
    end.
Proof. reflexivity. Qed.

Lemma review_loop_parsed (top : gset jval) (st : ExtractFiles.state)
  (lines : list line) :
  ExtractFiles.review_loop top st lines
  = ExtractFiles.review_loop top st (parsed_only lines).
Proof.
  revert st. induction lines as [|[r|] lines IH]; intros st; [reflexivity| |].
  - unfold parsed_only. rewrite filter_cons_True by (simpl; eauto).
    fold (parsed_only lines). rewrite !review_loop_cons.
    destruct (ExtractFiles.review_step top st (Some r)) as [st'|e];
      [apply IH | reflexivity].
  - unfold parsed_only.
    rewrite filter_cons_False by (intros [x Hx]; discriminate).
    fold (parsed_only lines). rewrite review_loop_cons. apply IH.
Qed.

Lemma authors_loop_parsed (seen : list (jval * BetterExtract.author_row))
  (count : Z) (lines : list line) :
  BetterExtract.authors_loop seen count lines
  = BetterExtract.authors_loop seen count (parsed_only lines).
Proof.
  revert seen count.
  induction lines as [|[r|] lines IH]; intros seen count; [reflexivity| |].
  - unfold parsed_only. rewrite filter_cons_True by (simpl; eauto).
    fold (parsed_only lines). simpl.
    destruct (negb (truthy (py_get r "author_id" (JStr "")))); [apply IH|].
    destruct (dict_lookup (py_get r "author_id" (JStr "")) seen) as [ex|].
    + destruct (truthy (py_get r "book_id" (JStr ""))); [|apply IH].
      destruct (BetterExtract.py_in _ _) as [[|]|e]; simpl;
        [apply IH | | reflexivity].
      destruct (BetterExtract.append_book ex _) as [ex'|e]; simpl;
        [apply IH | reflexivity].
    + destruct (BetterExtract.MAX_AUTHORS <=? count + 1);
        [reflexivity | apply IH].
  - unfold parsed_only.
    rewrite filter_cons_False by (intros [x Hx]; discriminate).
    simpl. apply IH.
Qed.

Lemma not_parsed_None (ln : line) : ¬ is_Some ln → ln = None.
Proof. destruct ln; [intros Hn; exfalso; apply Hn; eauto | reflexivity]. Qed.

Lemma count_reviews_parsed (lines : list line) :
  ExtractFiles.count_reviews lines
  = ExtractFiles.count_reviews (parsed_only lines).
Proof.
  apply (fold_left_filter (λ ln : line, is_Some ln)).
  now intros d ln ->%not_parsed_None.
Qed.

(** C7, as stated, fails in its last part: whatever is read off the result
    of [process_reviews] (its state, its rows, its printed report), it is
    not the number of lines that failed to parse; no such count is kept. *)
Lemma skip_count_counterexample :
  ¬ ∃ skip_count : ExtractFiles.reviews_run → Z,
      ∀ lines rr, ExtractFiles.process_reviews (Some lines) = Ok rr →
                  skip_count rr = parse_failures lines.
Proof.
  intros [skip_count Hcount].
  assert (Hsame : ExtractFiles.process_reviews (Some [None])
                  = ExtractFiles.process_reviews (Some [])) by reflexivity.
  destruct (ExtractFiles.process_reviews (Some [])) as [rr|e] eqn:Hrun;
    [|discriminate].
  pose proof (Hcount [] rr Hrun) as H0.
  pose proof (Hcount [None] rr Hsame) as H1.
  rewrite H0 in H1. vm_compute in H1. discriminate.
Qed.

(** C7, amended.  A line that fails to parse is skipped without ending the
    pass and without a trace: every streaming pass over a JSON source
    returns the same result (rows written, counts, identifier maps and
    printed report) as on the source with its unparseable lines removed. *)
Theorem parse_errors_skipped :
  (∀ lines, ExtractFiles.count_reviews lines
            = ExtractFiles.count_reviews (parsed_only lines)) ∧
  (∀ lines, ExtractFiles.process_reviews (Some lines)
            = ExtractFiles.process_reviews (Some (parsed_only lines))) ∧
  (∀ lines, ExtractFiles.load_genres (Some lines)
            = ExtractFiles.load_genres (Some (parsed_only lines))) ∧
  (∀ lines kept bmap gd,
     ExtractFiles.process_books (Some lines) kept bmap gd
     = ExtractFiles.process_books (Some (parsed_only lines)) kept bmap gd) ∧
  (∀ lines kept bmap,
     ExtractFiles.process_genres (Some lines) kept bmap
     = ExtractFiles.process_genres (Some (parsed_only lines)) kept bmap) ∧
  (∀ lines, BetterExtract.process_authors (Some lines)
            = BetterExtract.process_authors (Some (parsed_only lines))) ∧
  (∀ files, BetterExtract.process_reviews files
            = BetterExtract.process_reviews (map parsed_only files)) ∧
  (∀ (F : Type) (py_float : string → option F) (float_eq0 : F → bool)
     csv_files json_files,
     BetterExtract.process_interactions py_float float_eq0 csv_files json_files
     = BetterExtract.process_interactions py_float float_eq0 csv_files
         (map parsed_only json_files)).
Proof.
  split_and!.
  - apply count_reviews_parsed.
  - intros lines. unfold ExtractFiles.process_reviews.
    rewrite <- count_reviews_parsed, <- review_loop_parsed. reflexivity.
  - intros lines. unfold ExtractFiles.load_genres, parsed_only.
    rewrite <- (fold_left_filter (λ ln : line, is_Some ln)
                 ExtractFiles.load_genres_line lines ∅); [reflexivity|].
    now intros d ln ->%not_parsed_None.
  - intros lines kept bmap gd. unfold ExtractFiles.process_books, parsed_only.
    rewrite <- (omap_filter (λ ln : line, is_Some ln)
                 (ExtractFiles.book_line kept bmap gd) lines); [reflexivity|].
    now intros ln ->%not_parsed_None.
  - intros lines kept bmap. unfold ExtractFiles.process_genres, parsed_only.
    rewrite <- (omap_filter (λ ln : line, is_Some ln)
                 (ExtractFiles.genre_line kept bmap) lines); [reflexivity|].
    now intros ln ->%not_parsed_None.
  - intros lines. unfold BetterExtract.process_authors.
    now rewrite <- authors_loop_parsed.
  - intros files. unfold BetterExtract.process_reviews, parsed_only.
    rewrite <- (capped_sources_filter (λ ln : line, is_Some ln));
      [|now intros ln ->%not_parsed_None].
    now destruct files.
  - intros F py_float float_eq0 csv_files json_files.
    unfold BetterExtract.process_interactions, parsed_only.
    destruct (capped_sources _ _ [] 0 0%nat csv_files) as [[[r1 t1] d1]|e];
      simpl; [|reflexivity].
    rewrite <- (capped_sources_filter (λ ln : line, is_Some ln));
      [reflexivity|].
    now intros ln ->%not_parsed_None.
Qed.

(** ** Missing sources *)

Lemma omap_all_None {A B : Type} (f : A → option B) (l : list A) :
  (∀ x, f x = None) → omap f l = [].
Proof.
  intros Hf. induction l as [|x l IH]; [reflexivity|].
  change (omap f (x :: l)) with
    (match f x with Some y => y :: omap f l | None => omap f l end).
  now rewrite Hf.
Qed.

Lemma book_line_no_map (kept : gset jval) (gd : gmap jval string) (ln : line) :
  ExtractFiles.book_line kept ∅ gd ln = None.
Proof.
  unfold ExtractFiles.book_line. destruct ln as [r|]; [|reflexivity].
  destruct (decide _); [|reflexivity]. now rewrite lookup_empty.
Qed.

Lemma genre_line_no_map (kept : gset jval) (ln : line) :
  ExtractFiles.genre_line kept ∅ ln = None.
Proof.
  unfold ExtractFiles.genre_line. destruct ln as [r|]; [|reflexivity].
  destruct (decide _); [|reflexivity]. now rewrite lookup_empty.
Qed.

Lemma process_books_no_map (bf : option (list line)) (kept : gset jval)
  (gd : gmap jval string) :
  ExtractFiles.process_books bf kept ∅ gd
  = match bf with
    | Some _ => (Some [], 0, [ExtractFiles.MsgProcessedBooks 0])
    | None => (None, 0, [ExtractFiles.MsgBooksNotFound])
    end.
Proof.
  destruct bf as [lines|]; [|reflexivity]. unfold ExtractFiles.process_books.
  now rewrite (omap_all_None _ _ (book_line_no_map kept gd)).
Qed.

Lemma process_genres_no_map (gf : option (list line)) (kept : gset jval) :
  ExtractFiles.process_genres gf kept ∅
  = match gf with
    | Some _ => (Some [], [ExtractFiles.MsgProcessedGenres 0])
    | None => (None, [ExtractFiles.MsgGenresNotFound])
    end.
Proof.
  destruct gf as [lines|]; [|reflexivity]. unfold ExtractFiles.process_genres.
  now rewrite (omap_all_None _ _ (genre_line_no_map kept)).
Qed.

(** C6, as stated, fails for [extract_files.py]: without the reviews file
    the run neither raises nor stops after the error message; the book and
    genre stages run and write their (empty) tables. *)
Lemma missing_root_counterexample :
  ¬ (∀ fs, ExtractFiles.reviews_file fs = None →
       (∃ e, ExtractFiles.main fs = Raise e) ∨
       (∃ out, ExtractFiles.main fs = Ok out ∧
          ExtractFiles.log out
          = [ExtractFiles.MsgStart; ExtractFiles.MsgReviewsNotFound] ∧
          ExtractFiles.books_csv out = None ∧
          ExtractFiles.genres_csv out = None)).
Proof.
  intros H.
  assert (Hmain : ExtractFiles.main dataset_without_reviews
    = Ok {| ExtractFiles.log :=
              [ExtractFiles.MsgStart; ExtractFiles.MsgReviewsNotFound;
               ExtractFiles.MsgLoadedGenres 0; ExtractFiles.MsgProcessedBooks 0;
               ExtractFiles.MsgProcessedGenres 0; ExtractFiles.MsgComplete];
            ExtractFiles.reviews_csv := None;
            ExtractFiles.books_csv := Some [];
            ExtractFiles.genres_csv := Some [] |}) by (vm_compute; reflexivity).
  destruct (H dataset_without_reviews eq_refl)
    as [[e He]|(out & Hout & _ & Hbooks & _)].
  - rewrite Hmain in He. discriminate.
  - rewrite Hmain in Hout. injection Hout as <-. discriminate.
Qed.

(** C6, amended.
    - [extract_files.py] without its reviews file: [process_reviews]
      reports the missing file once and returns empty sets and maps; the
      run goes on, and each later stage whose source exists runs and writes
      a table without data rows.
    - [extract_files.py] without its genres file: [load_genres] yields the
      empty dictionary, the genres stage is skipped, and whenever
      [process_reviews] returns the run completes, the books stage running
      with an empty genre for every row.
    - [sample.py] without [reviews.csv]: [main] reports it and returns at
      once; no filter stage runs and no table is written. *)
Theorem missing_source_semantics :
  (∀ fs, ExtractFiles.reviews_file fs = None →
     ExtractFiles.process_reviews (ExtractFiles.reviews_file fs)
     = Ok {| ExtractFiles.rr_state := ExtractFiles.init_state;
             ExtractFiles.rr_csv := None;
             ExtractFiles.rr_log := [ExtractFiles.MsgReviewsNotFound] |} ∧
     ExtractFiles.main fs
     = Ok {| ExtractFiles.log :=
               [ExtractFiles.MsgStart; ExtractFiles.MsgReviewsNotFound]
               ++ (ExtractFiles.load_genres (ExtractFiles.genres_file fs)).2
               ++ [match ExtractFiles.books_file fs with
                   | Some _ => ExtractFiles.MsgProcessedBooks 0
                   | None => ExtractFiles.MsgBooksNotFound
                   end;
                   match ExtractFiles.genres_file fs with
                   | Some _ => ExtractFiles.MsgProcessedGenres 0
                   | None => ExtractFiles.MsgGenresNotFound
                   end;
                   ExtractFiles.MsgComplete];
             ExtractFiles.reviews_csv := None;
             ExtractFiles.books_csv :=
               match ExtractFiles.books_file fs with
               | Some _ => Some []
               | None => None
               end;
             ExtractFiles.genres_csv :=
               match ExtractFiles.genres_file fs with
               | Some _ => Some []
               | None => None
               end |}) ∧
  (∀ fs, ExtractFiles.genres_file fs = None →
     ExtractFiles.load_genres (ExtractFiles.genres_file fs)
     = (∅, [ExtractFiles.MsgGenresNotFound]) ∧
     (∀ kept bmap,
        ExtractFiles.process_genres (ExtractFiles.genres_file fs) kept bmap
        = (None, [ExtractFiles.MsgGenresNotFound])) ∧
     (∀ rr, ExtractFiles.process_reviews (ExtractFiles.reviews_file fs) = Ok rr →
        ∃ out, ExtractFiles.main fs = Ok out ∧
          ExtractFiles.reviews_csv out = ExtractFiles.rr_csv rr ∧
          ExtractFiles.genres_csv out = None ∧
          ExtractFiles.books_csv out
          = (ExtractFiles.process_books (ExtractFiles.books_file fs)
               (ExtractFiles.kept_books_old (ExtractFiles.rr_state rr)
                ∩ dom (ExtractFiles.book_id_map (ExtractFiles.rr_state rr)))
               (ExtractFiles.book_id_map (ExtractFiles.rr_state rr)) ∅).1.1 ∧
          (∀ books brow, ExtractFiles.books_csv out = Some books →
             brow ∈ books → ExtractFiles.b_genre brow = "") ∧
          last (ExtractFiles.log out) = Some ExtractFiles.MsgComplete) ∧
     ((∀ lines, ExtractFiles.reviews_file fs = Some lines → texts_ok lines) →
      ∃ out, ExtractFiles.main fs = Ok out)) ∧
  (∀ strip ts, Sample.reviews_csv ts = None →
     Sample.main strip ts
     = Ok {| Sample.log := [Sample.MsgReviewsMissing];
             Sample.output :=
               {| Sample.interactions_csv := None; Sample.books_csv := None;
                  Sample.authors_csv := None; Sample.users_csv := None;
                  Sample.reviews_csv := None |} |}).
Proof.
  split_and!.
  - intros fs Hnone. rewrite Hnone. split; [reflexivity|].
    assert (Hrr : ExtractFiles.process_reviews (ExtractFiles.reviews_file fs)
                  = Ok {| ExtractFiles.rr_state := ExtractFiles.init_state;
                          ExtractFiles.rr_csv := None;
                          ExtractFiles.rr_log := [ExtractFiles.MsgReviewsNotFound] |})
      by now rewrite Hnone.
    rewrite (main_ok fs _ Hrr).
    unfold ExtractFiles.init_state.
    cbn [ExtractFiles.rr_state ExtractFiles.rr_log ExtractFiles.rr_csv
         ExtractFiles.book_id_map ExtractFiles.kept_books_old].
    rewrite process_books_no_map, process_genres_no_map.
    now destruct (ExtractFiles.books_file fs), (ExtractFiles.genres_file fs).
  - intros fs Hnone. rewrite Hnone. split_and!; [reflexivity | reflexivity | |].
    + intros rr Hrr. rewrite (main_ok fs rr Hrr). rewrite Hnone.
      cbn [ExtractFiles.load_genres ExtractFiles.process_genres fst snd].
      eexists. split; [reflexivity|].
      cbn [ExtractFiles.reviews_csv ExtractFiles.genres_csv
           ExtractFiles.books_csv ExtractFiles.log].
      split_and!; try reflexivity.
      * intros books brow Hbooks Hin.
        unfold ExtractFiles.process_books in Hbooks.
        destruct (ExtractFiles.books_file fs) as [bl|];
          cbn [fst snd] in Hbooks; [|discriminate].
        injection Hbooks as <-.
        apply list_elem_of_omap in Hin as (ln & _ & Hln).
        apply book_line_Some in Hln as (record & _ & _ & _ & Hg & _).
        now rewrite Hg, lookup_empty.
      * apply last_Some. eexists. rewrite !app_assoc. reflexivity.
    + intros Hok. destruct (process_reviews_total _ Hok) as [rr Hrr].
      rewrite (main_ok fs rr Hrr). eauto.
  - intros strip ts Hnone. unfold Sample.main. now rewrite Hnone.
Qed.

(** ** Zero ratings in [the_better_extract_files.py] *)



Section zero_ratings.
Context {F : Type} (py_float : string → option F) (float_eq0 : F → bool).




End zero_ratings.

(** ** Author merging *)

(** C5 fails on the code.  Two records of one author with the books
    ["123"] and ["12"]: in this order the second book is never added,
    since [book_id not in existing["books"]] searches the joined string
    for a substring and finds ["12"] inside ["123"]; in the other order
    both books are kept.  The accumulated field is no set union, and the
    set of books it ends with depends on the order of the records. *)
Lemma author_merge_substring :
  BetterExtract.process_authors (Some [Some author_book_123; Some author_book_12])
  = Ok (Some [ {| BetterExtract.author_id := JStr "a";
                  BetterExtract.name := JStr "N";
                  BetterExtract.role := JStr "";
                  BetterExtract.books := JStr "123" |} ],
        [BetterExtract.MsgProcessedAuthors 1]) ∧
  BetterExtract.process_authors (Some [Some author_book_12; Some author_book_123])
  = Ok (Some [ {| BetterExtract.author_id := JStr "a";
                  BetterExtract.name := JStr "N";
                  BetterExtract.role := JStr "";
                  BetterExtract.books := JStr "12;123" |} ],
        [BetterExtract.MsgProcessedAuthors 1]).
Proof. split; vm_compute; reflexivity. Qed.

(** * Further properties *)

(** ** [safe_truncate] applied twice *)

Lemma take_chars_app (pre rest : string) :
  take_chars (String.length pre) (pre +:+ rest) = pre.
Proof.
  induction pre as [|c pre IH]; [reflexivity|].
  change (String c pre +:+ rest) with (String c (pre +:+ rest)).
  simpl. now rewrite IH.
Qed.

(** X1.  For a non-negative [max_length], the result of [safe_truncate] on
    a string is at most [max_length + 3] characters long and is left
    unchanged by a second truncation.  A falsy value ([None], [0], the
    empty string) gives the empty string, and a non-zero integer raises
    [TypeError]. *)
Theorem safe_truncate_idempotent (s : string) (max_length : Z) :
  0 ≤ max_length →
  (∃ out, safe_truncate (JStr s) max_length = Ok out ∧
          py_len out ≤ max_length + 3 ∧
          safe_truncate (JStr out) max_length = Ok out) ∧
  (∀ v, truthy v = false → safe_truncate v max_length = Ok "") ∧
  (∀ z, z ≠ 0 → safe_truncate (JInt z) max_length = Raise TypeError).
Proof.
  intros Hmax. split_and!.
  - destruct (truthy (JStr s)) eqn:Hts.
    2:{ apply truthy_str in Hts. subst s. exists "".
        split_and!; [reflexivity | unfold py_len; simpl; lia | reflexivity]. }
    assert (Hst : safe_truncate (JStr s) max_length
                  = Ok (if py_len s <=? max_length then s
                        else slice_to s max_length +:+ "...")).
    { unfold safe_truncate. now rewrite Hts. }
    destruct (py_len s <=? max_length) eqn:Hleb.
    + apply Z.leb_le in Hleb. exists s. split_and!; [exact Hst | lia | exact Hst].
    + apply Z.leb_gt in Hleb. unfold slice_to in Hst.
      assert (Hge : (0 <=? max_length) = true) by (apply Z.leb_le; lia).
      rewrite Hge in Hst.
      set (pre := take_chars (Z.to_nat max_length) s) in *.
      assert (Hpre : String.length pre = Z.to_nat max_length).
      { apply take_chars_length. unfold py_len in Hleb. lia. }
      assert (Hlen : py_len (pre +:+ "...") = max_length + 3).
      { unfold py_len. rewrite length_append, Hpre. simpl. lia. }
      exists (pre +:+ "..."). split_and!; [exact Hst | lia |].
      unfold safe_truncate.
      assert (Ht : truthy (JStr (pre +:+ "...")) = true).
      { destruct (truthy (JStr (pre +:+ "..."))) eqn:Ht; [reflexivity|].
        apply truthy_str in Ht. rewrite Ht in Hlen.
        unfold py_len in Hlen. simpl in Hlen. lia. }
      rewrite Ht. simpl.
      assert (Hleb' : (py_len (pre +:+ "...") <=? max_length) = false)
        by (apply Z.leb_gt; lia).
      rewrite Hleb'. unfold slice_to. rewrite Hge. do 2 f_equal.
      rewrite <- Hpre. apply take_chars_app.
  - intros v Hv. unfold safe_truncate. now rewrite Hv.
  - intros z Hz. unfold safe_truncate. simpl.
    destruct (z =? 0) eqn:Hz0; [apply Z.eqb_eq in Hz0; contradiction|].
    reflexivity.
Qed.

Lemma safe_truncate_idempotent_witness :
  (∃ out, safe_truncate (JStr "abcdefgh") 5 = Ok out ∧
          py_len out ≤ 5 + 3 ∧
          safe_truncate (JStr out) 5 = Ok out) ∧
  (∀ v, truthy v = false → safe_truncate v 5 = Ok "") ∧
  (∀ z, z ≠ 0 → safe_truncate (JInt z) 5 = Raise TypeError).
Proof. apply (safe_truncate_idempotent "abcdefgh" 5). lia. Defined.

(** ** What pass 2 of [process_reviews] writes *)

Section reviews_output.
Import ExtractFiles.
Implicit Types (st : state) (top : gset jval) (r : record).

Lemma accepted_cons_None top (lines : list line) :
  accepted top (None :: lines) = accepted top lines.
Proof. reflexivity. Qed.

Lemma accepted_cons_in top r (lines : list line) :
  user_of r ∈ top → accepted top (Some r :: lines) = r :: accepted top lines.
Proof.
  intros Hu. unfold accepted.
  change (omap ?f (Some r :: lines)) with
    (match f (Some r) with Some y => y :: omap f lines | None => omap f lines end).
  simpl. unfold user_of in Hu. now rewrite decide_True by exact Hu.
Qed.

Lemma accepted_cons_out top r (lines : list line) :
  user_of r ∉ top → accepted top (Some r :: lines) = accepted top lines.
Proof.
  intros Hu. unfold accepted.
  change (omap ?f (Some r :: lines)) with
    (match f (Some r) with Some y => y :: omap f lines | None => omap f lines end).
  simpl. unfold user_of in Hu. now rewrite decide_False by exact Hu.
Qed.

Lemma accepted_elem top r (lines : list line) :
  r ∈ accepted top lines ↔ Some r ∈ lines ∧ user_of r ∈ top.
Proof.
  unfold accepted. rewrite list_elem_of_omap. split.
  - intros ([r'|] & Hin & Hf); [|discriminate].
    destruct (decide _) as [Hu|]; [|discriminate].
    injection Hf as ->. now split.
  - intros [Hin Hu]. exists (Some r). split; [exact Hin|].
    unfold user_of in Hu. now rewrite decide_True by exact Hu.
Qed.

(** The loop of pass 2, from any state: the rows it appends are those of
    the accepted records, their identifiers are what the remapper returns
    for the users and the books of these records in order, and the kept
    sets grow by these users and books. *)
Lemma review_loop_spec top st st' (lines : list line) :
  review_loop top st lines = Ok st' →
  ∃ new,
    rows st' = rows st ++ new ∧
    Forall2 row_matches (accepted top lines) new ∧
    remap_calls (user_id_map st) (next_user_id st)
      (map user_of (accepted top lines))
    = (user_id_map st', next_user_id st', map user_id new) ∧
    remap_calls (book_id_map st) (next_book_id st)
      (map book_of (accepted top lines))
    = (book_id_map st', next_book_id st', map book_id new) ∧
    kept_users_old st'
    = kept_users_old st ∪ list_to_set (map user_of (accepted top lines)) ∧
    kept_books_old st'
    = kept_books_old st ∪ list_to_set (map book_of (accepted top lines)) ∧
    total_reviews st' = total_reviews st + Z.of_nat (length new).
Proof.
  revert st. induction lines as [|[r|] lines IH]; intros st Hloop.
  - injection Hloop as <-. exists []. simpl.
    split_and!; try reflexivity; try constructor.
    + now rewrite app_nil_r.
    + apply set_eq. intros x. rewrite elem_of_union, elem_of_empty. tauto.
    + apply set_eq. intros x. rewrite elem_of_union, elem_of_empty. tauto.
    + lia.
  - rewrite review_loop_cons in Hloop.
    destruct (decide (user_of r ∈ top)) as [Hu|Hu].
    + destruct (safe_truncate (py_get r "review_text" (JStr "")) 1500)
        as [text|e] eqn:Ht;
        [|rewrite (review_step_raise _ _ _ _ Hu Ht) in Hloop; discriminate].
      destruct (review_step_accept top st r text Hu Ht)
        as (mu & nu & vu & mb & nb & vb & Hgu & Hgb & Hacc).
      rewrite Hacc in Hloop.
      destruct (IH _ Hloop)
        as (new & Hrows & Hmatch & Hru & Hrb & Hku & Hkb & Htot).
      cbn [rows user_id_map book_id_map next_user_id next_book_id
           kept_users_old kept_books_old total_reviews] in *.
      rewrite (accepted_cons_in _ _ _ Hu).
      eexists (_ :: new). split_and!.
      * rewrite Hrows, <- app_assoc. reflexivity.
      * constructor; [|exact Hmatch].
        unfold row_matches. cbn. split_and!; try reflexivity. exact Ht.
      * cbn [map remap_calls]. fold (user_of r) in Hgu. rewrite Hgu, Hru.
        reflexivity.
      * cbn [map remap_calls]. fold (book_of r) in Hgb. rewrite Hgb, Hrb.
        reflexivity.
      * rewrite Hku. cbn [map list_to_set]. fold (user_of r).
        apply set_eq. intros x.
        rewrite !elem_of_union, elem_of_singleton. tauto.
      * rewrite Hkb. cbn [map list_to_set]. fold (book_of r).
        apply set_eq. intros x.
        rewrite !elem_of_union, elem_of_singleton. tauto.
      * rewrite Htot. cbn [length]. lia.
    + rewrite (review_step_reject _ _ _ Hu) in Hloop.
      rewrite (accepted_cons_out _ _ _ Hu). now apply IH.
  - rewrite review_loop_cons in Hloop. rewrite accepted_cons_None.
    now apply IH.
Qed.

Lemma process_reviews_loop (lines : list line) (rr : reviews_run) :
  process_reviews (Some lines) = Ok rr →
  review_loop (top_users_old (count_reviews lines)) init_state lines
  = Ok (rr_state rr) ∧
  rr_csv rr = Some (rows (rr_state rr)) ∧
  rr_log rr = [ MsgPass1 (Z.of_nat (length (count_reviews lines)))
                  (Z.of_nat (size (top_users_old (count_reviews lines))));
                MsgProcessedReviews (total_reviews (rr_state rr)) ].
Proof.
  unfold process_reviews.
  destruct (review_loop _ init_state lines) as [st|e]; simpl; [|discriminate].
  intros [= <-]. auto.
Qed.

(** X2.  When [process_reviews] returns, [reviews.csv] holds exactly one
    row for every parseable record of a selected user, in stream order and
    with the record's fields (the text truncated to 1500 characters); the
    count it reports is the number of these rows. *)
Theorem process_reviews_rows (lines : list line) (rr : reviews_run) :
  process_reviews (Some lines) = Ok rr →
  let top := top_users_old (count_reviews lines) in
  rr_csv rr = Some (rows (rr_state rr)) ∧
  Forall2 row_matches (accepted top lines) (rows (rr_state rr)) ∧
  total_reviews (rr_state rr) = Z.of_nat (length (accepted top lines)) ∧
  last (rr_log rr)
  = Some (MsgProcessedReviews (Z.of_nat (length (rows (rr_state rr))))).
Proof.
  intros Hrun top. destruct (process_reviews_loop _ _ Hrun) as (Hloop & Hcsv & Hlog).
  destruct (review_loop_spec _ _ _ _ Hloop)
    as (new & Hrows & Hmatch & _ & _ & _ & _ & Htot).
  simpl in Hrows, Htot. rewrite Hrows.
  pose proof (Forall2_length _ _ _ Hmatch) as Hlen.
  split_and!.
  - now rewrite Hcsv, Hrows.
  - exact Hmatch.
  - fold top in Hlen. lia.
  - rewrite Hlog, Htot. simpl. reflexivity.
Qed.

Lemma process_reviews_rows_witness :
  ∃ rr, process_reviews (Some twenty_reviews) = Ok rr ∧
    Forall2 row_matches
      (accepted (top_users_old (count_reviews twenty_reviews)) twenty_reviews)
      (rows (rr_state rr)).
Proof.
  destruct (process_reviews_total (Some twenty_reviews)) as [rr Hrr].
  { intros lines [= <-]. apply twenty_reviews_texts_ok. }
  exists rr. split; [exact Hrr|].
  apply (process_reviews_rows twenty_reviews rr Hrr).
Defined.



(** Every selected user has a parseable record. *)
Lemma top_user_has_record (lines : list line) (u : jval) :
  u ∈ top_users_old (count_reviews lines) →
  ∃ r, Some r ∈ lines ∧ user_of r = u.
Proof.
  intros Hu. apply top_users_old_elem in Hu as (i & c & Hi & _).
  assert (Hin : (u, c) ∈ count_reviews lines).
  { unfold all_users_sorted in Hi. rewrite <- sorted_desc_perm.
    apply list_elem_of_lookup. eauto. }
  rewrite count_reviews_tally in Hin. apply tally_elem in Hin as [Hin _].
  unfold stream_users in Hin.
  apply list_elem_of_omap in Hin as ([r|] & Hr & Hf); [|discriminate].
  simpl in Hf. destruct (truthy _); [|discriminate].
  injection Hf as <-. exists r. now split.
Qed.

(** X4.  When [process_reviews] returns, every selected user is kept:
    [kept_users_old] is the whole of [top_users_old], the keys of the user
    map are these users, and [kept_books_old] and the keys of the book map
    are the books of the written reviews.  The consistency step of [main],
    [kept_books_old & set(book_id_map.keys())], therefore removes
    nothing. *)
Theorem process_reviews_kept (lines : list line) (rr : reviews_run) :
  process_reviews (Some lines) = Ok rr →
  let top := top_users_old (count_reviews lines) in
  let st := rr_state rr in
  kept_users_old st = top ∧
  dom (user_id_map st) = top ∧
  kept_books_old st = list_to_set (map book_of (accepted top lines)) ∧
  dom (book_id_map st) = kept_books_old st ∧
  kept_books_old st ∩ dom (book_id_map st) = kept_books_old st.
Proof.
  intros Hrun top st.
  destruct (process_reviews_loop _ _ Hrun) as (Hloop & _ & _).
  destruct (review_loop_spec _ _ _ _ Hloop)
    as (new & _ & _ & _ & _ & Hku & Hkb & _).
  fold top in Hku, Hkb. fold st in Hku, Hkb.
  cbn [kept_users_old kept_books_old init_state] in Hku, Hkb.
  destruct (process_reviews_inv _ _ Hrun)
    as ((_ & _ & Hdu & Hdb & _) & _).
  fold st in Hdu, Hdb.
  assert (Hkept : kept_users_old st = top).
  { rewrite Hku. apply set_eq. intros u.
    rewrite elem_of_union, elem_of_empty, elem_of_list_to_set,
      list_elem_of_fmap.
    split.
    - intros [[]|(r & -> & Hr)]. now apply accepted_elem in Hr as [_ Hr].
    - intros Hu. right.
      destruct (top_user_has_record _ _ Hu) as (r & Hr & <-).
      exists r. split; [reflexivity|]. apply accepted_elem. now split. }
  split_and!.
  - exact Hkept.
  - now rewrite Hdu.
  - rewrite Hkb. apply set_eq. intros b.
    rewrite elem_of_union, elem_of_empty. tauto.
  - exact Hdb.
  - rewrite Hdb. apply set_eq. intros b. rewrite elem_of_intersection. tauto.
Qed.

Lemma process_reviews_kept_witness :
  ∃ rr, process_reviews (Some twenty_reviews) = Ok rr ∧
    kept_users_old (rr_state rr) = top_users_old (count_reviews twenty_reviews).
Proof.
  destruct (process_reviews_total (Some twenty_reviews)) as [rr Hrr].
  { intros lines [= <-]. apply twenty_reviews_texts_ok. }
  exists rr. split; [exact Hrr|].
  apply (process_reviews_kept twenty_reviews rr Hrr).
Defined.

End reviews_output.

(** ** Genres and books in [extract_files.py] *)

Section genres_books.
Import ExtractFiles.

Lemma filter_none {A : Type} (P : A → Prop) `{∀ x, Decision (P x)}
  (l : list A) :
  (∀ x, x ∈ l → ¬ P x) → filter P l = [].
Proof.
  induction l as [|x l IH]; intros Hl; [reflexivity|].
  rewrite filter_cons_False by (apply Hl; left).
  apply IH. intros y Hy. apply Hl. now right.
Qed.

Lemma genre_records_snoc (lines : list line) (ln : line) :
  genre_records (lines ++ [ln])
  = genre_records lines ++
    match ln with
    | Some r => if truthy (book_of r) then [r] else []
    | None => []
    end.
Proof.
  unfold genre_records. rewrite omap_app. f_equal.
  destruct ln as [r|]; [|reflexivity].
  change (omap ?f [Some r]) with
    (match f (Some r) with Some y => [y] | None => [] end).
  simpl. now destruct (truthy (book_of r)).
Qed.

Lemma load_genres_dict_lookup (lines : list line) (b : jval) :
  fold_left load_genres_line lines ∅ !! b
  = (λ r, join_field (genre_raw r))
    <$> last (filter (λ r, book_of r = b) (genre_records lines)).
Proof.
  induction lines as [|ln lines IH] using rev_ind; [reflexivity|].
  rewrite fold_left_app, genre_records_snoc, filter_app. simpl.
  destruct ln as [r|]; simpl.
  - fold (book_of r). destruct (truthy (book_of r)).
    + rewrite filter_cons, filter_nil.
      destruct (decide (book_of r = b)) as [<-|Hne].
      * rewrite lookup_insert_eq, last_snoc. reflexivity.
      * rewrite lookup_insert_ne by exact Hne. now rewrite app_nil_r.
    + rewrite filter_nil, app_nil_r. exact IH.
  - rewrite filter_nil, app_nil_r. exact IH.
Qed.

Lemma genre_records_truthy (lines : list line) (r : record) :
  r ∈ genre_records lines ↔ Some r ∈ lines ∧ truthy (book_of r) = true.
Proof.
  unfold genre_records. rewrite list_elem_of_omap. split.
  - intros ([r'|] & Hin & Hf); [|discriminate].
    destruct (truthy (book_of r')) eqn:Ht; [|discriminate].
    injection Hf as ->. now split.
  - intros [Hin Ht]. exists (Some r). now rewrite Ht.
Qed.

(** X5.  [load_genres] maps a book identifier to the serialised genres of
    the last parseable record of the genres source that carries it: a
    later record of the same book overwrites an earlier one, records whose
    [book_id] is falsy (absent, empty, [null], 0) are not stored, and the
    number it reports is the number of distinct books stored. *)
Theorem load_genres_last_wins (lines : list line) :
  let genres_dict := (load_genres (Some lines)).1 in
  (∀ b, genres_dict !! b
        = (λ r, join_field (genre_raw r))
          <$> last (filter (λ r, book_of r = b) (genre_records lines))) ∧
  (∀ b, truthy b = false → genres_dict !! b = None) ∧
  (∀ l1 l2 r, lines = l1 ++ Some r :: l2 → truthy (book_of r) = true →
     (∀ r', Some r' ∈ l2 → book_of r' ≠ book_of r) →
     genres_dict !! book_of r = Some (join_field (genre_raw r))) ∧
  (load_genres (Some lines)).2
  = [MsgLoadedGenres
       (Z.of_nat (size (list_to_set (map book_of (genre_records lines))
                        : gset jval)))].
Proof.
  intros genres_dict.
  assert (Hlook : ∀ b, genres_dict !! b
        = (λ r, join_field (genre_raw r))
          <$> last (filter (λ r, book_of r = b) (genre_records lines)))
    by apply load_genres_dict_lookup.
  split_and!.
  - exact Hlook.
  - intros b Hb. rewrite Hlook.
    destruct (last (filter _ (genre_records lines))) as [r|] eqn:Hlast;
      [|reflexivity].
    exfalso. apply last_Some in Hlast as [l' Hl'].
    assert (Hr : r ∈ filter (λ r, book_of r = b) (genre_records lines)).
    { rewrite Hl'. apply elem_of_app. right. left. }
    apply list_elem_of_filter in Hr as [<- Hr].
    apply genre_records_truthy in Hr as [_ Ht]. congruence.
  - intros l1 l2 r -> Ht Hlater. rewrite Hlook.
    replace (l1 ++ Some r :: l2) with ((l1 ++ [Some r]) ++ l2)
      by now rewrite <- app_assoc.
    unfold genre_records. rewrite omap_app. fold (genre_records (l1 ++ [Some r])).
    rewrite genre_records_snoc, Ht, filter_app.
    replace (filter (λ r0, book_of r0 = book_of r) (omap _ l2)) with (@nil record).
    + rewrite app_nil_r, filter_app, filter_cons_True, filter_nil by reflexivity.
      now rewrite last_snoc.
    + symmetry. apply filter_none. intros r' Hr'.
      apply (genre_records_truthy l2) in Hr' as [Hr' _]. now apply Hlater.
  - unfold load_genres. simpl. do 3 f_equal.
    rewrite <- size_dom. f_equal. apply set_eq. intros b.
    rewrite elem_of_dom, elem_of_list_to_set, list_elem_of_fmap.
    rewrite load_genres_dict_lookup. split.
    + intros [g Hg].
      destruct (last (filter _ (genre_records lines))) as [r|] eqn:Hlast;
        [|discriminate].
      apply last_Some in Hlast as [l' Hl'].
      assert (Hr : r ∈ filter (λ r, book_of r = b) (genre_records lines)).
      { rewrite Hl'. apply elem_of_app. right. left. }
      apply list_elem_of_filter in Hr as [<- Hr]. eauto.
    + intros (r & -> & Hr).
      assert (Hr' : r ∈ filter (λ r0, book_of r0 = book_of r) (genre_records lines))
        by now apply list_elem_of_filter.
      destruct (filter _ (genre_records lines)) as [|x l] eqn:Hf using rev_ind;
        [inversion Hr'|].
      rewrite last_snoc. simpl. eauto.
Qed.

End genres_books.

Section books_output.
Import ExtractFiles.

Lemma kept_records_elem (kept : gset jval) (lines : list line) (r : record) :
  r ∈ kept_records kept lines ↔ Some r ∈ lines ∧ book_of r ∈ kept.
Proof.
  unfold kept_records. rewrite list_elem_of_omap. split.
  - intros ([r'|] & Hin & Hf); [|discriminate].
    destruct (decide _) as [Hk|]; [|discriminate].
    injection Hf as ->. now split.
  - intros [Hin Hk]. exists (Some r). split; [exact Hin|].
    now rewrite decide_True by exact Hk.
Qed.

(** When every kept book is mapped, [process_books] writes the row of
    every source record of a kept book, in source order. *)
Lemma process_books_spec (lines : list line) (kept : gset jval)
  (bmap : gmap jval Z) (gd : gmap jval string) :
  kept ⊆ dom bmap →
  ∃ out,
    process_books (Some lines) kept bmap gd
    = (Some out, Z.of_nat (length out),
       [MsgProcessedBooks (Z.of_nat (length out))]) ∧
    Forall2 (book_row_of bmap gd) (kept_records kept lines) out.
Proof.
  intros Hsub. unfold process_books. eexists. split; [reflexivity|].
  induction lines as [|[r|] lines IH].
  - constructor.
  - unfold kept_records.
    change (omap ?f (Some r :: lines)) with
      (match f (Some r) with Some y => y :: omap f lines | None => omap f lines end).
    change (omap (book_line kept bmap gd) (Some r :: lines)) with
      (match book_line kept bmap gd (Some r) with
       | Some y => y :: omap (book_line kept bmap gd) lines
       | None => omap (book_line kept bmap gd) lines
       end).
    unfold book_line at 1. fold (book_of r).
    destruct (decide (book_of r ∈ kept)) as [Hk|Hk]; [|exact IH].
    assert (Hd : book_of r ∈ dom bmap) by now apply Hsub.
    apply elem_of_dom in Hd as [v Hv]. rewrite Hv.
    constructor; [|exact IH]. unfold book_row_of. simpl. auto.
  - exact IH.
Qed.

(** X6.  When [main] returns and the books source exists, [books.csv]
    holds exactly one row for every parseable record of the books source
    whose [book_id] some written review refers to, in source order
    (repeated records are not merged); the row carries the remapped
    identifier of the book and the genre stored by [load_genres], or the
    empty string.  Rows with the same [book_id] stem from records with
    the same original identifier. *)
Theorem main_books_rows (fs : dataset) (out : run) (book_lines : list line) :
  main fs = Ok out →
  books_file fs = Some book_lines →
  ∃ rr rows,
    process_reviews (reviews_file fs) = Ok rr ∧
    books_csv out = Some rows ∧
    Forall2 (book_row_of (book_id_map (rr_state rr))
               (load_genres (genres_file fs)).1)
      (kept_records (kept_books_old (rr_state rr)) book_lines) rows ∧
    (∀ row1 row2, row1 ∈ rows → row2 ∈ rows →
       b_book_id row1 = b_book_id row2 →
       book_of (b_source row1) = book_of (b_source row2)).
Proof.
  intros Hmain Hbooks. destruct (main_inv _ _ Hmain) as [rr Hrr].
  rewrite (main_ok _ _ Hrr) in Hmain. injection Hmain as <-.
  destruct (process_reviews_inv _ _ Hrr)
    as ((_ & (_ & _ & Hinj & _) & _ & Hdb & _) & _).
  set (st := rr_state rr) in *.
  assert (Hcap : kept_books_old st ∩ dom (book_id_map st) = kept_books_old st).
  { rewrite Hdb. apply set_eq. intros b. rewrite elem_of_intersection. tauto. }
  rewrite Hbooks, Hcap.
  destruct (process_books_spec book_lines (kept_books_old st) (book_id_map st)
              (load_genres (genres_file fs)).1) as (rows & Heq & Hrows).
  { now rewrite Hdb. }
  exists rr, rows. cbn [books_csv]. rewrite Heq. cbn [fst].
  split_and!; [exact Hrr | reflexivity | exact Hrows |].
  assert (Hsrc : ∀ row, row ∈ rows →
    book_id_map st !! book_of (b_source row) = Some (b_book_id row)).
  { intros row Hrow.
    apply list_elem_of_lookup in Hrow as [i Hi].
    destruct (Forall2_lookup_r _ _ _ _ _ Hrows Hi) as (r & _ & Hsrc & Hmap & _).
    now rewrite Hsrc. }
  intros row1 row2 H1 H2 Heqid.
  apply (Hinj _ _ (b_book_id row1)); [now apply Hsrc|].
  rewrite Heqid. now apply Hsrc.
Qed.

Lemma main_books_rows_witness :
  ∃ rr rows,
    process_reviews (reviews_file dataset_with_book) = Ok rr ∧
    ∃ out, main dataset_with_book = Ok out ∧ books_csv out = Some rows.
Proof.
  destruct (process_reviews_total (reviews_file dataset_with_book)) as [rr Hrr].
  { intros lines [= <-]. apply twenty_reviews_texts_ok. }
  pose proof (main_ok dataset_with_book rr Hrr) as Hmain.
  destruct (main_books_rows dataset_with_book _ _ Hmain eq_refl)
    as (rr' & rows & Hrr' & Hrows & _).
  exists rr', rows. split; [exact Hrr'|]. eexists. split; [exact Hmain|].
  exact Hrows.
Defined.

(** X7.  When [main] returns with both the books and the genres source
    present, every genre that [books.csv] shows for a book stored by
    [load_genres] is also a row of [genres.csv] with the same remapped
    [book_id], and every row of [genres.csv] belongs to a book that some
    written review refers to. *)
Theorem main_genres_consistent (fs : dataset) (out : run)
  (book_lines genre_lines : list line) :
  main fs = Ok out →
  books_file fs = Some book_lines →
  genres_file fs = Some genre_lines →
  ∃ rr books genres,
    process_reviews (reviews_file fs) = Ok rr ∧
    books_csv out = Some books ∧ genres_csv out = Some genres ∧
    (∀ brow, brow ∈ books →
       is_Some ((load_genres (Some genre_lines)).1 !! book_of (b_source brow)) →
       ∃ grow, grow ∈ genres ∧ g_book_id grow = b_book_id brow ∧
               g_genre grow = b_genre brow) ∧
    (∀ grow, grow ∈ genres →
       ∃ b, b ∈ kept_books_old (rr_state rr) ∧
            book_id_map (rr_state rr) !! b = Some (g_book_id grow)).
Proof.
  intros Hmain Hbooks Hgenres. destruct (main_inv _ _ Hmain) as [rr Hrr].
  rewrite (main_ok _ _ Hrr) in Hmain. injection Hmain as <-.
  destruct (process_reviews_inv _ _ Hrr) as ((_ & _ & _ & Hdb & _) & _).
  set (st := rr_state rr) in *.
  assert (Hcap : kept_books_old st ∩ dom (book_id_map st) = kept_books_old st).
  { rewrite Hdb. apply set_eq. intros b. rewrite elem_of_intersection. tauto. }
  rewrite Hbooks, Hgenres, Hcap. cbn [books_csv genres_csv].
  unfold process_books, process_genres. cbn [fst snd].
  eexists rr, _, _. split_and!; [exact Hrr | reflexivity | reflexivity | |].
  - intros brow Hbrow [g Hg].
    apply list_elem_of_omap in Hbrow as (ln & _ & Hln).
    apply book_line_Some in Hln as (r & _ & Hk & Hmap & Hgen & Hsrc).
    rewrite Hsrc in Hg. fold (book_of r) in Hk, Hmap, Hgen.
    unfold load_genres in Hg, Hgen. cbn [fst] in Hg, Hgen.
    rewrite Hg in Hgen. simpl in Hgen.
    rewrite load_genres_dict_lookup in Hg.
    destruct (last (filter _ (genre_records genre_lines))) as [r'|] eqn:Hlast;
      [|discriminate].
    injection Hg as Hg.
    apply last_Some in Hlast as [l' Hl'].
    assert (Hr' : r' ∈ filter (λ r0, book_of r0 = book_of r)
                         (genre_records genre_lines)).
    { rewrite Hl'. apply elem_of_app. right. left. }
    apply list_elem_of_filter in Hr' as [Hb Hr'].
    apply genre_records_truthy in Hr' as [Hr' _].
    exists {| g_book_id := b_book_id brow;
              g_genre := join_field (genre_raw r') |}.
    split_and!; [|reflexivity|simpl; congruence].
    apply list_elem_of_omap. exists (Some r'). split; [exact Hr'|].
    unfold genre_line. fold (book_of r'). rewrite Hb.
    rewrite decide_True by exact Hk. now rewrite Hmap.
  - intros grow Hgrow.
    apply list_elem_of_omap in Hgrow as (ln & _ & Hln).
    apply genre_line_Some in Hln as (r & _ & Hk & Hmap).
    eauto.
Qed.

End books_output.

Lemma main_genres_consistent_witness :
  ∃ out books genres,
    ExtractFiles.main dataset_with_genres = Ok out ∧
    ExtractFiles.books_csv out = Some books ∧
    ExtractFiles.genres_csv out = Some genres ∧
    ∀ brow, brow ∈ books →
      is_Some ((ExtractFiles.load_genres
                  (ExtractFiles.genres_file dataset_with_genres)).1
               !! book_of (ExtractFiles.b_source brow)) →
      ∃ grow, grow ∈ genres ∧
        ExtractFiles.g_book_id grow = ExtractFiles.b_book_id brow ∧
        ExtractFiles.g_genre grow = ExtractFiles.b_genre brow.
Proof.
  destruct (process_reviews_total
              (ExtractFiles.reviews_file dataset_with_genres)) as [rr Hrr].
  { intros lines [= <-]. apply twenty_reviews_texts_ok. }
  pose proof (main_ok dataset_with_genres rr Hrr) as Hmain.
  destruct (main_genres_consistent dataset_with_genres _ _ _ Hmain
              eq_refl eq_refl)
    as (rr' & books & genres & _ & Hb & Hg & Hcons & _).
  eexists _, books, genres. split_and!; [exact Hmain | exact Hb | exact Hg |].
  exact Hcons.
Defined.

(** ** The record limits of [the_better_extract_files.py] *)

Section capped_exact.
Context {I R : Type} (cap : Z) (emit : I → pyres (option R)).

Lemma emitted_cons (item : I) (items : list I) :
  omap (emitted emit) (item :: items)
  = match emitted emit item with
    | Some row => row :: omap (emitted emit) items
    | None => omap (emitted emit) items
    end.
Proof. reflexivity. Qed.

(** A loop entered below the limit, over items whose body does not raise,
    appends the rows emitted for its items up to the limit. *)
Lemma capped_loop_exact (rows : list R) (total : Z) (items : list I) :
  total < cap →
  (∀ item, item ∈ items → ∃ o, emit item = Ok o) →
  let em := omap (emitted emit) items in
  let n := Z.to_nat (cap - total) in
  capped_loop cap emit rows total items
  = Ok (rows ++ take n em, total + Z.of_nat (length (take n em))).
Proof.
  revert rows total. induction items as [|item items IH];
    intros rows total Hlt Hok em n.
  - subst em. simpl. rewrite take_nil, app_nil_r. simpl. do 2 f_equal. lia.
  - destruct (Hok item) as [o Ho]; [left|].
    assert (Hok' : ∀ i, i ∈ items → ∃ o, emit i = Ok o).
    { intros i Hi. apply Hok. now right. }
    assert (Hem : emitted emit item = o) by (unfold emitted; now rewrite Ho).
    subst em. rewrite emitted_cons, Hem.
    cbn [capped_loop]. rewrite Ho. cbn [mbind pyres_bind].
    destruct o as [row|].
    + destruct (cap <=? total + 1) eqn:Hcap.
      * apply Z.leb_le in Hcap.
        assert (Hn : n = 1%nat) by (subst n; lia).
        rewrite Hn. cbn [take]. rewrite take_0. simpl. reflexivity.
      * apply Z.leb_gt in Hcap.
        rewrite (IH (rows ++ [row]) (total + 1) Hcap Hok').
        assert (Hn : n = S (Z.to_nat (cap - (total + 1)))) by (subst n; lia).
        rewrite Hn. cbn [take length]. rewrite <- app_assoc. simpl.
        do 2 f_equal. lia.
    + now apply IH.
Qed.

Lemma capped_sources_exact (rows : list R) (total : Z) (done : nat)
  (sources : list (list I)) :
  total < cap →
  (∀ item, item ∈ concat sources → ∃ o, emit item = Ok o) →
  let em := omap (emitted emit) (concat sources) in
  let n := Z.to_nat (cap - total) in
  ∃ done',
    capped_sources cap emit rows total done sources
    = Ok (rows ++ take n em, total + Z.of_nat (length (take n em)), done').
Proof.
  revert rows total done. induction sources as [|items sources IH];
    intros rows total done Hlt Hok em n.
  - exists done. subst em. simpl. rewrite take_nil, app_nil_r. simpl.
    do 3 f_equal. lia.
  - assert (Hok1 : ∀ i, i ∈ items → ∃ o, emit i = Ok o).
    { intros i Hi. apply Hok. simpl. apply elem_of_app. now left. }
    assert (Hok2 : ∀ i, i ∈ concat sources → ∃ o, emit i = Ok o).
    { intros i Hi. apply Hok. simpl. apply elem_of_app. now right. }
    cbn [capped_sources].
    rewrite (capped_loop_exact rows total items Hlt Hok1).
    cbn [mbind pyres_bind].
    subst em. cbn [concat]. rewrite omap_app.
    set (em1 := omap (emitted emit) items).
    set (em2 := omap (emitted emit) (concat sources)).
    fold n.
    destruct (cap <=? total + Z.of_nat (length (take n em1))) eqn:Hcap.
    + apply Z.leb_le in Hcap. exists (S done).
      assert (Hlen : (n ≤ length em1)%nat).
      { rewrite length_take in Hcap. subst n. lia. }
      rewrite take_app_le by exact Hlen. reflexivity.
    + apply Z.leb_gt in Hcap.
      assert (Hlen : (length em1 < n)%nat).
      { rewrite length_take in Hcap. subst n. lia. }
      rewrite (take_ge em1 n) in * by lia.
      destruct (IH (rows ++ em1) (total + Z.of_nat (length em1)) (S done)
                  Hcap Hok2) as [done' Hrest].
      exists done'. rewrite Hrest. fold em2.
      rewrite take_app_ge by lia.
      replace (Z.to_nat (cap - (total + Z.of_nat (length em1))))
        with (n - length em1)%nat by (subst n; lia).
      rewrite <- app_assoc, length_app, Nat2Z.inj_add, Z.add_assoc.
      reflexivity.
Qed.

End capped_exact.

Lemma review_emit_no_raise (ln : line) :
  (∀ r, ln = Some r → text_field_ok r = true) →
  ∃ o, BetterExtract.review_emit ln = Ok o.
Proof.
  intros Hok. unfold BetterExtract.review_emit.
  destruct ln as [r|]; [|eauto].
  destruct (py_eq0 _); [eauto|].
  destruct (text_field_ok_truncate r (Hok r eq_refl)) as [s ->].
  simpl. eauto.
Qed.

(** What the pass returns in terms of its loop body. *)
Lemma better_reviews_run (files : list (list line)) :
  files ≠ [] →
  texts_ok (concat files) →
  let rows :=
    take (Z.to_nat BetterExtract.MAX_REVIEWS)
         (omap (emitted BetterExtract.review_emit) (concat files)) in
  Z.of_nat (length rows) ≤ BetterExtract.MAX_REVIEWS ∧
  ∃ done,
    BetterExtract.process_reviews files
    = Ok (Some rows,
          replicate done BetterExtract.MsgFinishedReviews
          ++ [BetterExtract.MsgProcessedReviews (Z.of_nat (length rows))]).
Proof.
  intros Hfiles Hok rows. split.
  - subst rows. rewrite length_take. unfold BetterExtract.MAX_REVIEWS. lia.
  - unfold BetterExtract.process_reviews.
    destruct files as [|f0 files]; [contradiction|].
    destruct (capped_sources_exact BetterExtract.MAX_REVIEWS
                BetterExtract.review_emit [] 0 0%nat (f0 :: files))
      as [done Hrun].
    + unfold BetterExtract.MAX_REVIEWS. lia.
    + intros ln Hln. apply review_emit_no_raise. intros r ->. now apply Hok.
    + exists done. rewrite Hrun. cbn [mbind pyres_bind].
      rewrite Z.sub_0_r, Z.add_0_l, app_nil_l. reflexivity.
Qed.

Lemma rated_records_cons (ln : line) (lines : list line) :
  rated_records (ln :: lines)
  = match ln with
    | None => rated_records lines
    | Some r =>
        if py_eq0 (py_get r "rating" (JInt 0)) then rated_records lines
        else r :: rated_records lines
    end.
Proof.
  unfold rated_records.
  change (omap ?f (ln :: lines))
    with (match f ln with
          | Some y => y :: omap f lines
          | None => omap f lines
          end).
  destruct ln as [r|]; [|reflexivity].
  now destruct (py_eq0 (py_get r "rating" (JInt 0))).
Qed.

(** The loop body writes a row for exactly the rated records, with the
    fields of the record. *)
Lemma review_rows_match (lines : list line) :
  texts_ok lines →
  Forall2 better_row_matches (rated_records lines)
    (omap (emitted BetterExtract.review_emit) lines).
Proof.
  induction lines as [|ln lines IH]; intros Hok; [constructor|].
  assert (texts_ok lines) as Hok'.
  { intros r Hr. apply Hok. now right. }
  rewrite rated_records_cons, emitted_cons.
  destruct ln as [r|]; [|now apply IH].
  unfold emitted at 1. cbn [BetterExtract.review_emit].
  destruct (py_eq0 (py_get r "rating" (JInt 0))); [now apply IH|].
  destruct (text_field_ok_truncate r) as [s Hs]; [apply Hok; now left|].
  rewrite Hs. cbn [mbind pyres_bind]. constructor; [|now apply IH].
  unfold better_row_matches. cbn. now split_and!.
Qed.

(** X8.  [process_reviews] of [the_better_extract_files.py], on at least
    one review file whose [review_text] fields are texts, returns and
    writes one row for every rated record (it parses and its [rating] is
    not [== 0]) of all files in order, cut off after [MAX_REVIEWS] rows;
    a row carries the fields of its record, the text truncated to 1500
    characters; the count it reports is the number of rows written, which
    never exceeds [MAX_REVIEWS]. *)
Theorem better_reviews_capped (files : list (list line)) :
  files ≠ [] →
  texts_ok (concat files) →
  ∃ rows done,
    BetterExtract.process_reviews files
    = Ok (Some rows,
          replicate done BetterExtract.MsgFinishedReviews
          ++ [BetterExtract.MsgProcessedReviews (Z.of_nat (length rows))]) ∧
    Z.of_nat (length rows) ≤ BetterExtract.MAX_REVIEWS ∧
    Forall2 better_row_matches
      (take (Z.to_nat BetterExtract.MAX_REVIEWS) (rated_records (concat files)))
      rows.
Proof.
  intros Hfiles Hok.
  destruct (better_reviews_run files Hfiles Hok) as [Hle [done Hrun]].
  eexists _, done. split_and!; [exact Hrun | exact Hle |].
  apply Forall2_take. now apply review_rows_match.
Qed.

Lemma better_reviews_capped_witness :
  ∃ rows done,
    BetterExtract.process_reviews [three_review_lines]
    = Ok (Some rows,
          replicate done BetterExtract.MsgFinishedReviews
          ++ [BetterExtract.MsgProcessedReviews (Z.of_nat (length rows))]) ∧
    Z.of_nat (length rows) ≤ BetterExtract.MAX_REVIEWS ∧
    Forall2 better_row_matches
      (take (Z.to_nat BetterExtract.MAX_REVIEWS)
            (rated_records (concat [three_review_lines])))
      rows.
Proof.
  apply (better_reviews_capped [three_review_lines]).
  - discriminate.
  - intros r Hr. cbn [concat] in Hr. rewrite ?app_nil_r in Hr.
    unfold three_review_lines in Hr.
    repeat (apply elem_of_cons in Hr as [[= ->]|Hr]; [reflexivity|]).
    apply elem_of_cons in Hr as [Hr|Hr]; [discriminate | inversion Hr].
Defined.

Section interactions_exact.
Context {F : Type} (py_float : string → option F) (float_eq0 : F → bool).

Lemma csv_emit_no_raise (row : csv_row) :
  csv_row_ok row →
  ∃ o, BetterExtract.csv_emit py_float float_eq0 row = Ok o.
Proof.
  intros [Hdom Hrating].
  unfold BetterExtract.csv_emit, BetterExtract.csv_rating_is_zero.
  destruct (row !! "rating") as [[s|]|]; simpl; [| congruence | eauto].
  destruct (py_float s) as [f|]; simpl; [|eauto].
  destruct (float_eq0 f); [eauto|].
  rewrite decide_True by exact Hdom. eauto.
Qed.

Lemma json_emit_no_raise (ln : line) :
  ∃ o, BetterExtract.json_emit ln = Ok o.
Proof.
  unfold BetterExtract.json_emit. destruct ln as [r|]; [|eauto].
  destruct (py_eq0 _); eauto.
Qed.

(** What the pass returns in terms of its two loop bodies. *)
Lemma interactions_run (csv_files : list (list csv_row))
  (json_files : list (list line)) :
  (∀ row, row ∈ concat csv_files → csv_row_ok row) →
  let rows :=
    take (Z.to_nat BetterExtract.MAX_INTERACTIONS)
      (omap (emitted (BetterExtract.csv_emit py_float float_eq0))
            (concat csv_files)
       ++ omap (emitted BetterExtract.json_emit) (concat json_files)) in
  Z.of_nat (length rows) ≤ BetterExtract.MAX_INTERACTIONS ∧
  ∃ done,
    BetterExtract.process_interactions py_float float_eq0 csv_files json_files
    = Ok (rows,
          replicate done BetterExtract.MsgProcessedInteractionsFrom
          ++ [BetterExtract.MsgProcessedInteractions (Z.of_nat (length rows))]).
Proof.
  intros Hok rows. split.
  - subst rows. rewrite length_take. unfold BetterExtract.MAX_INTERACTIONS. lia.
  - unfold BetterExtract.process_interactions.
    set (cap := BetterExtract.MAX_INTERACTIONS) in *.
    assert (Hcap : 0 < cap) by (unfold cap, BetterExtract.MAX_INTERACTIONS; lia).
    set (em1 := omap (emitted (BetterExtract.csv_emit py_float float_eq0))
                  (concat csv_files)) in *.
    set (em2 := omap (emitted BetterExtract.json_emit) (concat json_files)) in *.
    destruct (capped_sources_exact cap
                (BetterExtract.csv_emit py_float float_eq0) [] 0 0%nat csv_files)
      as [done1 Hrun1]; [lia | |].
    { intros row Hrow. now apply csv_emit_no_raise, Hok. }
    rewrite Hrun1. cbn [mbind pyres_bind]. fold em1.
    rewrite Z.sub_0_r, Z.add_0_l, app_nil_l.
    destruct (Z.of_nat (length (take (Z.to_nat cap) em1)) <? cap) eqn:Hlt.
    + apply Z.ltb_lt in Hlt.
      assert (Hlen : (length em1 < Z.to_nat cap)%nat).
      { rewrite length_take in Hlt. lia. }
      rewrite (take_ge em1) in * by lia.
      destruct (capped_sources_exact cap BetterExtract.json_emit em1
                  (Z.of_nat (length em1)) 0%nat json_files)
        as [done2 Hrun2]; [lia | |].
      { intros ln _. apply json_emit_no_raise. }
      rewrite Hrun2. cbn [mbind pyres_bind]. fold em2.
      exists (done1 + done2)%nat. subst rows.
      rewrite take_app_ge by lia.
      replace (Z.to_nat (cap - Z.of_nat (length em1)))
        with (Z.to_nat cap - length em1)%nat by lia.
      rewrite length_app, Nat2Z.inj_add. reflexivity.
    + apply Z.ltb_ge in Hlt.
      assert (Hlen : (Z.to_nat cap ≤ length em1)%nat).
      { rewrite length_take in Hlt. lia. }
      cbn [mbind pyres_bind]. exists (done1 + 0)%nat. subst rows.
      rewrite take_app_le by exact Hlen. reflexivity.
Qed.

Lemma csv_rows_match (rows : list csv_row) :
  (∀ row, row ∈ rows → csv_row_ok row) →
  Forall2 written_matches
    (map inl (filter (λ row, csv_rated py_float float_eq0 row = true) rows))
    (omap (emitted (BetterExtract.csv_emit py_float float_eq0)) rows).
Proof.
  induction rows as [|row rows IH]; intros Hok; [constructor|].
  assert (∀ row', row' ∈ rows → csv_row_ok row') as Hok'.
  { intros row' Hr. apply Hok. now right. }
  destruct (Hok row) as [Hdom Hrating]; [now left|].
  rewrite emitted_cons.
  assert (emitted (BetterExtract.csv_emit py_float float_eq0) row
          = if csv_rated py_float float_eq0 row
            then Some (BetterExtract.FromCsv row) else None) as ->.
  { unfold emitted, BetterExtract.csv_emit, BetterExtract.csv_rating_is_zero,
      csv_rated.
    destruct (row !! "rating") as [[s|]|]; cbn [mbind pyres_bind];
      [| congruence | reflexivity].
    destruct (py_float s) as [f|]; cbn [mbind pyres_bind]; [|reflexivity].
    destruct (float_eq0 f); cbn [negb]; [reflexivity|].
    now rewrite decide_True by exact Hdom. }
  destruct (csv_rated py_float float_eq0 row) eqn:Hr.
  - rewrite filter_cons_True by exact Hr. cbn [map].
    constructor; [reflexivity | now apply IH].
  - rewrite filter_cons_False by (rewrite Hr; discriminate). now apply IH.
Qed.

Lemma json_rows_match (lines : list line) :
  Forall2 written_matches (map inr (rated_records lines))
    (omap (emitted BetterExtract.json_emit) lines).
Proof.
  induction lines as [|ln lines IH]; [constructor|].
  rewrite rated_records_cons, emitted_cons.
  destruct ln as [r|]; [|exact IH].
  unfold emitted at 1. cbn [BetterExtract.json_emit].
  destruct (py_eq0 (py_get r "rating" (JInt 0))); [exact IH|].
  cbn [map]. constructor; [|exact IH]. cbn. now split_and!.
Qed.

(** X9.  [process_interactions], on CSV sources whose rows have only the
    output columns and no missing rating cell, returns and writes the
    rated rows of the CSV sources (the rating cell reads as a number
    that is not zero), unchanged, followed by one row for every rated
    record of the JSON sources with the fields of the record, the whole
    in source order and cut off after [MAX_INTERACTIONS] rows; the count
    it reports is the number of rows written. *)
Theorem interactions_capped (csv_files : list (list csv_row))
  (json_files : list (list line)) :
  (∀ row, row ∈ concat csv_files → csv_row_ok row) →
  ∃ rows done,
    BetterExtract.process_interactions py_float float_eq0 csv_files json_files
    = Ok (rows,
          replicate done BetterExtract.MsgProcessedInteractionsFrom
          ++ [BetterExtract.MsgProcessedInteractions (Z.of_nat (length rows))]) ∧
    Z.of_nat (length rows) ≤ BetterExtract.MAX_INTERACTIONS ∧
    Forall2 written_matches
      (take (Z.to_nat BetterExtract.MAX_INTERACTIONS)
            (rated_interactions py_float float_eq0 csv_files json_files))
      rows.
Proof.
  intros Hok.
  destruct (interactions_run csv_files json_files Hok) as [Hle [done Hrun]].
  eexists _, done. split_and!; [exact Hrun | exact Hle |].
  apply Forall2_take, Forall2_app; [now apply csv_rows_match|].
  apply json_rows_match.
Qed.

End interactions_exact.

Lemma interactions_capped_witness :
  ∃ rows done,
    BetterExtract.process_interactions toy_float (Z.eqb 0)
      [[one_interaction_row]] [three_review_lines]
    = Ok (rows,
          replicate done BetterExtract.MsgProcessedInteractionsFrom
          ++ [BetterExtract.MsgProcessedInteractions (Z.of_nat (length rows))]) ∧
    Z.of_nat (length rows) ≤ BetterExtract.MAX_INTERACTIONS ∧
    Forall2 written_matches
      (take (Z.to_nat BetterExtract.MAX_INTERACTIONS)
            (rated_interactions toy_float (Z.eqb 0)
               [[one_interaction_row]] [three_review_lines]))
      rows.
Proof.
  apply (interactions_capped toy_float (Z.eqb 0)
           [[one_interaction_row]] [three_review_lines]).
  intros row Hrow. simpl in Hrow.
  apply elem_of_cons in Hrow as [->|Hrow]; [|inversion Hrow].
  split; [|discriminate].
  refine (bool_decide_unpack _ _). vm_compute. exact I.
Defined.

(** ** Insertion-ordered dictionaries with any values *)

Section odict_facts.
Context {K V : Type} `{EqDecision K}.
Implicit Types (m : list (K * V)) (k : K) (v : V).

Lemma odict_lookup_set m k k' v :
  dict_lookup k' (dict_set k v m)
  = if decide (k = k') then Some v else dict_lookup k' m.
Proof.
  induction m as [|[k0 v0] m IH]; simpl.
  - destruct (decide (k = k')); reflexivity.
  - destruct (decide (k0 = k)) as [->|Hne]; simpl.
    + destruct (decide (k = k')); reflexivity.
    + destruct (decide (k0 = k')) as [->|Hne'].
      * destruct (decide (k = k')); [congruence | reflexivity].
      * apply IH.
Qed.

Lemma odict_lookup_None m k : dict_lookup k m = None ↔ k ∉ map fst m.
Proof.
  induction m as [|[k0 v0] m IH]; simpl.
  - split; [intros _; apply not_elem_of_nil | reflexivity].
  - rewrite not_elem_of_cons. destruct (decide (k0 = k)) as [->|Hne].
    + split; [discriminate | intros [? _]; congruence].
    + rewrite IH. split; [intros ?; split; [congruence | assumption] | tauto].
Qed.

Lemma odict_lookup_Some m k v :
  NoDup (map fst m) → (dict_lookup k m = Some v ↔ (k, v) ∈ m).
Proof.
  induction m as [|[k0 v0] m IH]; simpl; intros Hnd.
  - split; [discriminate | intros Hin; inversion Hin].
  - apply NoDup_cons in Hnd as [Hk0 Hnd]. rewrite elem_of_cons.
    destruct (decide (k0 = k)) as [->|Hne].
    + split; [intros [= ->]; now left|].
      intros [[= ->]|Hin]; [reflexivity|].
      exfalso. apply Hk0. apply (list_elem_of_fmap_2 fst) in Hin. exact Hin.
    + rewrite (IH Hnd). split; [now right|].
      intros [[= -> ->]|Hin]; [congruence | assumption].
Qed.

Lemma odict_set_keys m k v :
  map fst (dict_set k v m)
  = match dict_lookup k m with
    | Some _ => map fst m
    | None => map fst m ++ [k]
    end.
Proof.
  induction m as [|[k0 v0] m IH]; simpl; [reflexivity|].
  destruct (decide (k0 = k)) as [->|Hne]; simpl; [reflexivity|].
  rewrite IH. now destruct (dict_lookup k m).
Qed.

Lemma odict_set_length_new m k v :
  dict_lookup k m = None → length (dict_set k v m) = S (length m).
Proof.
  intros Hk. rewrite <- (length_map fst), odict_set_keys, Hk.
  rewrite length_app, length_map. simpl. lia.
Qed.

(** Reading back what was stored, and only that changes. *)
Lemma odict_set_elem m k k' v v' :
  NoDup (map fst m) →
  (k', v') ∈ dict_set k v m ↔
  (k' = k ∧ v' = v) ∨ (k' ≠ k ∧ (k', v') ∈ m).
Proof.
  intros Hnd.
  assert (Hnd' : NoDup (map fst (dict_set k v m))).
  { rewrite odict_set_keys. destruct (dict_lookup k m) eqn:Hk; [exact Hnd|].
    apply NoDup_app. split_and!; [exact Hnd | | apply NoDup_singleton].
    intros x Hx ->%list_elem_of_singleton.
    now apply odict_lookup_None in Hk. }
  rewrite <- (odict_lookup_Some _ _ _ Hnd'), odict_lookup_set.
  rewrite <- (odict_lookup_Some _ _ _ Hnd).
  destruct (decide (k = k')) as [->|Hne].
  - split; [intros [= ->]; now left|].
    intros [[_ ->]|[Hne _]]; [reflexivity | congruence].
  - split; [intros Hl; right; split; [congruence | exact Hl]|].
    intros [[-> _]|[_ Hl]]; [congruence | exact Hl].
Qed.

End odict_facts.

(** ** The author table of [the_better_extract_files.py] *)

Section authors_facts.
Import BetterExtract.
Implicit Types (pl lines : list line) (seen : list (jval * author_row)).

Lemma author_stream_snoc pl (ln : line) :
  author_stream (pl ++ [ln])
  = author_stream pl ++
    match ln with
    | Some r => if truthy (author_of r) then [author_of r] else []
    | None => []
    end.
Proof.
  unfold author_stream. rewrite omap_app. f_equal.
  destruct ln as [r|]; [|reflexivity].
  change (omap ?f [Some r]) with
    (match f (Some r) with Some y => [y] | None => [] end).
  simpl. now destruct (truthy (author_of r)).
Qed.

Lemma author_stream_elem pl (k : jval) :
  k ∈ author_stream pl ↔
  ∃ r, Some r ∈ pl ∧ author_of r = k ∧ truthy k = true.
Proof.
  unfold author_stream. rewrite list_elem_of_omap. split.
  - intros ([r|] & Hin & Hf); [|discriminate].
    destruct (truthy (author_of r)) eqn:Ht; [|discriminate].
    injection Hf as <-. eauto.
  - intros (r & Hin & <- & Ht). exists (Some r). now rewrite Ht.
Qed.

Lemma first_record_wins_app pl lines (k : jval) (row : author_row) :
  first_record_wins pl k row → first_record_wins (pl ++ lines) k row.
Proof.
  intros (Hid & l1 & r & l2 & -> & H1 & H2 & H3 & H4 & H5).
  split; [exact Hid|]. exists l1, r, (l2 ++ lines).
  split_and!; try assumption. now rewrite <- app_assoc.
Qed.

Lemma string_app_assoc (a b c : string) :
  (a +:+ b) +:+ c = a +:+ (b +:+ c).
Proof.
  induction a as [|x a IH]; [reflexivity|].
  change (String x ((a +:+ b) +:+ c) = String x (a +:+ (b +:+ c))).
  now rewrite IH.
Qed.

(** A line that is unparseable or has a falsy author changes nothing. *)
Lemma authors_inv_skip pl seen (ln : line) :
  authors_inv pl seen →
  (∀ r, ln = Some r → truthy (author_of r) = false) →
  authors_inv (pl ++ [ln]) seen.
Proof.
  intros (Hnd & Hkeys & Hord & Hrows) Hln.
  assert (Hs : author_stream (pl ++ [ln]) = author_stream pl).
  { rewrite author_stream_snoc. destruct ln as [r|]; [|apply app_nil_r].
    rewrite (Hln r eq_refl). apply app_nil_r. }
  unfold authors_inv. rewrite Hs. split_and!; try assumption.
  intros k row Hin. now apply first_record_wins_app, Hrows.
Qed.

(** A further record of an author that has a row already. *)
Lemma authors_inv_repeat pl seen (r : record) :
  authors_inv pl seen →
  truthy (author_of r) = true →
  author_of r ∈ map fst seen →
  authors_inv (pl ++ [Some r]) seen.
Proof.
  intros (Hnd & Hkeys & Hord & Hrows) Ht Hin.
  assert (Hs : author_stream (pl ++ [Some r]) = author_stream pl ++ [author_of r]).
  { rewrite author_stream_snoc. now rewrite Ht. }
  unfold authors_inv. rewrite Hs. split_and!.
  - exact Hnd.
  - intros k. rewrite elem_of_app, list_elem_of_singleton, <- Hkeys.
    split; [tauto|]. intros [?| ->]; assumption.
  - intros u v Hsub. now apply seen_before_app, Hord.
  - intros k row Hrow. now apply first_record_wins_app, Hrows.
Qed.

(** The first record of an author: a row is appended. *)
Lemma authors_inv_new pl seen (r : record) :
  authors_inv pl seen →
  truthy (author_of r) = true →
  dict_lookup (author_of r) seen = None →
  authors_inv (pl ++ [Some r])
    (dict_set (author_of r)
       {| author_id := author_of r;
          name := py_get r "name" (JStr "");
          role := py_get r "role" (JStr "");
          books := py_get r "book_id" (JStr "") |} seen).
Proof.
  intros (Hnd & Hkeys & Hord & Hrows) Ht Hnone.
  assert (Hs : author_stream (pl ++ [Some r]) = author_stream pl ++ [author_of r]).
  { rewrite author_stream_snoc. now rewrite Ht. }
  assert (Hfresh : author_of r ∉ map fst seen) by now apply odict_lookup_None.
  assert (Hfresh' : author_of r ∉ author_stream pl) by now rewrite <- Hkeys.
  unfold authors_inv. rewrite Hs, odict_set_keys, Hnone. split_and!.
  - apply NoDup_app. split_and!; [exact Hnd | | apply NoDup_singleton].
    intros x Hx ->%list_elem_of_singleton. contradiction.
  - intros k. rewrite !elem_of_app, Hkeys. reflexivity.
  - intros u v Hsub.
    apply sublist_app_r in Hsub as (l1 & l2 & Heq & Hs1 & Hs2).
    apply sublist_cons_r in Hs2 as [Hs2|(l' & -> & Hs2)].
    + apply sublist_nil_r in Hs2 as ->. rewrite app_nil_r in Heq. subst l1.
      now apply seen_before_app, Hord.
    + apply sublist_nil_r in Hs2 as ->.
      destruct l1 as [|a [|b l1]]; simpl in Heq; try discriminate;
        [|apply (f_equal length) in Heq; simpl in Heq;
          rewrite length_app in Heq; simpl in Heq; lia].
      injection Heq as -> ->.
      apply singleton_sublist_l in Hs1. rewrite Hkeys in Hs1.
      destruct (list_elem_of_split_l _ _ Hs1) as (k1 & k2 & Hk & Hnin).
      exists k1, (k2 ++ [author_of r]). split_and!.
      * rewrite Hk, <- app_assoc. reflexivity.
      * exact Hnin.
      * intros Hin. apply Hfresh'. rewrite Hk. apply elem_of_app. now left.
      * intros ->. contradiction.
  - intros k row Hin. apply (odict_set_elem _ _ _ _ _ Hnd) in Hin
      as [[-> ->]|[Hne Hin]].
    + split; [reflexivity|]. exists pl, r, []. simpl.
      split_and!; try reflexivity.
      * intros r' Hr' Heq. apply Hfresh'. apply author_stream_elem.
        exists r'. split_and!; [exact Hr' | exact Heq | exact Ht].
      * now left.
    + now apply first_record_wins_app, Hrows.
Qed.

(** A later record whose book is appended to the row of its author. *)
Lemma authors_inv_update pl seen (k : jval) (existing existing' : author_row) :
  authors_inv pl seen →
  dict_lookup k seen = Some existing →
  author_id existing' = author_id existing →
  name existing' = name existing →
  role existing' = role existing →
  (∃ s rest, books existing = JStr s ∧ books existing' = JStr (s +:+ rest)) →
  authors_inv pl (dict_set k existing' seen).
Proof.
  intros (Hnd & Hkeys & Hord & Hrows) Hex Hid Hname Hrole
    (s & rest & Hb & Hb').
  unfold authors_inv. rewrite odict_set_keys, Hex. split_and!; try assumption.
  intros k' row Hin. apply (odict_set_elem _ _ _ _ _ Hnd) in Hin
    as [[-> ->]|[Hne Hin]]; [|now apply Hrows].
  apply (odict_lookup_Some _ _ _ Hnd) in Hex.
  destruct (Hrows _ _ Hex) as (Hid0 & l1 & r & l2 & Hpl & Ha & Hl1 & Hn & Hr & Hbk).
  split; [congruence|]. exists l1, r, l2.
  split_and!; try assumption; try congruence.
  destruct Hbk as [Heq|(s0 & rest0 & Hfirst & Hfin)].
  - right. exists s, rest. split; congruence.
  - right. exists s0, (rest0 +:+ rest). split; [exact Hfirst|].
    rewrite Hb'. rewrite Hb in Hfin. injection Hfin as ->.
    f_equal. apply string_app_assoc.
Qed.

Lemma append_book_spec (existing existing' : author_row) (book_id : jval) :
  append_book existing book_id = Ok existing' →
  author_id existing' = author_id existing ∧
  name existing' = name existing ∧
  role existing' = role existing ∧
  ∃ s rest, books existing = JStr s ∧ books existing' = JStr (s +:+ rest).
Proof.
  unfold append_book. destruct (books existing) as [|z|s] eqn:Hb;
    try discriminate.
  intros [= <-]. simpl. split_and!; try reflexivity. eauto.
Qed.

Lemma app_snoc_cons {A : Type} (l1 : list A) (x : A) (l2 : list A) :
  (l1 ++ [x]) ++ l2 = l1 ++ x :: l2.
Proof. now rewrite <- app_assoc. Qed.

(** The loop of [process_authors], entered below the limit. *)
Lemma authors_loop_spec lines pl seen (count : Z)
  (out : list (jval * author_row)) :
  authors_inv pl seen →
  count = Z.of_nat (length seen) →
  count < MAX_AUTHORS →
  authors_loop seen count lines = Ok out →
  ∃ pl' rest,
    pl ++ lines = pl' ++ rest ∧
    authors_inv pl' out ∧
    Z.of_nat (length out) ≤ MAX_AUTHORS ∧
    (Z.of_nat (length out) < MAX_AUTHORS → rest = []).
Proof.
  revert pl seen count.
  induction lines as [|ln lines IH]; intros pl seen count Hinv Hcount Hlt Hloop.
  - injection Hloop as <-. exists pl, []. split_and!; try done. lia.
  - destruct ln as [r|].
    2:{ simpl in Hloop.
        destruct (IH (pl ++ [None]) seen count) as (pl' & rest & Heq & Hpost);
          try assumption.
        - apply authors_inv_skip; [exact Hinv | discriminate].
        - exists pl', rest. split; [|exact Hpost].
          now rewrite <- Heq, app_snoc_cons. }
    simpl in Hloop. fold (author_of r) in Hloop.
    destruct (truthy (author_of r)) eqn:Ht; simpl in Hloop.
    2:{ destruct (IH (pl ++ [Some r]) seen count) as (pl' & rest & Heq & Hpost);
          try assumption.
        - apply authors_inv_skip; [exact Hinv|]. now intros r' [= <-].
        - exists pl', rest. split; [|exact Hpost].
          now rewrite <- Heq, app_snoc_cons. }
    destruct (dict_lookup (author_of r) seen) as [existing|] eqn:Hex.
    + assert (Hin : author_of r ∈ map fst seen).
      { destruct (decide (author_of r ∈ map fst seen)) as [|Hn]; [assumption|].
        apply odict_lookup_None in Hn. congruence. }
      pose proof (authors_inv_repeat _ _ _ Hinv Ht Hin) as Hinv1.
      assert (Hsame : authors_loop seen count lines = Ok out →
        ∃ pl' rest, pl ++ Some r :: lines = pl' ++ rest ∧
          authors_inv pl' out ∧ Z.of_nat (length out) ≤ MAX_AUTHORS ∧
          (Z.of_nat (length out) < MAX_AUTHORS → rest = [])).
      { intros Hloop0.
        destruct (IH (pl ++ [Some r]) seen count Hinv1 Hcount Hlt Hloop0)
          as (pl' & rest & Heq & Hpost).
        exists pl', rest. split; [|exact Hpost].
        now rewrite <- Heq, app_snoc_cons. }
      destruct (truthy (py_get r "book_id" (JStr ""))); [|now apply Hsame].
      destruct (py_in _ _) as [present|e]; simpl in Hloop; [|discriminate].
      destruct present; [now apply Hsame|].
      destruct (append_book existing _) as [existing'|e] eqn:Happ;
        simpl in Hloop; [|discriminate].
      apply append_book_spec in Happ as (Hid & Hname & Hrole & Hbooks).
      pose proof (authors_inv_update _ _ _ _ _ Hinv1 Hex Hid Hname Hrole Hbooks)
        as Hinv2.
      destruct (IH (pl ++ [Some r]) _ count Hinv2) as (pl' & rest & Heq & Hpost);
        try assumption.
      * rewrite Hcount. rewrite <- !(length_map fst), odict_set_keys, Hex.
        reflexivity.
      * exists pl', rest. split; [|exact Hpost].
        now rewrite <- Heq, app_snoc_cons.
    + pose proof (authors_inv_new _ _ _ Hinv Ht Hex) as Hinv1.
      set (seen' := dict_set (author_of r) _ seen) in *.
      assert (Hlen : Z.of_nat (length seen') = count + 1).
      { unfold seen'. rewrite odict_set_length_new by exact Hex. lia. }
      destruct (MAX_AUTHORS <=? count + 1) eqn:Hcap.
      * injection Hloop as <-. apply Z.leb_le in Hcap.
        exists (pl ++ [Some r]), lines. split_and!.
        -- now rewrite app_snoc_cons.
        -- exact Hinv1.
        -- lia.
        -- lia.
      * apply Z.leb_gt in Hcap.
        destruct (IH (pl ++ [Some r]) seen' (count + 1) Hinv1)
          as (pl' & rest & Heq & Hpost); try assumption; [lia|].
        exists pl', rest. split; [|exact Hpost].
        now rewrite <- Heq, app_snoc_cons.
Qed.

Lemma authors_inv_nil : authors_inv [] [].
Proof.
  unfold authors_inv. simpl. split_and!.
  - constructor.
  - reflexivity.
  - intros u v Hsub. apply sublist_length in Hsub. simpl in Hsub. lia.
  - intros k row Hin. inversion Hin.
Qed.

(** X10.  When [process_authors] returns, [authors.csv] has one row per
    author, at most [MAX_AUTHORS] rows, in the order in which the authors
    first occur in the source; the [name] and [role] of a row are those of
    the first record of its author, and its [books] field starts with the
    [book_id] of that record (first seen wins).  Below the limit every
    author of the source has a row. *)
Theorem authors_first_seen (lines : list line) (rows : list author_row)
  (log : list msg) :
  process_authors (Some lines) = Ok (Some rows, log) →
  NoDup (map author_id rows) ∧
  Z.of_nat (length rows) ≤ MAX_AUTHORS ∧
  log = [MsgProcessedAuthors (Z.of_nat (length rows))] ∧
  (∀ row, row ∈ rows →
     truthy (author_id row) = true ∧
     first_record_wins lines (author_id row) row) ∧
  (∀ a b, [a; b] `sublist_of` rows →
     seen_before (author_stream lines) (author_id a) (author_id b)) ∧
  (Z.of_nat (length rows) < MAX_AUTHORS →
   ∀ k, k ∈ author_stream lines → ∃ row, row ∈ rows ∧ author_id row = k).
Proof.
  unfold process_authors.
  destruct (authors_loop [] 0 lines) as [out|e] eqn:Hloop; simpl;
    [|discriminate].
  intros [= <- <-].
  destruct (authors_loop_spec lines [] [] 0 out authors_inv_nil eq_refl)
    as (pl' & rest & Heq & (Hnd & Hkeys & Hord & Hrows) & Hle & Hfull);
    [unfold MAX_AUTHORS; lia | exact Hloop |].
  simpl in Heq. subst lines.
  assert (Hids : map author_id (map snd out) = map fst out).
  { rewrite map_map. apply map_ext_in. intros [k row] Hin. simpl.
    apply list_elem_of_In in Hin. now destruct (Hrows _ _ Hin) as [-> _]. }
  rewrite length_map.
  split_and!.
  - now rewrite Hids.
  - exact Hle.
  - reflexivity.
  - intros row Hrow. apply list_elem_of_fmap in Hrow as ([k row'] & -> & Hin).
    simpl. pose proof (Hrows _ _ Hin) as Hwin.
    destruct Hwin as [Hid Hrest]. rewrite Hid. split.
    + assert (Hk : k ∈ author_stream pl').
      { apply Hkeys. apply list_elem_of_fmap. exists (k, row'). now split. }
      now apply author_stream_elem in Hk as (r & _ & _ & Ht).
    + apply first_record_wins_app. now split.
  - intros a b Hsub.
    apply (fmap_sublist author_id) in Hsub. simpl in Hsub.
    change (fmap author_id (map snd out)) with (map author_id (map snd out))
      in Hsub.
    rewrite Hids in Hsub. apply Hord in Hsub.
    unfold author_stream. rewrite omap_app. now apply seen_before_app.
  - intros Hlt k Hk. rewrite (Hfull Hlt), app_nil_r in Hk.
    apply Hkeys in Hk. apply list_elem_of_fmap in Hk as ([k' row] & -> & Hin).
    exists row. split.
    + apply list_elem_of_fmap. exists (k', row). now split.
    + simpl. now destruct (Hrows _ _ Hin) as [-> _].
Qed.

Lemma authors_first_seen_witness :
  ∃ rows log,
    process_authors (Some [Some author_book_12; Some author_book_123])
    = Ok (Some rows, log) ∧
    NoDup (map author_id rows) ∧
    ∀ row, row ∈ rows →
      first_record_wins [Some author_book_12; Some author_book_123]
        (author_id row) row.
Proof.
  eexists _, _. split; [vm_compute; reflexivity|].
  split;
    apply (authors_first_seen [Some author_book_12; Some author_book_123]
             _ _ eq_refl).
Defined.

End authors_facts.

(** ** The filters of [sample.py] *)

Section sample_facts.
Import Sample.
Context (strip : string → string).

Lemma cell_Ok (row : csv_row) (k : string) :
  has_cell k row → ∃ s, cell strip row k = Ok s.
Proof.
  unfold has_cell, cell. destruct (row !! k) as [[s|]|]; eauto. congruence.
Qed.

Lemma filter_rows_spec (keep : csv_row → pyres (option csv_row))
  (rows out : list csv_row) :
  filter_rows keep rows = Ok out →
  out = omap (emitted keep) rows ∧
  ∀ row, row ∈ rows → ∃ o, keep row = Ok o.
Proof.
  revert out. induction rows as [|row rows IH]; intros out; simpl.
  - intros [= <-]. split; [reflexivity|]. intros row Hrow. inversion Hrow.
  - destruct (keep row) as [o|e] eqn:Hk; simpl; [|discriminate].
    destruct (filter_rows keep rows) as [out'|e]; simpl; [|discriminate].
    intros [= <-]. destruct (IH _ eq_refl) as [-> Hall].
    split.
    + change (omap (emitted keep) (row :: rows)) with
        (match emitted keep row with
         | Some y => y :: omap (emitted keep) rows
         | None => omap (emitted keep) rows
         end).
      assert (emitted keep row = o) as -> by (unfold emitted; now rewrite Hk).
      now destruct o.
    + intros row' [->|Hin]%elem_of_cons; [eauto | now apply Hall].
Qed.

Lemma filter_rows_elem (keep : csv_row → pyres (option csv_row))
  (rows out : list csv_row) (row' : csv_row) :
  filter_rows keep rows = Ok out →
  row' ∈ out ↔ ∃ row, row ∈ rows ∧ keep row = Ok (Some row').
Proof.
  intros Hf. destruct (filter_rows_spec _ _ _ Hf) as [-> Hall].
  rewrite list_elem_of_omap. split.
  - intros (row & Hin & Hem). exists row. split; [exact Hin|].
    unfold emitted in Hem. destruct (keep row) as [o|e]; [|discriminate].
    now subst o.
  - intros (row & Hin & Hk). exists row. split; [exact Hin|].
    unfold emitted. now rewrite Hk.
Qed.

Lemma filter_table_Some (t : table) (keep : csv_row → pyres (option csv_row))
  (input : option (list csv_row)) (out : list csv_row) (lg : list msg) :
  filter_table t keep input = Ok (Some out, lg) →
  ∃ rows, input = Some rows ∧ filter_rows keep rows = Ok out ∧
          lg = [MsgFiltered t (Z.of_nat (length rows)) (Z.of_nat (length out))].
Proof.
  unfold filter_table. destruct input as [rows|]; [|discriminate].
  destruct (filter_rows keep rows) as [out'|e] eqn:Hf; simpl; [|discriminate].
  intros [= <- <-]. exists rows. split_and!; [reflexivity | exact Hf | reflexivity].
Qed.

Lemma filter_table_None (t : table) (keep : csv_row → pyres (option csv_row))
  (input : option (list csv_row)) (lg : list msg) :
  filter_table t keep input = Ok (None, lg) →
  input = None ∧ lg = [MsgSkipping t].
Proof.
  unfold filter_table. destruct input as [rows|].
  - destruct (filter_rows keep rows) as [out'|e]; simpl; discriminate.
  - now intros [= <-].
Qed.

(** The identifiers that the first loop of [main] collects. *)
Lemma collect_kept_spec (ku kb ku' kb' : gset string) (rows : list csv_row) :
  collect_kept strip ku kb rows = Ok (ku', kb') →
  (∀ u, u ∈ ku' ↔ u ∈ ku ∨
     (u ≠ "" ∧ ∃ row, row ∈ rows ∧ cell strip row "user_id" = Ok u)) ∧
  (∀ b, b ∈ kb' ↔ b ∈ kb ∨
     (b ≠ "" ∧ ∃ row, row ∈ rows ∧ cell strip row "book_id" = Ok b)) ∧
  (∀ row, row ∈ rows →
     ∃ u b, cell strip row "user_id" = Ok u ∧ cell strip row "book_id" = Ok b).
Proof.
  revert ku kb. induction rows as [|row rows IH]; intros ku kb; simpl.
  - intros [= <- <-]. split_and!.
    + intros u. split; [tauto|]. intros [?|(_ & row & Hin & _)];
        [assumption | inversion Hin].
    + intros b. split; [tauto|]. intros [?|(_ & row & Hin & _)];
        [assumption | inversion Hin].
    + intros row Hin. inversion Hin.
  - destruct (cell strip row "user_id") as [u0|e] eqn:Hu; simpl; [|discriminate].
    destruct (cell strip row "book_id") as [b0|e] eqn:Hb; simpl; [|discriminate].
    intros Hrest. destruct (IH _ _ Hrest) as (Husers & Hbooks & Hcells).
    split_and!.
    + intros u. rewrite Husers. split.
      * intros [Hin|(Hne & row' & Hin & Hc)].
        -- destruct (String.eqb_spec u0 "") as [->|Hu0]; [now left|].
           apply elem_of_union in Hin as [Hin| ->%elem_of_singleton];
             [now left|].
           right. split; [exact Hu0|]. exists row. split; [left | exact Hu].
        -- right. split; [exact Hne|]. exists row'. split; [now right | exact Hc].
      * intros [Hin|(Hne & row' & [->|Hin]%elem_of_cons & Hc)].
        -- left. destruct (String.eqb u0 ""); [exact Hin|].
           apply elem_of_union. now left.
        -- left. rewrite Hu in Hc. injection Hc as ->.
           destruct (String.eqb_spec u ""); [contradiction|].
           apply elem_of_union. right. now apply elem_of_singleton.
        -- right. eauto.
    + intros b. rewrite Hbooks. split.
      * intros [Hin|(Hne & row' & Hin & Hc)].
        -- destruct (String.eqb_spec b0 "") as [->|Hb0]; [now left|].
           apply elem_of_union in Hin as [Hin| ->%elem_of_singleton];
             [now left|].
           right. split; [exact Hb0|]. exists row. split; [left | exact Hb].
        -- right. split; [exact Hne|]. exists row'. split; [now right | exact Hc].
      * intros [Hin|(Hne & row' & [->|Hin]%elem_of_cons & Hc)].
        -- left. destruct (String.eqb b0 ""); [exact Hin|].
           apply elem_of_union. now left.
        -- left. rewrite Hb in Hc. injection Hc as ->.
           destruct (String.eqb_spec b ""); [contradiction|].
           apply elem_of_union. right. now apply elem_of_singleton.
        -- right. eauto.
    + intros row' [->|Hin]%elem_of_cons; [eauto | now apply Hcells].
Qed.

(** What [main] does once [reviews.csv] is there and the run returns. *)
Lemma sample_main_inv (ts : tables) (rows : list csv_row) (out : run) :
  reviews_csv ts = Some rows →
  main strip ts = Ok out →
  ∃ ku kb oi li ob lb oa la ou lu orr lr,
    collect_kept strip ∅ ∅ rows = Ok (ku, kb) ∧
    filter_interactions strip (interactions_csv ts) ku kb = Ok (oi, li) ∧
    filter_books strip (books_csv ts) kb = Ok (ob, lb) ∧
    filter_authors strip (authors_csv ts) kb = Ok (oa, la) ∧
    filter_users strip (users_csv ts) ku = Ok (ou, lu) ∧
    filter_reviews strip (Some rows) ku kb = Ok (orr, lr) ∧
    out = {| log := [MsgFound (Z.of_nat (size ku)) (Z.of_nat (size kb))]
                    ++ li ++ lb ++ la ++ lu ++ lr ++ [MsgDone];
             output := {| interactions_csv := oi; books_csv := ob;
                          authors_csv := oa; users_csv := ou;
                          reviews_csv := orr |} |}.
Proof.
  unfold main. intros ->.
  destruct (collect_kept strip ∅ ∅ rows) as [[ku kb]|e] eqn:Hc;
    cbn [mbind pyres_bind]; [|discriminate].
  destruct (filter_interactions strip _ ku kb) as [[oi li]|e] eqn:Hi;
    cbn [mbind pyres_bind]; [|discriminate].
  destruct (filter_books strip _ kb) as [[ob lb]|e] eqn:Hb;
    cbn [mbind pyres_bind]; [|discriminate].
  destruct (filter_authors strip _ kb) as [[oa la]|e] eqn:Ha;
    cbn [mbind pyres_bind]; [|discriminate].
  destruct (filter_users strip _ ku) as [[ou lu]|e] eqn:Hu;
    cbn [mbind pyres_bind]; [|discriminate].
  destruct (filter_reviews strip (Some rows) ku kb) as [[orr lr]|e] eqn:Hr;
    cbn [mbind pyres_bind]; [|discriminate].
  intros [= <-].
  exists ku, kb, oi, li, ob, lb, oa, la, ou, lu, orr, lr.
  split_and!; first [assumption | reflexivity].
Qed.

End sample_facts.

(** [split] and [join] on one separator. *)
Section split_join.
Import Sample.
Context (sep : ascii).

Lemma split_on_nonempty (s : string) : split_on sep s ≠ [].
Proof.
  destruct s as [|c s]; cbn [split_on]; [discriminate|].
  destruct (Ascii.eqb c sep); [discriminate|].
  destruct (split_on sep s); discriminate.
Qed.

Lemma concat_cons (x : string) (l : list string) :
  l ≠ [] →
  String.concat (String sep "") (x :: l)
  = x +:+ String sep (String.concat (String sep "") l).
Proof. destruct l; [congruence | reflexivity]. Qed.

Lemma join_split (s : string) :
  String.concat (String sep "") (split_on sep s) = s.
Proof.
  induction s as [|c s IH]; [reflexivity|]. cbn [split_on].
  destruct (Ascii.eqb_spec c sep) as [->|Hne].
  - rewrite concat_cons by apply split_on_nonempty. now rewrite IH.
  - destruct (split_on sep s) as [|w ws] eqn:Hs;
      [now destruct (split_on_nonempty s)|].
    destruct ws as [|w' ws'].
    + cbn [String.concat] in *. now rewrite IH.
    + rewrite concat_cons by discriminate.
      rewrite concat_cons in IH by discriminate. now rewrite <- IH.
Qed.

Lemma no_sep_cons (c : ascii) (s : string) :
  no_sep sep (String c s) ↔ c ≠ sep ∧ no_sep sep s.
Proof.
  unfold no_sep. cbn [list_ascii_of_string]. rewrite not_elem_of_cons.
  split; intros [H1 H2]; split; congruence.
Qed.

Lemma split_on_no_sep (s : string) : Forall (no_sep sep) (split_on sep s).
Proof.
  induction s as [|c s IH]; cbn [split_on].
  - repeat constructor. unfold no_sep. cbn. apply not_elem_of_nil.
  - destruct (Ascii.eqb_spec c sep) as [->|Hne].
    + constructor; [|exact IH]. unfold no_sep. cbn. apply not_elem_of_nil.
    + destruct (split_on sep s) as [|w ws];
        [repeat constructor; apply no_sep_cons; split;
           [exact Hne | unfold no_sep; cbn; apply not_elem_of_nil]|].
      inversion IH as [|? ? Hw Hws]; subst. constructor; [|exact Hws].
      apply no_sep_cons. now split.
Qed.

Lemma split_on_single (x : string) : no_sep sep x → split_on sep x = [x].
Proof.
  induction x as [|c x IH]; [reflexivity|].
  intros [Hne Hx]%no_sep_cons. cbn [split_on].
  destruct (Ascii.eqb_spec c sep); [contradiction|]. now rewrite IH.
Qed.

Lemma split_on_app (x rest : string) :
  no_sep sep x →
  split_on sep (x +:+ String sep rest) = x :: split_on sep rest.
Proof.
  induction x as [|c x IH].
  - intros _. change ("" +:+ String sep rest) with (String sep rest).
    cbn [split_on]. now rewrite Ascii.eqb_refl.
  - intros [Hne Hx]%no_sep_cons.
    change (String c x +:+ String sep rest)
      with (String c (x +:+ String sep rest)).
    cbn [split_on].
    destruct (Ascii.eqb_spec c sep); [contradiction|]. now rewrite IH.
Qed.

Lemma split_join (l : list string) :
  l ≠ [] → Forall (no_sep sep) l →
  split_on sep (String.concat (String sep "") l) = l.
Proof.
  induction l as [|x l IH]; [congruence|]. intros _ Hall.
  inversion Hall as [|? ? Hx Hl]; subst.
  destruct l as [|y l'].
  - cbn [String.concat]. now apply split_on_single.
  - rewrite concat_cons by discriminate. rewrite split_on_app by exact Hx.
    now rewrite IH.
Qed.

End split_join.

Section sample_output.
Import Sample.
Context (strip : string → string).

Lemma cell_has (row : csv_row) (k s : string) :
  cell strip row k = Ok s → has_cell k row.
Proof.
  unfold has_cell, cell. destruct (row !! k) as [[?|]|]; congruence.
Qed.

Lemma cell_Raise (row : csv_row) (k : string) (e : exn) :
  cell strip row k = Raise e → e = AttributeError ∧ ¬ has_cell k row.
Proof.
  unfold has_cell, cell. destruct (row !! k) as [[?|]|]; try discriminate.
  intros [= <-]. split; [reflexivity|]. intros H. now apply H.
Qed.

Lemma omap_emitted_sublist (keep : csv_row → pyres (option csv_row))
  (rows : list csv_row) :
  (∀ row r, keep row = Ok (Some r) → r = row) →
  omap (emitted keep) rows `sublist_of` rows.
Proof.
  intros Hsame. induction rows as [|row rows IH]; [constructor|].
  change (omap (emitted keep) (row :: rows)) with
    (match emitted keep row with
     | Some y => y :: omap (emitted keep) rows
     | None => omap (emitted keep) rows
     end).
  destruct (emitted keep row) as [r|] eqn:Hem.
  - unfold emitted in Hem. destruct (keep row) as [o|] eqn:Hk; [|discriminate].
    subst o. apply Hsame in Hk as ->. now constructor.
  - now constructor.
Qed.

Lemma keep_user_and_book_Some (ku kb : gset string) (row r : csv_row) :
  keep_user_and_book strip ku kb row = Ok (Some r) ↔
  r = row ∧ ∃ u b, cell strip row "user_id" = Ok u ∧
                   cell strip row "book_id" = Ok b ∧ u ∈ ku ∧ b ∈ kb.
Proof.
  unfold keep_user_and_book. split.
  - destruct (cell strip row "user_id") as [u|];
      cbn [mbind pyres_bind]; [|discriminate].
    destruct (cell strip row "book_id") as [b|];
      cbn [mbind pyres_bind]; [|discriminate].
    destruct (decide _) as [[Hu Hb]|]; [|discriminate].
    intros [= <-]. split; [reflexivity|]. exists u, b. now split_and!.
  - intros (-> & u & b & -> & -> & Hu & Hb). cbn [mbind pyres_bind].
    destruct (decide _) as [|Hn]; [reflexivity|]. destruct Hn. now split.
Qed.

Lemma keep_user_and_book_Raise (ku kb : gset string) (row : csv_row) (e : exn) :
  keep_user_and_book strip ku kb row = Raise e →
  e = AttributeError ∧
  ¬ (has_cell "user_id" row ∧ has_cell "book_id" row).
Proof.
  unfold keep_user_and_book.
  destruct (cell strip row "user_id") as [u|e'] eqn:Hu; cbn [mbind pyres_bind].
  - destruct (cell strip row "book_id") as [b|e''] eqn:Hb;
      cbn [mbind pyres_bind]; [discriminate|].
    intros [= <-]. apply cell_Raise in Hb as [-> Hb]. split; [reflexivity|].
    tauto.
  - intros [= <-]. apply cell_Raise in Hu as [-> Hu]. split; [reflexivity|].
    tauto.
Qed.

(** The two filters on both identifiers. *)
Lemma filter_both_elem (t : table) (input : option (list csv_row))
  (ku kb : gset string) (out : list csv_row) (lg : list msg) (row : csv_row) :
  filter_table t (keep_user_and_book strip ku kb) input = Ok (Some out, lg) →
  row ∈ out ↔
  ∃ rows u b, input = Some rows ∧ row ∈ rows ∧
              cell strip row "user_id" = Ok u ∧
              cell strip row "book_id" = Ok b ∧ u ∈ ku ∧ b ∈ kb.
Proof.
  intros (rows & -> & Hf & _)%filter_table_Some.
  rewrite (filter_rows_elem _ _ _ _ Hf). split.
  - intros (row0 & Hin & (-> & u & b & H)%keep_user_and_book_Some).
    exists rows, u, b. now split_and!.
  - intros (rows' & u & b & [= <-] & Hin & H). exists row. split; [exact Hin|].
    apply keep_user_and_book_Some. split; [reflexivity|]. now exists u, b.
Qed.

Lemma filter_both_sublist (t : table) (input : option (list csv_row))
  (ku kb : gset string) (out : list csv_row) (lg : list msg) :
  filter_table t (keep_user_and_book strip ku kb) input = Ok (Some out, lg) →
  ∃ rows, input = Some rows ∧ out `sublist_of` rows.
Proof.
  intros (rows & -> & Hf & _)%filter_table_Some. exists rows.
  split; [reflexivity|]. apply filter_rows_spec in Hf as [-> _].
  apply omap_emitted_sublist. now intros row r [-> _]%keep_user_and_book_Some.
Qed.

(** The two filters on one identifier. *)
Lemma keep_one_Some (k : string) (kept : gset string) (row r : csv_row) :
  (b ← cell strip row k;
   Ok (if decide (b ∈ kept) then Some row else None)) = Ok (Some r) ↔
  r = row ∧ ∃ b, cell strip row k = Ok b ∧ b ∈ kept.
Proof.
  split.
  - destruct (cell strip row k) as [b|]; cbn [mbind pyres_bind]; [|discriminate].
    destruct (decide _) as [Hb|]; [|discriminate].
    intros [= <-]. split; [reflexivity|]. now exists b.
  - intros (-> & b & -> & Hb). cbn [mbind pyres_bind].
    now destruct (decide _).
Qed.

Lemma filter_books_elem (input : option (list csv_row)) (kb : gset string)
  (out : list csv_row) (lg : list msg) (row : csv_row) :
  filter_books strip input kb = Ok (Some out, lg) →
  row ∈ out ↔
  ∃ rows b, input = Some rows ∧ row ∈ rows ∧
            cell strip row "book_id" = Ok b ∧ b ∈ kb.
Proof.
  unfold filter_books. intros (rows & -> & Hf & _)%filter_table_Some.
  rewrite (filter_rows_elem _ _ _ _ Hf). split.
  - intros (row0 & Hin & (-> & b & H)%keep_one_Some).
    exists rows, b. now split_and!.
  - intros (rows' & b & [= <-] & Hin & H). exists row. split; [exact Hin|].
    apply keep_one_Some. split; [reflexivity|]. now exists b.
Qed.

Lemma filter_books_sublist (input : option (list csv_row)) (kb : gset string)
  (out : list csv_row) (lg : list msg) :
  filter_books strip input kb = Ok (Some out, lg) →
  ∃ rows, input = Some rows ∧ out `sublist_of` rows.
Proof.
  unfold filter_books. intros (rows & -> & Hf & _)%filter_table_Some.
  exists rows. split; [reflexivity|]. apply filter_rows_spec in Hf as [-> _].
  apply omap_emitted_sublist. now intros row r [-> _]%keep_one_Some.
Qed.

Lemma filter_users_elem (input : option (list csv_row)) (ku : gset string)
  (out : list csv_row) (lg : list msg) (row : csv_row) :
  filter_users strip input ku = Ok (Some out, lg) →
  row ∈ out ↔
  ∃ rows u, input = Some rows ∧ row ∈ rows ∧
            cell strip row "user_id" = Ok u ∧ u ∈ ku.
Proof.
  unfold filter_users. intros (rows & -> & Hf & _)%filter_table_Some.
  rewrite (filter_rows_elem _ _ _ _ Hf). split.
  - intros (row0 & Hin & (-> & u & H)%keep_one_Some).
    exists rows, u. now split_and!.
  - intros (rows' & u & [= <-] & Hin & H). exists row. split; [exact Hin|].
    apply keep_one_Some. split; [reflexivity|]. now exists u.
Qed.

Lemma filter_users_sublist (input : option (list csv_row)) (ku : gset string)
  (out : list csv_row) (lg : list msg) :
  filter_users strip input ku = Ok (Some out, lg) →
  ∃ rows, input = Some rows ∧ out `sublist_of` rows.
Proof.
  unfold filter_users. intros (rows & -> & Hf & _)%filter_table_Some.
  exists rows. split; [reflexivity|]. apply filter_rows_spec in Hf as [-> _].
  apply omap_emitted_sublist. now intros row r [-> _]%keep_one_Some.
Qed.

(** The author filter. *)
Lemma filter_authors_elem (input : option (list csv_row)) (kb : gset string)
  (out : list csv_row) (lg : list msg) (row' : csv_row) :
  filter_authors strip input kb = Ok (Some out, lg) →
  row' ∈ out ↔
  ∃ rows row s, input = Some rows ∧ row ∈ rows ∧
    cell strip row "books" = Ok s ∧ s ≠ "" ∧ kept_parts strip kb s ≠ [] ∧
    row' = <["books" := Some (String.concat ";" (kept_parts strip kb s))]> row.
Proof.
  unfold filter_authors. intros (rows & -> & Hf & _)%filter_table_Some.
  rewrite (filter_rows_elem _ _ _ _ Hf). cbn beta. fold (kept_parts strip kb).
  split.
  - intros (row & Hin & Hk). exists rows, row.
    destruct (cell strip row "books") as [s|]; cbn [mbind pyres_bind] in Hk;
      [|discriminate].
    exists s. destruct (String.eqb_spec s "") as [Heq|Hne]; [discriminate|].
    fold (kept_parts strip kb s) in Hk.
    destruct (kept_parts strip kb s) as [|p ps] eqn:Hp; [discriminate|].
    injection Hk as <-. now split_and!.
  - intros (rows' & row & s & [= <-] & Hin & Hc & Hne & Hp & ->).
    exists row. split; [exact Hin|]. rewrite Hc. cbn [mbind pyres_bind].
    destruct (String.eqb_spec s ""); [contradiction|].
    fold (kept_parts strip kb s).
    destruct (kept_parts strip kb s) as [|p ps] eqn:Hps; [contradiction|].
    reflexivity.
Qed.

Lemma kept_parts_split (kb : gset string) (s : string) :
  kept_parts strip kb s ≠ [] →
  split_on ";" (String.concat ";" (kept_parts strip kb s))
  = kept_parts strip kb s.
Proof.
  intros Hne. apply split_join; [exact Hne|].
  apply Forall_forall. intros b [_ Hb]%list_elem_of_filter.
  revert b Hb. apply Forall_forall, split_on_no_sep.
Qed.

End sample_output.

Section sample_main.
Import Sample.
Context (strip : string → string).

Lemma kept_mentions (rows : list csv_row) (ku kb : gset string) :
  collect_kept strip ∅ ∅ rows = Ok (ku, kb) →
  (∀ u, u ∈ ku ↔ mentions strip rows "user_id" u) ∧
  (∀ b, b ∈ kb ↔ mentions strip rows "book_id" b) ∧
  (∀ row, row ∈ rows →
     ∃ u b, cell strip row "user_id" = Ok u ∧ cell strip row "book_id" = Ok b).
Proof.
  intros (Hu & Hb & Hcells)%collect_kept_spec. split_and!; [| |exact Hcells].
  - intros u. rewrite Hu. unfold mentions. split; [|now right].
    intros [Hin|H]; [|exact H]. now apply not_elem_of_empty in Hin.
  - intros b. rewrite Hb. unfold mentions. split; [|now right].
    intros [Hin|H]; [|exact H]. now apply not_elem_of_empty in Hin.
Qed.

(** X11.  Closure of the tables that [sample.py] writes: when
    [reviews.csv] is there and [main] returns, every written interaction
    row carries a user id and a book id that occur (stripped, non-empty)
    in [reviews.csv], every written book row such a book id, every written
    user row such a user id, and every part of the [books] cell of a
    written author row is such a book id. *)
Theorem sample_closure (ts : tables) (rows : list csv_row) (out : run) :
  reviews_csv ts = Some rows →
  main strip ts = Ok out →
  (∀ t row, interactions_csv (output out) = Some t → row ∈ t →
     ∃ u b, cell strip row "user_id" = Ok u ∧ mentions strip rows "user_id" u ∧
            cell strip row "book_id" = Ok b ∧ mentions strip rows "book_id" b) ∧
  (∀ t row, books_csv (output out) = Some t → row ∈ t →
     ∃ b, cell strip row "book_id" = Ok b ∧ mentions strip rows "book_id" b) ∧
  (∀ t row, authors_csv (output out) = Some t → row ∈ t →
     ∃ s, row !! "books" = Some (Some s) ∧
          ∀ b, b ∈ split_on ";" s → mentions strip rows "book_id" (strip b)) ∧
  (∀ t row, users_csv (output out) = Some t → row ∈ t →
     ∃ u, cell strip row "user_id" = Ok u ∧ mentions strip rows "user_id" u).
Proof.
  intros Hrev Hmain.
  destruct (sample_main_inv strip ts rows out Hrev Hmain)
    as (ku & kb & oi & li & ob & lb & oa & la & ou & lu & orr & lr &
        Hc & Hi & Hb & Ha & Hu & Hr & ->).
  destruct (kept_mentions _ _ _ Hc) as (Hku & Hkb & _).
  cbn [output interactions_csv books_csv authors_csv users_csv].
  split_and!.
  - intros t row -> Hin. unfold filter_interactions in Hi.
    apply (filter_both_elem strip _ _ _ _ _ _ row Hi) in Hin
      as (rows0 & u & b & _ & _ & Hcu & Hcb & Hinu & Hinb).
    exists u, b. split_and!; [exact Hcu | now apply Hku | exact Hcb |
                              now apply Hkb].
  - intros t row -> Hin.
    apply (filter_books_elem strip _ _ _ _ row Hb) in Hin
      as (rows0 & b & _ & _ & Hcb & Hinb).
    exists b. split; [exact Hcb | now apply Hkb].
  - intros t row -> Hin.
    apply (filter_authors_elem strip _ _ _ _ row Ha) in Hin
      as (rows0 & row0 & s & _ & _ & _ & _ & Hne & ->).
    eexists. split; [apply lookup_insert_eq|].
    rewrite kept_parts_split by exact Hne.
    intros b [Hinb _]%list_elem_of_filter. now apply Hkb.
  - intros t row -> Hin.
    apply (filter_users_elem strip _ _ _ _ row Hu) in Hin
      as (rows0 & u & _ & _ & Hcu & Hinu).
    exists u. split; [exact Hcu | now apply Hku].
Qed.

(** X12.  What [main] keeps: the written [reviews.csv] is [reviews.csv]
    without the rows that have an empty user id or an empty book id, in
    the same order; the written interactions, books and users are
    sublists of their inputs, and they hold every input row whose
    identifiers occur in [reviews.csv]. *)
Theorem sample_rows_kept (ts : tables) (rows : list csv_row) (out : run) :
  reviews_csv ts = Some rows →
  main strip ts = Ok out →
  reviews_csv (output out)
  = Some (filter (λ row, nonempty_ids strip row = true) rows) ∧
  (∀ t, interactions_csv (output out) = Some t →
     ∃ t0, interactions_csv ts = Some t0 ∧ t `sublist_of` t0 ∧
       ∀ row u b, row ∈ t0 →
         cell strip row "user_id" = Ok u → mentions strip rows "user_id" u →
         cell strip row "book_id" = Ok b → mentions strip rows "book_id" b →
         row ∈ t) ∧
  (∀ t, books_csv (output out) = Some t →
     ∃ t0, books_csv ts = Some t0 ∧ t `sublist_of` t0 ∧
       ∀ row b, row ∈ t0 →
         cell strip row "book_id" = Ok b → mentions strip rows "book_id" b →
         row ∈ t) ∧
  (∀ t, users_csv (output out) = Some t →
     ∃ t0, users_csv ts = Some t0 ∧ t `sublist_of` t0 ∧
       ∀ row u, row ∈ t0 →
         cell strip row "user_id" = Ok u → mentions strip rows "user_id" u →
         row ∈ t).
Proof.
  intros Hrev Hmain.
  destruct (sample_main_inv strip ts rows out Hrev Hmain)
    as (ku & kb & oi & li & ob & lb & oa & la & ou & lu & orr & lr &
        Hc & Hi & Hb & Ha & Hu & Hr & ->).
  destruct (kept_mentions _ _ _ Hc) as (Hku & Hkb & Hcells).
  cbn [output interactions_csv books_csv authors_csv users_csv reviews_csv].
  split_and!.
  - unfold filter_reviews, filter_table in Hr.
    destruct (filter_rows (keep_user_and_book strip ku kb) rows)
      as [out'|e] eqn:Hf; cbn [mbind pyres_bind] in Hr; [|discriminate].
    injection Hr as <- _. f_equal.
    apply filter_rows_spec in Hf as [-> _].
    assert (∀ l : list csv_row, (∀ row, row ∈ l → row ∈ rows) →
              omap (emitted (keep_user_and_book strip ku kb)) l
              = filter (λ row, nonempty_ids strip row = true) l) as Hall.
    { induction l as [|row l IH]; intros Hsub; [reflexivity|].
      change (omap (emitted (keep_user_and_book strip ku kb)) (row :: l)) with
        (match emitted (keep_user_and_book strip ku kb) row with
         | Some y => y :: omap (emitted (keep_user_and_book strip ku kb)) l
         | None => omap (emitted (keep_user_and_book strip ku kb)) l
         end).
      rewrite IH by (intros r Hr'; apply Hsub; now right).
      assert (row ∈ rows) as Hin by (apply Hsub; now left).
      destruct (Hcells row Hin) as (u & b & Hcu & Hcb).
      assert (nonempty_ids strip row = true ↔ u ∈ ku ∧ b ∈ kb) as Hiff.
      { unfold nonempty_ids. rewrite Hcu, Hcb, Hku, Hkb. unfold mentions.
        destruct (String.eqb_spec u "") as [->|Hu'];
          destruct (String.eqb_spec b "") as [->|Hb']; cbn [negb andb];
          split; try discriminate; try tauto.
        intros _. split; (split; [assumption|]); exists row; now split. }
      unfold emitted, keep_user_and_book. rewrite Hcu, Hcb.
      cbn [mbind pyres_bind].
      destruct (decide (u ∈ ku ∧ b ∈ kb)) as [Hy|Hn].
      - rewrite filter_cons_True by now apply Hiff. reflexivity.
      - rewrite filter_cons_False by (intros H; now apply Hn, Hiff).
        reflexivity. }
    now apply Hall.
  - intros t ->. unfold filter_interactions in Hi.
    destruct (filter_both_sublist strip _ _ _ _ _ _ Hi) as (t0 & Ht0 & Hsub).
    exists t0. split_and!; [exact Ht0 | exact Hsub|].
    intros row u b Hin Hcu Hmu Hcb Hmb.
    apply (filter_both_elem strip _ _ _ _ _ _ row Hi).
    exists t0, u, b. split_and!; try assumption; [now apply Hku | now apply Hkb].
  - intros t ->.
    destruct (filter_books_sublist strip _ _ _ _ Hb) as (t0 & Ht0 & Hsub).
    exists t0. split_and!; [exact Ht0 | exact Hsub|].
    intros row b Hin Hcb Hmb.
    apply (filter_books_elem strip _ _ _ _ row Hb).
    exists t0, b. split_and!; try assumption. now apply Hkb.
  - intros t ->.
    destruct (filter_users_sublist strip _ _ _ _ Hu) as (t0 & Ht0 & Hsub).
    exists t0. split_and!; [exact Ht0 | exact Hsub|].
    intros row u Hin Hcu Hmu.
    apply (filter_users_elem strip _ _ _ _ row Hu).
    exists t0, u. split_and!; try assumption. now apply Hku.
Qed.

End sample_main.

Section sample_results.
Import Sample.
Context (strip : string → string).

Lemma collect_kept_result (ku kb : gset string) (rows : list csv_row) :
  match collect_kept strip ku kb rows with
  | Ok _ => cells_ok ["user_id"; "book_id"] (Some rows)
  | Raise e => e = AttributeError ∧ ¬ cells_ok ["user_id"; "book_id"] (Some rows)
  end.
Proof.
  revert ku kb. induction rows as [|row rows IH]; intros ku kb;
    cbn [collect_kept].
  - intros rows' row [= <-] Hin. inversion Hin.
  - destruct (cell strip row "user_id") as [u|e] eqn:Hu; cbn [mbind pyres_bind].
    + destruct (cell strip row "book_id") as [b|e] eqn:Hb;
        cbn [mbind pyres_bind].
      * match goal with |- match collect_kept _ ?a ?b _ with _ => _ end =>
          specialize (IH a b); destruct (collect_kept strip a b rows)
        end.
        -- intros rows' row' [= <-] [->|Hin]%elem_of_cons.
           ++ repeat constructor; eapply cell_has; eassumption.
           ++ now apply (IH rows).
        -- destruct IH as [-> Hn]. split; [reflexivity|]. intros H. apply Hn.
           intros rows' row' [= <-] Hin. apply (H _ row' eq_refl). now right.
      * apply cell_Raise in Hb as [-> Hn]. split; [reflexivity|]. intros H.
        specialize (H _ row eq_refl (list_elem_of_here _ _)).
        inversion H as [|? ? _ H2]. now inversion H2.
    + apply cell_Raise in Hu as [-> Hn]. split; [reflexivity|]. intros H.
      specialize (H _ row eq_refl (list_elem_of_here _ _)).
      now inversion H.
Qed.

Lemma filter_table_result (t : table) (keep : csv_row → pyres (option csv_row))
  (ks : list string) (input : option (list csv_row)) :
  (∀ row o, keep row = Ok o → Forall (λ k, has_cell k row) ks) →
  (∀ row e, keep row = Raise e →
     e = AttributeError ∧ ¬ Forall (λ k, has_cell k row) ks) →
  match filter_table t keep input with
  | Ok _ => cells_ok ks input
  | Raise e => e = AttributeError ∧ ¬ cells_ok ks input
  end.
Proof.
  intros Hok Hraise. unfold filter_table. destruct input as [rows|].
  2:{ intros rows row [=]. }
  assert (match filter_rows keep rows with
          | Ok _ => cells_ok ks (Some rows)
          | Raise e => e = AttributeError ∧ ¬ cells_ok ks (Some rows)
          end) as H.
  { induction rows as [|row rows IH]; cbn [filter_rows].
    - intros rows' row [= <-] Hin. inversion Hin.
    - destruct (keep row) as [o|e] eqn:Hk; cbn [mbind pyres_bind].
      + destruct (filter_rows keep rows) as [out|e]; cbn [mbind pyres_bind].
        * intros rows' row' [= <-] [->|Hin]%elem_of_cons;
            [now apply (Hok _ o) | now apply (IH rows)].
        * destruct IH as [-> Hn]. split; [reflexivity|]. intros H. apply Hn.
          intros rows' row' [= <-] Hin. apply (H _ row' eq_refl). now right.
      + apply Hraise in Hk as [-> Hn]. split; [reflexivity|]. intros H.
        apply Hn, (H _ row eq_refl). now left. }
  destruct (filter_rows keep rows); cbn [mbind pyres_bind]; exact H.
Qed.

Lemma filter_both_result (t : table) (input : option (list csv_row))
  (ku kb : gset string) :
  match filter_table t (keep_user_and_book strip ku kb) input with
  | Ok _ => cells_ok ["user_id"; "book_id"] input
  | Raise e => e = AttributeError ∧ ¬ cells_ok ["user_id"; "book_id"] input
  end.
Proof.
  apply filter_table_result.
  - intros row o. unfold keep_user_and_book.
    destruct (cell strip row "user_id") as [u|] eqn:Hu;
      cbn [mbind pyres_bind]; [|discriminate].
    destruct (cell strip row "book_id") as [b|] eqn:Hb;
      cbn [mbind pyres_bind]; [|discriminate].
    intros _. repeat constructor; eapply cell_has; eassumption.
  - intros row e [-> Hn]%keep_user_and_book_Raise. split; [reflexivity|].
    intros H. apply Hn. inversion H as [|? ? H1 H2]. inversion H2. now split.
Qed.

Lemma keep_one_result (t : table) (k : string) (kept : gset string)
  (input : option (list csv_row)) :
  match filter_table t
          (λ row, b ← cell strip row k;
                  Ok (if decide (b ∈ kept) then Some row else None)) input with
  | Ok _ => cells_ok [k] input
  | Raise e => e = AttributeError ∧ ¬ cells_ok [k] input
  end.
Proof.
  apply filter_table_result.
  - intros row o. destruct (cell strip row k) as [b|] eqn:Hb;
      cbn [mbind pyres_bind]; [|discriminate].
    intros _. repeat constructor. eapply cell_has; eassumption.
  - intros row e. destruct (cell strip row k) as [b|e'] eqn:Hb;
      cbn [mbind pyres_bind]; [discriminate|].
    intros [= <-]. apply cell_Raise in Hb as [-> Hn]. split; [reflexivity|].
    intros H. apply Hn. now inversion H.
Qed.

Lemma filter_authors_result (input : option (list csv_row)) (kb : gset string) :
  match filter_authors strip input kb with
  | Ok _ => cells_ok ["books"] input
  | Raise e => e = AttributeError ∧ ¬ cells_ok ["books"] input
  end.
Proof.
  unfold filter_authors. apply filter_table_result.
  - intros row o. destruct (cell strip row "books") as [b|] eqn:Hb;
      cbn [mbind pyres_bind]; [|discriminate].
    intros _. repeat constructor. eapply cell_has; eassumption.
  - intros row e. destruct (cell strip row "books") as [s|e'] eqn:Hb;
      cbn [mbind pyres_bind].
    + destruct (String.eqb s ""); [discriminate|].
      destruct (filter _ _); discriminate.
    + intros [= <-]. apply cell_Raise in Hb as [-> Hn]. split; [reflexivity|].
      intros H. apply Hn. now inversion H.
Qed.

Lemma sample_main_result (ts : tables) (rows : list csv_row) :
  reviews_csv ts = Some rows →
  match main strip ts with
  | Ok _ => tables_ok ts
  | Raise e => e = AttributeError ∧ ¬ tables_ok ts
  end.
Proof.
  intros Hrev. unfold main, tables_ok. rewrite Hrev.
  pose proof (collect_kept_result ∅ ∅ rows) as Hc.
  destruct (collect_kept strip ∅ ∅ rows) as [[ku kb]|e];
    cbn [mbind pyres_bind]; [|split; [apply Hc | intros H; now apply Hc]].
  pose proof (filter_both_result Interactions (interactions_csv ts) ku kb) as Hi.
  fold (filter_interactions strip (interactions_csv ts) ku kb) in Hi.
  destruct (filter_interactions strip (interactions_csv ts) ku kb)
    as [[oi li]|e]; cbn [mbind pyres_bind];
    [|split; [apply Hi | intros H; now apply Hi]].
  pose proof (keep_one_result Books "book_id" kb (books_csv ts)) as Hb.
  fold (filter_books strip (books_csv ts) kb) in Hb.
  destruct (filter_books strip (books_csv ts) kb) as [[ob lb]|e];
    cbn [mbind pyres_bind]; [|split; [apply Hb | intros H; now apply Hb]].
  pose proof (filter_authors_result (authors_csv ts) kb) as Ha.
  destruct (filter_authors strip (authors_csv ts) kb) as [[oa la]|e];
    cbn [mbind pyres_bind]; [|split; [apply Ha | intros H; now apply Ha]].
  pose proof (keep_one_result Users "user_id" ku (users_csv ts)) as Hu.
  fold (filter_users strip (users_csv ts) ku) in Hu.
  destruct (filter_users strip (users_csv ts) ku) as [[ou lu]|e];
    cbn [mbind pyres_bind]; [|split; [apply Hu | intros H; now apply Hu]].
  pose proof (filter_both_result Reviews (Some rows) ku kb) as Hr.
  fold (filter_reviews strip (Some rows) ku kb) in Hr.
  destruct (filter_reviews strip (Some rows) ku kb) as [[orr lr]|e];
    cbn [mbind pyres_bind]; [|split; [apply Hr | intros H; now apply Hr]].
  now split_and!.
Qed.

(** X13.  A short row keeps [main] from returning: when [reviews.csv] is
    there and [main] returns, every row of every table that is there has
    the cells that are read from it ([user_id] and [book_id] of reviews
    and interactions, [book_id] of books, [books] of authors, [user_id]
    of users); a row for which [csv.DictReader] stores [None] in one of
    them makes [.strip()] fail. *)
Theorem sample_main_returns (ts : tables) (rows : list csv_row) (out : run) :
  reviews_csv ts = Some rows →
  main strip ts = Ok out →
  tables_ok ts.
Proof.
  intros Hrev Hmain. pose proof (sample_main_result ts rows Hrev) as H.
  now rewrite Hmain in H.
Qed.

Lemma filter_table_msg (t : table) (keep : csv_row → pyres (option csv_row))
  (input o : option (list csv_row)) (lg : list msg) :
  filter_table t keep input = Ok (o, lg) →
  lg = [table_msg t input o] ∧ (o = None ↔ input = None).
Proof.
  unfold filter_table. destruct input as [rows|].
  - destruct (filter_rows keep rows) as [out|]; cbn [mbind pyres_bind];
      [|discriminate].
    intros [= <- <-]. split; [reflexivity|]. split; discriminate.
  - intros [= <- <-]. split; [reflexivity|]. tauto.
Qed.

(** X14.  What [main] reports and which tables it writes: the first line
    counts the distinct non-empty user ids and book ids of [reviews.csv],
    then follows one line per table in the order interactions, books,
    authors, users, reviews (the row counts read and written, or that the
    table is skipped), then the closing line; a table is written exactly
    when its input is there. *)
Theorem sample_report (ts : tables) (rows : list csv_row) (out : run) :
  reviews_csv ts = Some rows →
  main strip ts = Ok out →
  ∃ ku kb : gset string,
    (∀ u, u ∈ ku ↔ mentions strip rows "user_id" u) ∧
    (∀ b, b ∈ kb ↔ mentions strip rows "book_id" b) ∧
    log out =
      [ MsgFound (Z.of_nat (size ku)) (Z.of_nat (size kb));
        table_msg Interactions (interactions_csv ts)
          (interactions_csv (output out));
        table_msg Books (books_csv ts) (books_csv (output out));
        table_msg Authors (authors_csv ts) (authors_csv (output out));
        table_msg Users (users_csv ts) (users_csv (output out));
        table_msg Reviews (Some rows) (reviews_csv (output out));
        MsgDone ] ∧
    (interactions_csv (output out) = None ↔ interactions_csv ts = None) ∧
    (books_csv (output out) = None ↔ books_csv ts = None) ∧
    (authors_csv (output out) = None ↔ authors_csv ts = None) ∧
    (users_csv (output out) = None ↔ users_csv ts = None) ∧
    reviews_csv (output out) ≠ None.
Proof.
  intros Hrev Hmain.
  destruct (sample_main_inv strip ts rows out Hrev Hmain)
    as (ku & kb & oi & li & ob & lb & oa & la & ou & lu & orr & lr &
        Hc & Hi & Hb & Ha & Hu & Hr & ->).
  destruct (kept_mentions _ _ _ _ Hc) as (Hku & Hkb & _).
  unfold filter_interactions in Hi. unfold filter_books in Hb.
  unfold filter_authors in Ha. unfold filter_users in Hu.
  unfold filter_reviews in Hr.
  apply filter_table_msg in Hi as [-> Hi].
  apply filter_table_msg in Hb as [-> Hb].
  apply filter_table_msg in Ha as [-> Ha].
  apply filter_table_msg in Hu as [-> Hu].
  apply filter_table_msg in Hr as [-> Hr].
  exists ku, kb.
  cbn [log output interactions_csv books_csv authors_csv users_csv reviews_csv].
  split_and!; try assumption; [reflexivity|].
  intros H. now apply Hr in H.
Qed.

(** X15.  [filter_authors] on a table that is there: the [books] cell of
    a written row splits into exactly the parts of the source row's
    (stripped) [books] cell whose stripped text is a kept book, in their
    order, and the other cells are those of the source row; a source row
    all of whose parts are kept is written with its stripped [books]
    cell. *)
Theorem filter_authors_books (rows out : list csv_row) (kb : gset string)
  (lg : list msg) :
  filter_authors strip (Some rows) kb = Ok (Some out, lg) →
  (∀ row', row' ∈ out →
     ∃ row s s', row ∈ rows ∧ cell strip row "books" = Ok s ∧
       row' !! "books" = Some (Some s') ∧
       split_on ";" s' = kept_parts strip kb s ∧
       ∀ k, k ≠ "books" → row' !! k = row !! k) ∧
  (∀ row s, row ∈ rows → cell strip row "books" = Ok s → s ≠ "" →
     (∀ b, b ∈ split_on ";" s → strip b ∈ kb) →
     <["books" := Some s]> row ∈ out) ∧
  lg = [MsgFiltered Authors (Z.of_nat (length rows)) (Z.of_nat (length out))].
Proof.
  intros Hf. split_and!.
  - intros row' Hin.
    apply (filter_authors_elem strip _ _ _ _ row' Hf) in Hin
      as (rows0 & row & s & [= <-] & Hin & Hc & _ & Hne & ->).
    exists row, s, (String.concat ";" (kept_parts strip kb s)).
    split_and!; [exact Hin | exact Hc | apply lookup_insert_eq |
                 now apply kept_parts_split|].
    intros k Hk. now apply lookup_insert_ne.
  - intros row s Hin Hc Hne Hall.
    apply (filter_authors_elem strip _ _ _ _ _ Hf). exists rows, row, s.
    assert (kept_parts strip kb s = split_on ";" s) as Hparts.
    { unfold kept_parts. revert Hall.
      generalize (split_on ";" s). intros l Hl.
      induction l as [|b l IH]; [reflexivity|].
      rewrite filter_cons_True by (apply Hl; now left).
      f_equal. apply IH. intros b' Hb'. apply Hl. now right. }
    rewrite Hparts, join_split.
    split_and!; try done. apply split_on_nonempty.
  - unfold filter_authors in Hf.
    now apply filter_table_Some in Hf as (rows0 & [= <-] & _ & ->).
Qed.

End sample_results.

Lemma sample_main_runs :
  ∃ out, Sample.main (λ s, s) sample_tables = Ok out.
Proof. vm_compute. eexists. reflexivity. Qed.

Lemma sample_closure_witness :
  ∃ out, Sample.main (λ s, s) sample_tables = Ok out ∧
    ∀ t row, Sample.interactions_csv (Sample.output out) = Some t → row ∈ t →
      ∃ u b,
        Sample.cell (λ s, s) row "user_id" = Ok u ∧
        mentions (λ s, s) sample_reviews "user_id" u ∧
        Sample.cell (λ s, s) row "book_id" = Ok b ∧
        mentions (λ s, s) sample_reviews "book_id" b.
Proof.
  destruct sample_main_runs as [out Hout]. exists out. split; [exact Hout|].
  apply (sample_closure (λ s, s) sample_tables sample_reviews out eq_refl Hout).
Defined.

Lemma sample_rows_kept_witness :
  ∃ out, Sample.main (λ s, s) sample_tables = Ok out ∧
    Sample.reviews_csv (Sample.output out)
    = Some (filter (λ row, nonempty_ids (λ s, s) row = true) sample_reviews).
Proof.
  destruct sample_main_runs as [out Hout]. exists out. split; [exact Hout|].
  apply (sample_rows_kept (λ s, s) sample_tables sample_reviews out eq_refl Hout).
Defined.

Lemma sample_main_returns_witness :
  ∃ out, Sample.main (λ s, s) sample_tables = Ok out ∧ tables_ok sample_tables.
Proof.
  destruct sample_main_runs as [out Hout]. exists out. split; [exact Hout|].
  apply (sample_main_returns (λ s, s) sample_tables sample_reviews out eq_refl
           Hout).
Defined.

Lemma sample_report_witness :
  ∃ out, Sample.main (λ s, s) sample_tables = Ok out ∧
    (Sample.books_csv (Sample.output out) = None
     ↔ Sample.books_csv sample_tables = None).
Proof.
  destruct sample_main_runs as [out Hout]. exists out. split; [exact Hout|].
  destruct (sample_report (λ s, s) sample_tables sample_reviews out eq_refl Hout)
    as (ku & kb & _ & _ & _ & _ & H & _).
  exact H.
Defined.

Lemma sample_authors_filtered :
  ∃ out lg,
    Sample.filter_authors (λ s, s) (Some sample_authors) {["b1"]}
    = Ok (Some out, lg).
Proof. vm_compute. eexists _, _. reflexivity. Qed.

Lemma filter_authors_books_witness :
  ∃ out lg,
    Sample.filter_authors (λ s, s) (Some sample_authors) {["b1"]}
    = Ok (Some out, lg) ∧
    lg = [Sample.MsgFiltered Sample.Authors
            (Z.of_nat (length sample_authors)) (Z.of_nat (length out))].
Proof.
  destruct sample_authors_filtered as (out & lg & H). exists out, lg.
  split; [exact H|].
  apply (filter_authors_books (λ s, s) sample_authors out {["b1"]} lg H).
Defined.

(** ** The books that [process_authors] records *)

Section authors_cover.
Import BetterExtract.

Lemma string_app_nil_r (s : string) : s +:+ "" = s.
Proof.
  induction s as [|c s IH]; [reflexivity|].
  change (String c (s +:+ "") = String c s). now rewrite IH.
Qed.

Lemma prefix_app (s b : string) : String.prefix s (s +:+ b) = true.
Proof.
  induction s as [|c s IH].
  - change ("" +:+ b) with b. now destruct b.
  - change (String c s +:+ b) with (String c (s +:+ b)). cbn [String.prefix].
    destruct (Ascii.ascii_dec c c); [exact IH | congruence].
Qed.

Lemma prefix_elim (s t : string) :
  String.prefix s t = true → ∃ b, t = s +:+ b.
Proof.
  revert t. induction s as [|c s IH]; intros t.
  - intros _. now exists t.
  - destruct t as [|d t]; cbn [String.prefix]; [discriminate|].
    destruct (Ascii.ascii_dec c d) as [->|]; [|discriminate].
    intros [b ->]%IH. now exists b.
Qed.

Lemma is_substring_unfold (s t : string) :
  is_substring s t
  = String.prefix s t
    || match t with
       | EmptyString => false
       | String _ rest => is_substring s rest
       end.
Proof. now destruct t. Qed.

Lemma is_substring_intro (a s b : string) :
  is_substring s (a +:+ (s +:+ b)) = true.
Proof.
  induction a as [|c a IH].
  - change ("" +:+ (s +:+ b)) with (s +:+ b).
    now rewrite is_substring_unfold, prefix_app.
  - change (String c a +:+ (s +:+ b)) with (String c (a +:+ (s +:+ b))).
    rewrite is_substring_unfold, IH. apply orb_true_r.
Qed.

Lemma is_substring_elim (s t : string) :
  is_substring s t = true → ∃ a b, t = a +:+ (s +:+ b).
Proof.
  induction t as [|c t IH]; rewrite is_substring_unfold;
    intros [Hp|Hr]%orb_true_iff.
  - apply prefix_elim in Hp as [b Hb]. now exists "", b.
  - discriminate.
  - apply prefix_elim in Hp as [b Hb]. now exists "", b.
  - destruct (IH Hr) as (a & b & ->). now exists (String c a), b.
Qed.

Lemma is_substring_refl (s : string) : is_substring s s = true.
Proof.
  pose proof (is_substring_intro "" s "") as H.
  now rewrite string_app_nil_r in H.
Qed.

Lemma is_substring_app (s t rest : string) :
  is_substring s t = true → is_substring s (t +:+ rest) = true.
Proof.
  intros (a & b & ->)%is_substring_elim.
  rewrite !string_app_assoc. apply is_substring_intro.
Qed.

Lemma is_substring_suffix (s t x : string) :
  is_substring s (t +:+ (x +:+ s)) = true.
Proof.
  pose proof (is_substring_intro (t +:+ x) s "") as H.
  now rewrite string_app_nil_r, string_app_assoc in H.
Qed.

Lemma book_covered_extend (b : jval) (s rest : string) :
  book_covered b (JStr s) → book_covered b (JStr (s +:+ rest)).
Proof.
  intros [H|[H|(s' & t & -> & [= <-] & H)]].
  - now left.
  - subst b. right. right. exists s, (s +:+ rest). split_and!; try reflexivity.
    apply is_substring_app, is_substring_refl.
  - right. right. exists s', (s +:+ rest). split_and!; try reflexivity.
    now apply is_substring_app.
Qed.

Lemma py_in_Ok (x c : jval) (p : bool) :
  py_in x c = Ok p → ∃ s t, x = JStr s ∧ c = JStr t ∧ p = is_substring s t.
Proof.
  unfold py_in. destruct c as [|z|t]; try discriminate.
  destruct x as [|z|s]; try discriminate.
  intros [= <-]. now exists s, t.
Qed.

Lemma covered_skip pl seen (ln : line) :
  covered pl seen →
  (∀ r, ln = Some r → truthy (author_of r) = false) →
  covered (pl ++ [ln]) seen.
Proof.
  intros [Hids Hcov] Hln. split; [exact Hids|].
  intros r [Hin|Hin]%elem_of_app Ht; [now apply Hcov|].
  apply list_elem_of_singleton in Hin. rewrite (Hln r) in Ht by now symmetry.
  discriminate.
Qed.

Lemma covered_same pl seen (r : record) (existing : author_row) :
  covered pl seen →
  dict_lookup (author_of r) seen = Some existing →
  book_covered (py_get r "book_id" (JStr "")) (books existing) →
  covered (pl ++ [Some r]) seen.
Proof.
  intros [Hids Hcov] Hex Hb. split; [exact Hids|].
  intros r' [Hin|Hin]%elem_of_app Ht; [now apply Hcov|].
  apply list_elem_of_singleton in Hin. injection Hin as ->.
  now exists existing.
Qed.

Lemma covered_update pl seen (r : record) (existing existing' : author_row) :
  covered pl seen →
  dict_lookup (author_of r) seen = Some existing →
  author_id existing' = author_id existing →
  (∃ s rest, books existing = JStr s ∧ books existing' = JStr (s +:+ rest)) →
  book_covered (py_get r "book_id" (JStr "")) (books existing') →
  covered (pl ++ [Some r]) (dict_set (author_of r) existing' seen).
Proof.
  intros [Hids Hcov] Hex Hid (s & rest & Hs & Hs') Hb. split.
  - intros k row. rewrite odict_lookup_set.
    destruct (decide (author_of r = k)) as [<-|Hne]; [|apply Hids].
    intros [= <-]. rewrite Hid. now apply Hids.
  - intros r' [Hin|Hin]%elem_of_app Ht.
    + destruct (Hcov r' Hin Ht) as (row & Hl & Hb'). rewrite odict_lookup_set.
      destruct (decide (author_of r = author_of r')) as [Heq|Hne].
      * exists existing'. split; [reflexivity|].
        rewrite <- Heq, Hex in Hl. injection Hl as <-.
        rewrite Hs'. apply book_covered_extend. now rewrite <- Hs.
      * now exists row.
    + apply list_elem_of_singleton in Hin. injection Hin as ->.
      exists existing'. rewrite odict_lookup_set.
      destruct (decide (author_of r = author_of r)); [|congruence].
      now split.
Qed.

Lemma covered_new pl seen (r : record) (row : author_row) :
  covered pl seen →
  dict_lookup (author_of r) seen = None →
  author_id row = author_of r →
  books row = py_get r "book_id" (JStr "") →
  covered (pl ++ [Some r]) (dict_set (author_of r) row seen).
Proof.
  intros [Hids Hcov] Hex Hid Hb. split.
  - intros k row'. rewrite odict_lookup_set.
    destruct (decide (author_of r = k)) as [<-|Hne]; [|apply Hids].
    now intros [= <-].
  - intros r' [Hin|Hin]%elem_of_app Ht.
    + destruct (Hcov r' Hin Ht) as (row' & Hl & Hb'). rewrite odict_lookup_set.
      destruct (decide (author_of r = author_of r')) as [Heq|Hne];
        [rewrite <- Heq in Hl; congruence|].
      now exists row'.
    + apply list_elem_of_singleton in Hin. injection Hin as ->.
      exists row. rewrite odict_lookup_set.
      destruct (decide (author_of r = author_of r)); [|congruence].
      split; [reflexivity|]. right. now left.
Qed.

Lemma authors_loop_covered lines pl seen (count : Z)
  (out : list (jval * author_row)) :
  covered pl seen →
  count = Z.of_nat (length seen) →
  authors_loop seen count lines = Ok out →
  ∃ pl' rest,
    pl ++ lines = pl' ++ rest ∧
    covered pl' out ∧
    (Z.of_nat (length out) < MAX_AUTHORS → rest = []).
Proof.
  revert pl seen count.
  induction lines as [|ln lines IH]; intros pl seen count Hinv Hcount Hloop.
  - injection Hloop as <-. exists pl, []. now split_and!.
  - assert (Hnext : ∀ seen' count', covered (pl ++ [ln]) seen' →
              count' = Z.of_nat (length seen') →
              authors_loop seen' count' lines = Ok out →
              ∃ pl' rest, pl ++ ln :: lines = pl' ++ rest ∧ covered pl' out ∧
                (Z.of_nat (length out) < MAX_AUTHORS → rest = [])).
    { intros seen' count' Hinv' Hcount' Hloop'.
      destruct (IH (pl ++ [ln]) seen' count' Hinv' Hcount' Hloop')
        as (pl' & rest & Heq & Hpost).
      exists pl', rest. split; [|exact Hpost].
      now rewrite <- Heq, app_snoc_cons. }
    destruct ln as [r|].
    2:{ simpl in Hloop. apply (Hnext seen count); try assumption.
        apply covered_skip; [exact Hinv | discriminate]. }
    simpl in Hloop. fold (author_of r) in Hloop.
    destruct (truthy (author_of r)) eqn:Ht; simpl in Hloop.
    2:{ apply (Hnext seen count); try assumption.
        apply covered_skip; [exact Hinv|]. now intros r' [= <-]. }
    destruct (dict_lookup (author_of r) seen) as [existing|] eqn:Hex.
    + destruct (truthy (py_get r "book_id" (JStr ""))) eqn:Hb.
      2:{ apply (Hnext seen count); try assumption.
          apply (covered_same _ _ _ existing); try assumption. now left. }
      destruct (py_in _ _) as [present|e] eqn:Hin; simpl in Hloop;
        [|discriminate].
      apply py_in_Ok in Hin as (s & t & Hs & Hbooks & ->).
      destruct (is_substring s t) eqn:Hsub.
      * apply (Hnext seen count); try assumption.
        apply (covered_same _ _ _ existing); try assumption.
        right. right. now exists s, t.
      * destruct (append_book existing _) as [existing'|e] eqn:Happ;
          simpl in Hloop; [|discriminate].
        unfold append_book in Happ. rewrite Hbooks, Hs in Happ.
        injection Happ as <-.
        apply (Hnext (dict_set (author_of r)
                        {| author_id := author_id existing;
                           name := name existing; role := role existing;
                           books := JStr (t +:+ (";" +:+ py_str (JStr s))) |}
                        seen) count).
        -- apply (covered_update _ _ _ existing); try assumption.
           ++ reflexivity.
           ++ now exists t, (";" +:+ py_str (JStr s)).
           ++ rewrite Hs. right. right.
              exists s, (t +:+ (";" +:+ py_str (JStr s))).
              split_and!; try reflexivity. apply is_substring_suffix.
        -- rewrite Hcount. rewrite <- !(length_map fst), odict_set_keys, Hex.
           reflexivity.
        -- exact Hloop.
    + set (seen' := dict_set (author_of r) _ seen) in *.
      assert (Hlen : Z.of_nat (length seen') = count + 1).
      { unfold seen'. rewrite odict_set_length_new by exact Hex. lia. }
      assert (covered (pl ++ [Some r]) seen') as Hinv1.
      { apply covered_new; try assumption; reflexivity. }
      destruct (MAX_AUTHORS <=? count + 1) eqn:Hcap.
      * injection Hloop as <-. apply Z.leb_le in Hcap.
        exists (pl ++ [Some r]), lines. split_and!.
        -- now rewrite app_snoc_cons.
        -- exact Hinv1.
        -- lia.
      * apply (Hnext seen' (count + 1)); try assumption. lia.
Qed.

(** X16.  No book of an author is lost as text: when [process_authors]
    returns without having reached [MAX_AUTHORS], every record with a
    truthy [author_id] has a row for its author, and its [book_id] is
    falsy, or is the [books] field of that row, or is a string that
    occurs inside the [books] string of that row. *)
Theorem authors_books_covered (lines : list line) (rows : list author_row)
  (log : list msg) :
  process_authors (Some lines) = Ok (Some rows, log) →
  Z.of_nat (length rows) < MAX_AUTHORS →
  ∀ r, Some r ∈ lines → truthy (author_of r) = true →
    ∃ row, row ∈ rows ∧ author_id row = author_of r ∧
           book_covered (py_get r "book_id" (JStr "")) (books row).
Proof.
  unfold process_authors.
  destruct (authors_loop [] 0 lines) as [out|e] eqn:Hloop; simpl;
    [|discriminate].
  intros [= <- <-]. rewrite length_map. intros Hcap r Hin Ht.
  assert (covered [] []) as Hnil.
  { split; [discriminate|]. intros r' Hr'. inversion Hr'. }
  destruct (authors_loop_covered lines [] [] 0 out Hnil eq_refl Hloop)
    as (pl' & rest & Heq & [Hids Hcov] & Hfull).
  rewrite (Hfull Hcap), app_nil_r in Heq. simpl in Heq. subst pl'.
  destruct (Hcov r Hin Ht) as (row & Hl & Hb).
  exists row. split_and!; [|now apply Hids | exact Hb].
  apply list_elem_of_fmap. exists (author_of r, row). split; [reflexivity|].
  clear -Hl. induction out as [|[k v] out IH]; [discriminate|].
  simpl in Hl. destruct (decide (k = author_of r)) as [->|Hne].
  - injection Hl as ->. now left.
  - right. now apply IH.
Qed.

Lemma two_authors_run :
  ∃ rows log,
    process_authors (Some [Some author_book_12; Some author_book_123])
    = Ok (Some rows, log) ∧ Z.of_nat (length rows) < MAX_AUTHORS.
Proof. vm_compute. eexists _, _. split; reflexivity. Qed.

Lemma authors_books_covered_witness :
  ∃ rows log,
    process_authors (Some [Some author_book_12; Some author_book_123])
    = Ok (Some rows, log) ∧
    ∃ row, row ∈ rows ∧ author_id row = author_of author_book_123 ∧
           book_covered (py_get author_book_123 "book_id" (JStr ""))
             (books row).
Proof.
  destruct two_authors_run as (rows & log & H & Hlt).
  exists rows, log. split; [exact H|].
  apply (authors_books_covered _ rows log H Hlt author_book_123).
  - right. now left.
  - vm_compute. reflexivity.
Defined.

End authors_cover.
